(** * metriccost / whodidthis: a shallow embedding of the metrics client,
      the snapshot collector and the agentic analyzer, with the properties
      claimed of them.

    Layout (definitions first, theorems after):
    - [Go]           : the fragments of the Go runtime the code relies on
                       (64-bit wrap-around, strconv.ParseInt, fmt.Sscanf "%d",
                       the decoded form of JSON documents);
    - [LegacyClient] : src/unnamed/part_000, first document (hand-written HTTP
                       client: doRequestWithRetry, GetMetricCardinality,
                       GetConfig);
    - [Client]       : src/unnamed/part_000, second document
                       (GetLabelsForMetric);
    - [Collector]    : src/collector/prometheus_collector.go;
    - [models], [storage] : the data model and the repositories, which the
                       sources only use;
    - [Analyzer]     : src/unnamed/part_005 (StartAnalysis) and
                       src/analyzer/prompt.go, second document (runAnalysis);
    - [LegacyClientMore], [ClientMore], [CollectorMore], [AnalyzerMore] :
                       the remaining operations of the two clients
                       (HealthCheck, GetAllMetricNames, GetMetricLabels,
                       DiscoverServices, GetMetricsForService), GetGlobalStatus,
                       and the vocabulary of the further properties;
    - [Handler]      : src/storage/interfaces.go, last document (Health);
    - [GoFacts], [LegacyClientFacts], [ClientFacts], [CollectorFacts],
      [AnalyzerFacts] : the properties, one module per component;
    - [LegacyClientMoreFacts], [ClientMoreFacts], [CollectorMoreFacts],
      [AnalyzerMoreFacts], [HandlerFacts] : further properties of the same
                       components, and of the health handler. *)

From Stdlib Require Import ZArith Ascii String List Lia.
From stdpp Require Import gmap strings list sorting pretty.

Set Warnings "-register-all,-clear-no-such-hyp".

(* ===================================================================== *)
(** ** Go runtime fragments *)
(* ===================================================================== *)

Module Go.

Local Open Scope Z_scope.

(** Two's-complement wrap-around of [int64] (and of [int] on 64-bit
    targets). *)
Definition wrap64 (z : Z) : Z := (z + 2 ^ 63) mod 2 ^ 64 - 2 ^ 63.

Definition in_int64 (z : Z) : bool := (- 2 ^ 63 <=? z) && (z <? 2 ^ 63).

(** [time.Second], a [time.Duration] counted in nanoseconds. *)
Definition Second : Z := 1000000000.

(** [1 << uint(n)] on [int]: the shift count is converted to an unsigned
    64-bit number first, so a negative [n] becomes a huge count and the
    result is 0; otherwise the bits shifted out are lost. *)
Definition shl1 (n : Z) : Z :=
  if (n <? 0) || (64 <=? n) then 0 else wrap64 (Z.shiftl 1 n).

Definition digit_value (c : ascii) : option Z :=
  Z.of_nat <$> Ascii.is_nat c.

Definition is_digit (c : ascii) : bool :=
  match Ascii.is_nat c with Some _ => true | None => false end.

(** Value of a string of decimal digits read left to right, starting from
    the accumulator [acc]; [None] when a character is not a digit. *)
Fixpoint digits_value (acc : Z) (s : string) : option Z :=
  match s with
  | EmptyString => Some acc
  | String c s' =>
      match digit_value c with
      | Some d => digits_value (10 * acc + d) s'
      | None => None
      end
  end.

(** [strconv.ParseInt(s, 10, 64)]: an optional sign, at least one digit,
    nothing else, and a value that fits [int64]. *)
Definition ParseInt (s : string) : option Z :=
  let '(neg, body) :=
    match s with
    | String "-"%char r => (true, r)
    | String "+"%char r => (false, r)
    | _ => (false, s)
    end in
  match body with
  | EmptyString => None
  | _ =>
      match digits_value 0 body with
      | Some v =>
          let v' := if neg then - v else v in
          if in_int64 v' then Some v' else None
      | None => None
      end
  end.

(** Longest prefix of [s] made of decimal digits, with the rest. *)
Fixpoint span_digits (s : string) : string * string :=
  match s with
  | EmptyString => (EmptyString, EmptyString)
  | String c s' =>
      if is_digit c
      then let '(ds, rest) := span_digits s' in (String c ds, rest)
      else (EmptyString, s)
  end.

(** Blanks skipped by [fmt.Sscanf] before a verb (a newline is not one of
    them: it makes the scan fail). *)
Definition is_blank (c : ascii) : bool :=
  match c with
  | " "%char | "009"%char | "011"%char | "012"%char | "013"%char => true
  | _ => false
  end.

(** A string is the sequence of the bytes of its UTF-8 encoding. *)
Definition byte_value (c : ascii) : Z := Z.of_N (Ascii.N_of_ascii c).

(** The spaces above U+007F in the table of fmt's [isSpace], by their
    encodings: U+0085 and U+00A0 take two bytes; U+1680, U+2000 to U+200A,
    U+2028, U+2029, U+202F, U+205F and U+3000 take three. *)
Definition is_space2 (b0 b1 : ascii) : bool :=
  (byte_value b0 =? 194) && ((byte_value b1 =? 133) || (byte_value b1 =? 160)).

Definition is_space3 (b0 b1 b2 : ascii) : bool :=
  ((byte_value b0 =? 225) && (byte_value b1 =? 154) && (byte_value b2 =? 128))
  || ((byte_value b0 =? 226) && (byte_value b1 =? 128)
      && (((128 <=? byte_value b2) && (byte_value b2 <=? 138))
          || (byte_value b2 =? 168) || (byte_value b2 =? 169)
          || (byte_value b2 =? 175)))
  || ((byte_value b0 =? 226) && (byte_value b1 =? 129) && (byte_value b2 =? 159))
  || ((byte_value b0 =? 227) && (byte_value b1 =? 128) && (byte_value b2 =? 128)).

(** [SkipSpace]: the leading blanks and spaces are dropped, up to the
    first rune that is neither. *)
Fixpoint skip_blanks (s : string) : string :=
  match s with
  | EmptyString => s
  | String c s' =>
      if is_blank c then skip_blanks s'
      else
        match s' with
        | EmptyString => s
        | String c1 s'' =>
            if is_space2 c c1 then skip_blanks s''
            else
              match s'' with
              | EmptyString => s
              | String c2 s''' =>
                  if is_space3 c c1 c2 then skip_blanks s''' else s
              end
        end
  end.

(** [fmt.Sscanf(s, "%d", &n)]: skips leading blanks, accepts one sign,
    then reads the longest run of digits and converts it with [ParseInt];
    whatever follows the digits is left unread.  [None] stands for a scan
    error, in which case the destination keeps its previous value. *)
Definition Sscanf_d (s : string) : option Z :=
  let s1 := skip_blanks s in
  let '(sign, s2) :=
    match s1 with
    | String "-"%char r => (String "-"%char EmptyString, r)
    | String "+"%char r => (String "+"%char EmptyString, r)
    | _ => (EmptyString, s1)
    end in
  let '(ds, _) := span_digits s2 in
  match ds with
  | EmptyString => None
  | _ => ParseInt (String.app sign ds)
  end.

(** A decoded JSON document.  Number literals keep their spelling, since
    decoding into [int] depends on it. *)
Inductive json : Type :=
| JNull
| JBool (b : bool)
| JNumber (lit : string)
| JString (s : string)
| JArray (items : list json)
| JObject (fields : list (string * json)).

(** A byte slice handed to [json.Unmarshal]: either a well-formed document
    or bytes that are not JSON. *)
Inductive bytes : Type :=
| Malformed (raw : string)
| Document (j : json).

(** Value of the member named [k]; when a key is repeated the last
    occurrence wins, as in encoding/json. *)
Fixpoint member (k : string) (fields : list (string * json)) : option json :=
  match fields with
  | [] => None
  | (k', v) :: rest =>
      match member k rest with
      | Some v' => Some v'
      | None => if String.eqb k k' then Some v else None
      end
  end.

(** [json.Unmarshal(v, &n)] with [n int]: [null] leaves [n] alone, an
    integer literal in range is stored, anything else is an error. *)
Definition unmarshal_int (cur : Z) (v : json) : option Z :=
  match v with
  | JNull => Some cur
  | JNumber lit => ParseInt lit
  | _ => None
  end.

(** [json.Unmarshal(v, &s)] with [s string]. *)
Definition unmarshal_string (cur : string) (v : json) : option string :=
  match v with
  | JNull => Some cur
  | JString s => Some s
  | _ => None
  end.

(** [rest] does not continue a number: it is empty or starts with a
    character that is not a digit. *)
Definition stops_number (rest : string) : Prop :=
  match rest with
  | EmptyString => True
  | String c _ => is_digit c = false
  end.

End Go.

(* ===================================================================== *)
(** ** The hand-written HTTP client (src/unnamed/part_000, first document) *)
(* ===================================================================== *)

Module LegacyClient.

Import Go.
Local Open Scope Z_scope.

(** An outgoing request: the path and the query parameters that the code
    joins with [url.Values.Encode]. *)
Record request : Type := {
  req_method : string;
  req_path : string;
  req_params : list (string * string)
}.

(** What one HTTP exchange can yield inside [doSingleRequest]. *)
Inductive exchange : Type :=
| NewRequestFails (cause : string)
| DoFails (cause : string)
| ReadFails (cause : string)
| Responds (status : Z) (body : bytes).

(** The surroundings of one client call: the backend's answer to each
    attempt of a request, and whether the [select] that precedes attempt
    [k] receives from [ctx.Done()] before the backoff timer fires. *)
Record world : Type := {
  round_trip : request -> Z -> exchange;
  ctx_done : Z -> bool
}.

Inductive error : Type :=
| ErrContext                                   (* ctx.Err() *)
| ErrCreateRequest (cause : string)            (* failed to create request *)
| ErrRequestFailed (cause : string)            (* request failed *)
| ErrReadResponse (cause : string)             (* failed to read response *)
| ErrUnexpectedStatus (code : Z) (body : bytes) (* unexpected status code *)
| ErrAfterAttempts (n : Z) (last : option error) (* request failed after n attempts *)
| ErrGetCardinality (metric : string) (e : error)
| ErrParseResponse                             (* failed to parse response *)
| ErrPrometheus (msg : string)                 (* prometheus returned error *)
| ErrParseQueryResult                          (* failed to parse query result *)
| ErrParseCount.                               (* failed to parse count *)

Definition result (A : Type) : Type := (error + A)%type.

(** What the retry loop does, in order. *)
Inductive event : Type :=
| Attempt (k : Z)          (* doSingleRequest was called for attempt k *)
| Slept (d : Z)            (* the backoff timer of d nanoseconds fired *)
| Interrupted (d : Z).     (* ctx.Done() won against a timer of d ns *)

Record apiResponse : Type := {
  Status : string;
  Data : option json;      (* json.RawMessage; None when the member is absent *)
  Error : string
}.

Record queryRow : Type := {
  Metric : list (string * string);
  Value : list json        (* []json.RawMessage *)
}.

Record queryResponse : Type := {
  ResultType : string;
  Result : list queryRow
}.

Record PrometheusConfig : Type := { ScrapeInterval : Z }.

(** A struct member of Go type [string]: absent or [null] keeps the zero
    value, a string is stored, any other value is a type error. *)
Definition string_member (k : string) (fs : list (string * json)) : option string :=
  match member k fs with
  | None => Some EmptyString
  | Some v => unmarshal_string EmptyString v
  end.

(** [json.Unmarshal(resp, &result)] with [result apiResponse].  Member
    names are compared as they are written (encoding/json would also take
    a name that differs in letter case only). *)
Definition unmarshal_apiResponse (b : bytes) : option apiResponse :=
  match b with
  | Malformed _ => None
  | Document JNull => Some {| Status := EmptyString; Data := None; Error := EmptyString |}
  | Document (JObject fs) =>
      st ← string_member "status" fs;
      er ← string_member "error" fs;
      Some {| Status := st; Data := member "data" fs; Error := er |}
  | Document _ => None
  end.

Definition unmarshal_metric (v : option json) : option (list (string * string)) :=
  match v with
  | None | Some JNull => Some []
  | Some (JObject fs) =>
      mapM (λ kv : string * json,
              s ← unmarshal_string EmptyString kv.2; Some (kv.1, s)) fs
  | Some _ => None
  end.

Definition unmarshal_value (v : option json) : option (list json) :=
  match v with
  | None | Some JNull => Some []
  | Some (JArray items) => Some items
  | Some _ => None
  end.

Definition unmarshal_row (j : json) : option queryRow :=
  match j with
  | JNull => Some {| Metric := []; Value := [] |}
  | JObject fs =>
      m ← unmarshal_metric (member "metric" fs);
      v ← unmarshal_value (member "value" fs);
      Some {| Metric := m; Value := v |}
  | _ => None
  end.

(** [json.Unmarshal(result.Data, &queryResult)]; an absent [data] member
    leaves an empty byte slice, which is not a JSON document. *)
Definition unmarshal_queryResponse (d : option json) : option queryResponse :=
  match d with
  | None => None
  | Some JNull => Some {| ResultType := EmptyString; Result := [] |}
  | Some (JObject fs) =>
      rt ← string_member "resultType" fs;
      rows ← match member "result" fs with
             | None | Some JNull => Some []
             | Some (JArray items) => mapM unmarshal_row items
             | Some _ => None
             end;
      Some {| ResultType := rt; Result := rows |}
  | Some _ => None
  end.

Definition doSingleRequest (w : world) (r : request) (attempt : Z) : result bytes :=
  match round_trip w r attempt with
  | NewRequestFails cause => inl (ErrCreateRequest cause)
  | DoFails cause => inl (ErrRequestFailed cause)
  | ReadFails cause => inl (ErrReadResponse cause)
  | Responds code body =>
      if (code <? 200) || (300 <=? code)
      then inl (ErrUnexpectedStatus code body)
      else inr body
  end.

(** [time.Duration(1<<uint(attempt-1)) * time.Second]. *)
Definition backoff (attempt : Z) : Z := wrap64 (shl1 (attempt - 1) * Second).

(** The [for attempt := ...; attempt < maxRetries; attempt++] loop, with
    [remaining] iterations left. *)
Fixpoint retry_loop (w : world) (r : request) (maxRetries : Z)
    (remaining : nat) (attempt : Z) (lastErr : option error)
    : result bytes * list event :=
  match remaining with
  | O => (inl (ErrAfterAttempts maxRetries lastErr), [])
  | S remaining' =>
      if (0 <? attempt) && ctx_done w attempt
      then (inl ErrContext, [Interrupted (backoff attempt)])
      else
        let waited := if 0 <? attempt then [Slept (backoff attempt)] else [] in
        match doSingleRequest w r attempt with
        | inr resp => (inr resp, waited ++ [Attempt attempt])
        | inl err =>
            let '(res, tr) :=
              retry_loop w r maxRetries remaining' (attempt + 1) (Some err) in
            (res, waited ++ Attempt attempt :: tr)
        end
  end.

Definition doRequestWithRetry (w : world) (r : request) (maxRetries : Z)
    : result bytes * list event :=
  retry_loop w r maxRetries (Z.to_nat maxRetries) 0 None.

Definition doRequest (w : world) (r : request) : result bytes * list event :=
  doRequestWithRetry w r 3.

Definition cardinality_request (metricName : string) : request :=
  {| req_method := "GET";
     req_path := "/api/v1/query";
     req_params := [("query", "count(" +:+ metricName +:+ ")")] |}.

(** The scalar at [queryResult.Result[0].Value[1]]. *)
Definition parse_count (v : json) : result Z :=
  match unmarshal_int 0 v with
  | Some count => inr count
  | None =>
      match unmarshal_string EmptyString v with
      | None => inl ErrParseCount
      | Some countStr => inr (default 0 (Sscanf_d countStr))
      end
  end.

Definition GetMetricCardinality (w : world) (metricName : string)
    : result Z * list event :=
  let '(r, tr) := doRequest w (cardinality_request metricName) in
  (match r with
   | inl err => inl (ErrGetCardinality metricName err)
   | inr resp =>
       match unmarshal_apiResponse resp with
       | None => inl ErrParseResponse
       | Some res =>
           if negb (String.eqb (Status res) "success")
           then inl (ErrPrometheus (Error res))
           else
             match unmarshal_queryResponse (Data res) with
             | None => inl ErrParseQueryResult
             | Some queryResult =>
                 match Result queryResult with
                 | [] => inr 0
                 | first :: _ =>
                     match Value first with
                     | _ :: v1 :: _ => parse_count v1
                     | _ => inr 0
                     end
                 end
             end
       end
   end, tr).

Definition config_request : request :=
  {| req_method := "GET"; req_path := "/api/v1/status/config"; req_params := [] |}.

(** [GetConfig] returns a pointer and an error; the error is [None] for
    Go's [nil]. *)
Definition GetConfig (w : world) : (PrometheusConfig * option error) * list event :=
  let '(r, tr) := doRequest w config_request in
  (match r with
   | inl _ => ({| ScrapeInterval := 15 * Second |}, None)
   | inr resp =>
       match unmarshal_apiResponse resp with
       | None => ({| ScrapeInterval := 15 * Second |}, None)
       | Some _ => ({| ScrapeInterval := 15 * Second |}, None)
       end
   end, tr).

(** *** Scenarios *)

(** A backend that answers every attempt with the same status code and
    the error envelope [{status:"error", error:"bad query"}]. *)
Definition bad_query_body : bytes :=
  Document (JObject [("status", JString "error"); ("error", JString "bad query")]).

Definition bad_query_world (code : Z) : world :=
  {| round_trip := λ _ _, Responds code bad_query_body;
     ctx_done := λ _, false |}.

(** The reading of the scenario in the specification: whenever the
    cardinality query surfaces the backend's error text, three attempts
    were made, 1 s and 2 s apart. *)
Definition surfaced_after_three_attempts (w : world) (metricName : string) : Prop :=
  ∀ msg, (GetMetricCardinality w metricName).1 = inl (ErrPrometheus msg) →
         (GetMetricCardinality w metricName).2 =
           [Attempt 0; Slept (1 * Second); Attempt 1; Slept (2 * Second); Attempt 2].

(** Scenario S2: [count(up)] answered with [value = ["17.2", "42"]]. *)
Definition s2_body : bytes :=
  Document
    (JObject
       [("status", JString "success");
        ("data",
         JObject
           [("resultType", JString "vector");
            ("result",
             JArray
               [JObject
                  [("metric", JObject []);
                   ("value", JArray [JString "17.2"; JString "42"])]])])]).

Definition s2_world : world :=
  {| round_trip := λ _ _, Responds 200 s2_body; ctx_done := λ _, false |}.

(** The cardinality query for [metricName] succeeds and the scalar of its
    answer, [queryResult.Result[0].Value[1]], is [v]. *)
Definition answers_scalar (w : world) (metricName : string) (v : json) : Prop :=
  ∃ body env queryResult first rest v0 vs,
    (doRequest w (cardinality_request metricName)).1 = inr body
    ∧ unmarshal_apiResponse body = Some env
    ∧ Status env = "success"
    ∧ unmarshal_queryResponse (Data env) = Some queryResult
    ∧ Result queryResult = first :: rest
    ∧ Value first = v0 :: v :: vs.

(** A backend that answers a query with [value = ["17.2", v]]. *)
Definition scalar_body (v : json) : bytes :=
  Document
    (JObject
       [("status", JString "success");
        ("data",
         JObject
           [("resultType", JString "vector");
            ("result",
             JArray
               [JObject
                  [("metric", JObject []);
                   ("value", JArray [JString "17.2"; v])]])])]).

Definition scalar_world (v : json) : world :=
  {| round_trip := λ _ _, Responds 200 (scalar_body v); ctx_done := λ _, false |}.

(** The string "42" behind a no-break space (U+00A0, bytes C2 A0). *)
Definition nbsp_42 : string :=
  String "194"%char (String "160"%char "42").

(** A backend whose configuration answers with a scrape interval of 30
    seconds. *)
Definition config_30s_world : world :=
  {| round_trip := λ _ _,
       Responds 200
         (Document
            (JObject
               [("status", JString "success");
                ("data",
                 JObject [("yaml", JString "global: {scrape_interval: 30s}")])]));
     ctx_done := λ _, false |}.

End LegacyClient.

(* ===================================================================== *)
(** ** The API-based client (src/unnamed/part_000, second document) *)
(* ===================================================================== *)

Module Client.

Import Go.
Local Open Scope Z_scope.

(** ServiceInfo represents a discovered service with its series count. *)
Module ServiceInfo.
Record t : Type := { Name : string; SeriesCount : Z }.
End ServiceInfo.

(** MetricInfo represents a metric with its series count. *)
Module MetricInfo.
Record t : Type := { Name : string; SeriesCount : Z }.
End MetricInfo.

(** LabelInfo represents a label with its unique value count and sample
    values. *)
Module LabelInfo.
Record t : Type := {
  Name : string;
  UniqueValues : Z;
  SampleValues : list string
}.
End LabelInfo.

Inductive error : Type :=
| ErrApi (cause : string)                       (* error of the v1.API call *)
| ErrGetLabels (metric : string) (e : error).   (* failed to get labels for m *)

Definition result (A : Type) : Type := (error + A)%type.

(** [model.LabelSet]: one series, a map from label names to values. *)
Abbreviation LabelSet := (gmap string string).

Definition dquote : string := String (ascii_of_nat 34) EmptyString.

(** [fmt.Sprintf(`%s{%s="%s"}`, metricName, serviceLabel, serviceName)]. *)
Definition selector (metricName serviceLabel serviceName : string) : string :=
  metricName +:+ "{" +:+ serviceLabel +:+ "=" +:+ dquote +:+ serviceName
    +:+ dquote +:+ "}".

(** [sort.Strings]. *)
Definition sort_strings (l : list string) : list string :=
  merge_sort String.le l.

(** The [less] function handed to [sort.Slice]: more unique values first. *)
Definition more_unique (a b : LabelInfo.t) : Prop :=
  LabelInfo.UniqueValues b <= LabelInfo.UniqueValues a.

#[global] Instance more_unique_dec : RelDecision more_unique.
Proof. intros a b. unfold more_unique. apply _. Defined.

(** [sort.Slice(labels, ...)]; Go leaves the order of ties open, the
    merge sort picks one. *)
Definition sort_labels (l : list LabelInfo.t) : list LabelInfo.t :=
  merge_sort more_unique l.

Section WithIterationOrder.

(** Go visits the entries of a map in an unspecified order: [range]
    stands for the order in which a [for ... := range m] meets them. *)
Variable range : forall A : Type, list A -> list A.

(** Body of the inner loop of the aggregation, for one label of one
    series. *)
Definition record_value (serviceLabel : string)
    (labelValues : gmap string (gset string)) (entry : string * string)
    : gmap string (gset string) :=
  let '(labelName, value) := entry in
  if bool_decide (labelName = "__name__") || bool_decide (labelName = serviceLabel)
  then labelValues
  else
    let values := default ∅ (labelValues !! labelName) in
    <[labelName := {[value]} ∪ values]> labelValues.

(** Collect unique values per label. *)
Definition collect_label_values (serviceLabel : string)
    (series : list LabelSet) : gmap string (gset string) :=
  foldl (λ labelValues s,
           foldl (record_value serviceLabel) labelValues
                 (range _ (map_to_list s)))
        ∅ series.

(** The loop that extracts sample values: append, then leave the loop
    once [len(samples) >= sampleLimit]. *)
Fixpoint take_samples (sampleLimit : Z) (values : list string)
    (samples : list string) : list string :=
  match values with
  | [] => samples
  | v :: values' =>
      let samples' := samples ++ [v] in
      if sampleLimit <=? Z.of_nat (length samples')
      then samples'
      else take_samples sampleLimit values' samples'
  end.

Definition build_label (sampleLimit : Z) (entry : string * gset string)
    : LabelInfo.t :=
  let '(name, values) := entry in
  let samples := take_samples sampleLimit (range _ (elements values)) [] in
  {| LabelInfo.Name := name;
     LabelInfo.UniqueValues := Z.of_nat (size values);
     LabelInfo.SampleValues := sort_strings samples |}.

(** [Series] is the answer of [c.api.Series] to a selector. *)
Definition GetLabelsForMetric (Series : string -> result (list LabelSet))
    (serviceLabel serviceName metricName : string) (sampleLimit : Z)
    : result (list LabelInfo.t) :=
  match Series (selector metricName serviceLabel serviceName) with
  | inl err => inl (ErrGetLabels metricName err)
  | inr series =>
      let labelValues := collect_label_values serviceLabel series in
      let labels :=
        build_label sampleLimit <$> range _ (map_to_list labelValues) in
      inr (sort_labels labels)
  end.

End WithIterationOrder.

(** *** Vocabulary of the claims and scenarios *)

(** The distinct values observed for label [l] across the series. *)
Definition observed (series : list LabelSet) (l : string) : gset string :=
  list_to_set (omap (λ s : LabelSet, s !! l) series).

(** Sorted ascending without repetition. *)
Definition strictly_ascending (l : list string) : Prop :=
  Sorted String.le l ∧ NoDup l.

(** Three series of one metric of the service [checkout]. *)
Definition checkout_series : list LabelSet :=
  [ {[ "__name__" := "http_requests_total"; "service" := "checkout";
       "pod" := "b"; "zone" := "eu" ]};
    {[ "__name__" := "http_requests_total"; "service" := "checkout";
       "pod" := "a"; "zone" := "eu" ]};
    {[ "__name__" := "http_requests_total"; "service" := "checkout";
       "pod" := "c" ]} ].

Definition checkout_api (sel : string) : result (list LabelSet) :=
  inr checkout_series.

(** What [GetLabelsForMetric] returns for them with a sample limit of 0
    when the maps are walked backwards. *)
Definition zero_limit_labels : list LabelInfo.t :=
  [ {| LabelInfo.Name := "pod"; LabelInfo.UniqueValues := 3;
       LabelInfo.SampleValues := ["b"] |};
    {| LabelInfo.Name := "zone"; LabelInfo.UniqueValues := 1;
       LabelInfo.SampleValues := ["eu"] |} ].

(** The labels the aggregation skips. *)
Definition excluded (serviceLabel l : string) : bool :=
  bool_decide (l = "__name__") || bool_decide (l = serviceLabel).

(** The values paired with label [l] in a list of map entries. *)
Definition values_of (l : string) (entries : list (string * string)) : list string :=
  snd <$> filter (λ e, e.1 = l) entries.

(** Two iteration orders: the order of the listing, and its reverse. *)
Definition in_order (A : Type) (l : list A) : list A := l.
Definition backwards (A : Type) (l : list A) : list A := reverse l.

End Client.

(* ===================================================================== *)
(** ** The data model and the repositories *)
(* ===================================================================== *)

(** Modelled from the spec: the [models] package is not among the sources;
    the records follow the data model of the specification (section 3),
    with the field names the collector and the analyzer use. *)
Module models.

Module Snapshot.
Record t : Type := {
  ID : Z;
  CollectedAt : Z;
  TotalServices : Z;
  TotalSeries : Z;
  ScanDurationMs : Z
}.
End Snapshot.

Module ServiceSnapshot.
Record t : Type := {
  ID : Z;
  SnapshotID : Z;
  ServiceName : string;
  TotalSeries : Z;
  MetricCount : Z
}.
End ServiceSnapshot.

Module MetricSnapshot.
Record t : Type := {
  ID : Z;
  ServiceSnapshotID : Z;
  MetricName : string;
  SeriesCount : Z;
  LabelCount : Z
}.
End MetricSnapshot.

Module LabelSnapshot.
Record t : Type := {
  ID : Z;
  MetricSnapshotID : Z;
  LabelName : string;
  UniqueValuesCount : Z;
  SampleValues : list string
}.
End LabelSnapshot.

End models.

(** Modelled from the spec: the repository implementations behind
    [storage.SnapshotsRepo], [ServicesRepo], [MetricsRepo] and [LabelsRepo]
    are not among the sources (only src/storage/interfaces.go is).  A
    repository is a table of rows; [Create] appends the row under a fresh
    id and returns the id, [Update] replaces the row that has the same id,
    and a call that fails leaves the table as it was. *)
Module storage.

Import models.
Local Open Scope Z_scope.

Record store : Type := {
  snapshots : list Snapshot.t;
  services : list ServiceSnapshot.t;
  metrics : list MetricSnapshot.t;
  labels : list LabelSnapshot.t
}.

Definition empty : store :=
  {| snapshots := []; services := []; metrics := []; labels := [] |}.

(** The id given to a new row: larger than every id in the table. *)
Definition fresh_id (ids : list Z) : Z := 1 + foldr Z.max 0 ids.

Definition snapshot_with_id (id : Z) (s : Snapshot.t) : Snapshot.t :=
  {| Snapshot.ID := id;
     Snapshot.CollectedAt := Snapshot.CollectedAt s;
     Snapshot.TotalServices := Snapshot.TotalServices s;
     Snapshot.TotalSeries := Snapshot.TotalSeries s;
     Snapshot.ScanDurationMs := Snapshot.ScanDurationMs s |}.

Definition service_with_id (id : Z) (s : ServiceSnapshot.t) : ServiceSnapshot.t :=
  {| ServiceSnapshot.ID := id;
     ServiceSnapshot.SnapshotID := ServiceSnapshot.SnapshotID s;
     ServiceSnapshot.ServiceName := ServiceSnapshot.ServiceName s;
     ServiceSnapshot.TotalSeries := ServiceSnapshot.TotalSeries s;
     ServiceSnapshot.MetricCount := ServiceSnapshot.MetricCount s |}.

Definition metric_with_id (id : Z) (m : MetricSnapshot.t) : MetricSnapshot.t :=
  {| MetricSnapshot.ID := id;
     MetricSnapshot.ServiceSnapshotID := MetricSnapshot.ServiceSnapshotID m;
     MetricSnapshot.MetricName := MetricSnapshot.MetricName m;
     MetricSnapshot.SeriesCount := MetricSnapshot.SeriesCount m;
     MetricSnapshot.LabelCount := MetricSnapshot.LabelCount m |}.

Definition label_with_id (id : Z) (l : LabelSnapshot.t) : LabelSnapshot.t :=
  {| LabelSnapshot.ID := id;
     LabelSnapshot.MetricSnapshotID := LabelSnapshot.MetricSnapshotID l;
     LabelSnapshot.LabelName := LabelSnapshot.LabelName l;
     LabelSnapshot.UniqueValuesCount := LabelSnapshot.UniqueValuesCount l;
     LabelSnapshot.SampleValues := LabelSnapshot.SampleValues l |}.

Definition insert_snapshot (s : Snapshot.t) (db : store) : Z * store :=
  let id := fresh_id (Snapshot.ID <$> snapshots db) in
  (id, {| snapshots := snapshots db ++ [snapshot_with_id id s];
          services := services db; metrics := metrics db; labels := labels db |}).

Definition update_snapshot (s : Snapshot.t) (db : store) : store :=
  {| snapshots :=
       (λ r, if Snapshot.ID r =? Snapshot.ID s then s else r) <$> snapshots db;
     services := services db; metrics := metrics db; labels := labels db |}.

Definition insert_service (s : ServiceSnapshot.t) (db : store) : Z * store :=
  let id := fresh_id (ServiceSnapshot.ID <$> services db) in
  (id, {| snapshots := snapshots db;
          services := services db ++ [service_with_id id s];
          metrics := metrics db; labels := labels db |}).

Definition insert_metric (m : MetricSnapshot.t) (db : store) : Z * store :=
  let id := fresh_id (MetricSnapshot.ID <$> metrics db) in
  (id, {| snapshots := snapshots db; services := services db;
          metrics := metrics db ++ [metric_with_id id m];
          labels := labels db |}).

Definition insert_label (l : LabelSnapshot.t) (db : store) : Z * store :=
  let id := fresh_id (LabelSnapshot.ID <$> labels db) in
  (id, {| snapshots := snapshots db; services := services db;
          metrics := metrics db;
          labels := labels db ++ [label_with_id id l] |}).

(** The row of a snapshot, and the service rows that belong to it. *)
Definition find_snapshot (id : Z) (db : store) : option Snapshot.t :=
  List.find (λ r, Snapshot.ID r =? id) (snapshots db).

Definition services_of (id : Z) (db : store) : list ServiceSnapshot.t :=
  List.filter (λ r, ServiceSnapshot.SnapshotID r =? id) (services db).

(** Referential integrity: every service row points to a snapshot row. *)
Definition services_have_parent (db : store) : Prop :=
  ∀ r, r ∈ services db →
       ∃ p, p ∈ snapshots db ∧ Snapshot.ID p = ServiceSnapshot.SnapshotID r.

End storage.

(* ===================================================================== *)
(** ** The collector (src/collector/prometheus_collector.go) *)
(* ===================================================================== *)

Module Collector.

Import Go Client models.
Local Open Scope Z_scope.

Inductive error : Type :=
| Canceled                          (* context.Canceled *)
| DeadlineExceeded                  (* context.DeadlineExceeded *)
| BackendError (msg : string)       (* an error of the metrics client *)
| RepositoryError (msg : string).   (* an error of a repository *)

Definition result (A : Type) : Type := (error + A)%type.

Inductive level : Type := Debug | Info | Error.

(** What a run lets the outside see besides the store: the calls of the
    progress callback and the records handed to slog. *)
Inductive event : Type :=
| Progress (phase : string) (current total : Z) (detail : string)
| Log (lvl : level) (msg : string) (subject : string).

(** The surroundings of one run of [Collect].  Calls made once per run
    have one answer; calls made inside the loops are indexed by the
    position of the service (and of the metric, and of the label) they
    are made for.  For a repository call, [Some e] is the error it
    returns and [None] is success. *)
Record world : Type := {
  start : Z;                       (* time.Now(), in nanoseconds *)
  since_update : Z;                (* time.Since(start) before the update *)
  since_end : Z;                   (* time.Since(start) at the end *)
  snapshots_Create : option error;
  DiscoverServices : result (list ServiceInfo.t);
  ctx_Err_service : nat -> option error;
  GetMetricsForService : nat -> result (list MetricInfo.t);
  services_Create : nat -> option error;
  ctx_Err_metric : nat -> nat -> option error;
  GetLabelsForMetric : nat -> nat -> result (list LabelInfo.t);
  metrics_Create : nat -> nat -> option error;
  labels_Create : nat -> nat -> nat -> option error;
  snapshots_Update : option error
}.

Record state : Type := {
  db : storage.store;
  out : list event
}.

Record CollectResult : Type := {
  SnapshotID : Z;
  TotalServices : Z;
  TotalSeries : Z;
  Duration : Z
}.

(** State passing: a step reads and changes the store and the output. *)
Definition M (A : Type) : Type := state -> A * state.

Definition ret {A : Type} (a : A) : M A := λ st, (a, st).

Definition bind {A B : Type} (m : M A) (k : A -> M B) : M B :=
  λ st, let '(a, st') := m st in k a st'.

Declare Scope collect_scope.
Delimit Scope collect_scope with collect.
Notation "'do' x <- m ; k" := (bind m (λ x, k))
  (at level 10, x name, m at level 100, k at level 200) : collect_scope.
Notation "m ;; k" := (bind m (λ _, k))
  (at level 100, k at level 200, right associativity) : collect_scope.
Local Open Scope collect_scope.

Definition emit (e : event) : M unit :=
  λ st, (tt, {| db := db st; out := out st ++ [e] |}).

Definition progress (phase : string) (current total : Z) (detail : string) : M unit :=
  emit (Progress phase current total detail).

Definition slog (lvl : level) (msg subject : string) : M unit :=
  emit (Log lvl msg subject).

(** A repository call: the world says whether it fails; when it does not,
    the store changes as [storage] describes. *)
Definition repo_create {R : Type} (fails : option error)
    (insert : R -> storage.store -> Z * storage.store) (row : R) : M (result Z) :=
  λ st,
    match fails with
    | Some e => (inl e, st)
    | None =>
        let '(id, db') := insert row (db st) in
        (inr id, {| db := db'; out := out st |})
    end.

Definition repo_update (fails : option error) (s : Snapshot.t) : M (option error) :=
  λ st,
    match fails with
    | Some e => (Some e, st)
    | None => (None, {| db := storage.update_snapshot s (db st); out := out st |})
    end.

(** [start.Truncate(time.Second)]. *)
Definition truncate_to_second (t : Z) : Z := t - t mod Second.

(** [Duration.Milliseconds()]. *)
Definition Milliseconds (d : Z) : Z := Z.quot d 1000000.

Definition len {A : Type} (l : list A) : Z := Z.of_nat (length l).

(** The loop of [collectMetric] that stores the labels of a metric. *)
Fixpoint store_labels (w : world) (i j : nat) (metricSnapshotID : Z)
    (k : nat) (labelInfos : list LabelInfo.t) : M unit :=
  match labelInfos with
  | [] => ret tt
  | label :: rest =>
      let labelSnapshot :=
        {| LabelSnapshot.ID := 0;
           LabelSnapshot.MetricSnapshotID := metricSnapshotID;
           LabelSnapshot.LabelName := LabelInfo.Name label;
           LabelSnapshot.UniqueValuesCount := LabelInfo.UniqueValues label;
           LabelSnapshot.SampleValues := LabelInfo.SampleValues label |} in
      do r <- repo_create (labels_Create w i j k) storage.insert_label labelSnapshot;
      match r with
      | inl _ => slog Debug "failed to store label" (LabelInfo.Name label)
      | inr _ => ret tt
      end;;
      store_labels w i j metricSnapshotID (S k) rest
  end.

(** [collectMetric], for the metric at position [j] of the service at
    position [i]; the returned option is Go's [error]. *)
Definition collectMetric (w : world) (i j : nat) (serviceSnapshotID : Z)
    (serviceName : string) (metric : MetricInfo.t) : M (option error) :=
  do labelInfos <-
    match GetLabelsForMetric w i j with
    | inl _ =>
        slog Debug "failed to get labels" (MetricInfo.Name metric);;
        ret []
    | inr ls => ret ls
    end;
  let metricSnapshot :=
    {| MetricSnapshot.ID := 0;
       MetricSnapshot.ServiceSnapshotID := serviceSnapshotID;
       MetricSnapshot.MetricName := MetricInfo.Name metric;
       MetricSnapshot.SeriesCount := MetricInfo.SeriesCount metric;
       MetricSnapshot.LabelCount := len labelInfos |} in
  do r <- repo_create (metrics_Create w i j) storage.insert_metric metricSnapshot;
  match r with
  | inl err => ret (Some err)
  | inr metricSnapshotID =>
      store_labels w i j metricSnapshotID 0 labelInfos;;
      ret None
  end.

(** The loop of [collectService] over the metrics of a service; [Some e]
    is the early [return nil, ctx.Err()]. *)
Fixpoint collect_metrics (w : world) (i : nat) (serviceSnapshotID : Z)
    (serviceName : string) (j : nat) (metricInfos : list MetricInfo.t)
    : M (option error) :=
  match metricInfos with
  | [] => ret None
  | metric :: rest =>
      match ctx_Err_metric w i j with
      | Some e => ret (Some e)
      | None =>
          do r <- collectMetric w i j serviceSnapshotID serviceName metric;
          match r with
          | Some _ => slog Debug "failed to collect metric" (MetricInfo.Name metric)
          | None => ret tt
          end;;
          collect_metrics w i serviceSnapshotID serviceName (S j) rest
      end
  end.

Definition collectService (w : world) (i : nat) (snapshotID : Z)
    (svc : ServiceInfo.t) : M (result ServiceSnapshot.t) :=
  match GetMetricsForService w i with
  | inl err => ret (inl err)
  | inr metricInfos =>
      let serviceSnapshot :=
        {| ServiceSnapshot.ID := 0;
           ServiceSnapshot.SnapshotID := snapshotID;
           ServiceSnapshot.ServiceName := ServiceInfo.Name svc;
           ServiceSnapshot.TotalSeries := ServiceInfo.SeriesCount svc;
           ServiceSnapshot.MetricCount := len metricInfos |} in
      do r <- repo_create (services_Create w i) storage.insert_service serviceSnapshot;
      match r with
      | inl err => ret (inl err)
      | inr serviceSnapshotID =>
          do stop <- collect_metrics w i serviceSnapshotID (ServiceInfo.Name svc)
                       0 metricInfos;
          match stop with
          | Some e => ret (inl e)
          | None => ret (inr (storage.service_with_id serviceSnapshotID serviceSnapshot))
          end
      end
  end.

(** Step 3 of [Collect]: the loop over the discovered services, entered
    at position [i] with [totalSeries] accumulated so far; [total] is
    [len(serviceInfos)]. *)
Fixpoint collect_services (w : world) (snapshotID : Z) (total : Z) (i : nat)
    (serviceInfos : list ServiceInfo.t) (totalSeries : Z) : M (result Z) :=
  match serviceInfos with
  | [] => ret (inr totalSeries)
  | svc :: rest =>
      match ctx_Err_service w i with
      | Some e => ret (inl e)
      | None =>
          progress "scanning" (Z.of_nat i + 1) total (ServiceInfo.Name svc);;
          slog Info "scanning service" (ServiceInfo.Name svc);;
          do r <- collectService w i snapshotID svc;
          match r with
          | inl _ =>
              slog Error "failed to collect service" (ServiceInfo.Name svc);;
              collect_services w snapshotID total (S i) rest totalSeries
          | inr serviceSnapshot =>
              collect_services w snapshotID total (S i) rest
                (wrap64 (totalSeries + ServiceSnapshot.TotalSeries serviceSnapshot))
          end
      end
  end.

Definition Collect (w : world) : M (result CollectResult) :=
  let collectedAt := truncate_to_second (start w) in
  slog Info "starting service discovery" "";;
  progress "discovering" 0 0 "Discovering services...";;
  (* Step 1: Create snapshot *)
  let snapshot :=
    {| Snapshot.ID := 0; Snapshot.CollectedAt := collectedAt;
       Snapshot.TotalServices := 0; Snapshot.TotalSeries := 0;
       Snapshot.ScanDurationMs := 0 |} in
  do created <- repo_create (snapshots_Create w) storage.insert_snapshot snapshot;
  match created with
  | inl err => ret (inl err)
  | inr snapshotID =>
      (* Step 2: Discover services *)
      match DiscoverServices w with
      | inl err => ret (inl err)
      | inr serviceInfos =>
          slog Info "discovered services" "";;
          (* Step 3: For each service, collect metrics and labels *)
          do looped <- collect_services w snapshotID (len serviceInfos) 0 serviceInfos 0;
          match looped with
          | inl err => ret (inl err)
          | inr totalSeries =>
              (* Step 4: Update snapshot with totals *)
              let snapshot' :=
                {| Snapshot.ID := snapshotID;
                   Snapshot.CollectedAt := collectedAt;
                   Snapshot.TotalServices := len serviceInfos;
                   Snapshot.TotalSeries := totalSeries;
                   Snapshot.ScanDurationMs := Milliseconds (since_update w) |} in
              do updated <- repo_update (snapshots_Update w) snapshot';
              match updated with
              | Some err => ret (inl err)
              | None =>
                  slog Info "collection complete" "";;
                  ret (inr {| SnapshotID := snapshotID;
                              TotalServices := len serviceInfos;
                              TotalSeries := totalSeries;
                              Duration := since_end w |})
              end
          end
      end
  end.

(** *** Vocabulary of the claims *)

(** Output that is not a Debug record. *)
Definition visible (e : event) : bool :=
  match e with
  | Log Debug _ _ => false
  | _ => true
  end.

(** What the metric and label steps leave alone: the snapshot and service
    tables and the visible output. *)
Definition same_above (st st' : state) : Prop :=
  storage.snapshots (db st') = storage.snapshots (db st)
  ∧ storage.services (db st') = storage.services (db st)
  ∧ List.filter visible (out st') = List.filter visible (out st).

(** The first cancellation the metric loop of service [i] observes among
    [n] metrics, from position [j] on. *)
Fixpoint metric_stop (w : world) (i j : nat) (n : nat) : option error :=
  match n with
  | O => None
  | S n' =>
      match ctx_Err_metric w i j with
      | Some e => Some e
      | None => metric_stop w i (S j) n'
      end
  end.

(** The service at position [i] gets its row ... *)
Definition row_created (w : world) (i : nat) : bool :=
  match GetMetricsForService w i, services_Create w i with
  | inr _, None => true
  | _, _ => false
  end.

(** ... and [collectService] returns it without error. *)
Definition collected (w : world) (i : nat) : bool :=
  match GetMetricsForService w i, services_Create w i with
  | inr metricInfos, None =>
      match metric_stop w i 0 (length metricInfos) with
      | None => true
      | Some _ => false
      end
  | _, _ => false
  end.

(** Sum in [int64], as [totalSeries += ...] computes it. *)
Definition sum64 (acc : Z) (l : list Z) : Z :=
  foldl (λ a x, wrap64 (a + x)) acc l.

(** The services at the positions that satisfy [p], counting from [i]. *)
Fixpoint select (p : nat -> bool) (i : nat) (svcs : list ServiceInfo.t)
    : list ServiceInfo.t :=
  match svcs with
  | [] => []
  | svc :: rest =>
      if p i then svc :: select p (S i) rest else select p (S i) rest
  end.

(** The first cancellation the service loop observes, from position [i]
    on. *)
Fixpoint service_stop (w : world) (i : nat) (svcs : list ServiceInfo.t)
    : option error :=
  match svcs with
  | [] => None
  | _ :: rest =>
      match ctx_Err_service w i with
      | Some e => Some e
      | None => service_stop w (S i) rest
      end
  end.

(** The services the loop reaches before it stops. *)
Fixpoint reached (w : world) (i : nat) (svcs : list ServiceInfo.t)
    : list ServiceInfo.t :=
  match svcs with
  | [] => []
  | svc :: rest =>
      match ctx_Err_service w i with
      | Some _ => []
      | None => svc :: reached w (S i) rest
      end
  end.

(** The visible output of the service loop. *)
Fixpoint loop_output (w : world) (total : Z) (i : nat) (svcs : list ServiceInfo.t)
    : list event :=
  match svcs with
  | [] => []
  | svc :: rest =>
      match ctx_Err_service w i with
      | Some _ => []
      | None =>
          Progress "scanning" (Z.of_nat i + 1) total (ServiceInfo.Name svc)
          :: Log Info "scanning service" (ServiceInfo.Name svc)
          :: (if collected w i then []
              else [Log Error "failed to collect service" (ServiceInfo.Name svc)])
          ++ loop_output w total (S i) rest
      end
  end.

(** The visible output of a service loop that is not cancelled. *)
Fixpoint scan_output (w : world) (total : Z) (i : nat) (svcs : list ServiceInfo.t)
    : list event :=
  match svcs with
  | [] => []
  | svc :: rest =>
      Progress "scanning" (Z.of_nat i + 1) total (ServiceInfo.Name svc)
      :: Log Info "scanning service" (ServiceInfo.Name svc)
      :: (if collected w i then []
          else [Log Error "failed to collect service" (ServiceInfo.Name svc)])
      ++ scan_output w total (S i) rest
  end.

(** The row [collectService] inserts for a service. *)
Definition is_row_of (snapshotID : Z) (svc : ServiceInfo.t)
    (row : ServiceSnapshot.t) : Prop :=
  ServiceSnapshot.SnapshotID row = snapshotID
  ∧ ServiceSnapshot.ServiceName row = ServiceInfo.Name svc
  ∧ ServiceSnapshot.TotalSeries row = ServiceInfo.SeriesCount svc.

(** The snapshot [Collect] creates in step 1 and the one it writes in
    step 4. *)
Definition initial_snapshot (w : world) (id : Z) : Snapshot.t :=
  {| Snapshot.ID := id;
     Snapshot.CollectedAt := truncate_to_second (start w);
     Snapshot.TotalServices := 0; Snapshot.TotalSeries := 0;
     Snapshot.ScanDurationMs := 0 |}.

Definition final_snapshot (w : world) (id : Z) (svcs : list ServiceInfo.t)
    : Snapshot.t :=
  {| Snapshot.ID := id;
     Snapshot.CollectedAt := truncate_to_second (start w);
     Snapshot.TotalServices := len svcs;
     Snapshot.TotalSeries :=
       sum64 0 (ServiceInfo.SeriesCount <$> select (collected w) 0 svcs);
     Snapshot.ScanDurationMs := Milliseconds (since_update w) |}.

(** The id [snapshots.Create] hands out in state [st]. *)
Definition next_snapshot_id (st : state) : Z :=
  storage.fresh_id (Snapshot.ID <$> storage.snapshots (db st)).

(** *** Scenarios *)

Definition service (name : string) (series : Z) : ServiceInfo.t :=
  {| ServiceInfo.Name := name; ServiceInfo.SeriesCount := series |}.

(** Scenario S1: three services with 100, 50 and 10 series. *)
Definition three_services : list ServiceInfo.t :=
  [service "a" 100; service "b" 50; service "c" 10].

(** A world in which snapshot creation answers [create], discovery
    answers [discovery], the context is cancelled from the service at
    position [cancelled_from] on, the metrics of the services at the
    positions in [failing] cannot be fetched, and all else succeeds. *)
Definition scenario (create : option error)
    (discovery : result (list ServiceInfo.t)) (cancelled_from : option nat)
    (failing : list nat) : world :=
  {| start := 1754000000123456789;
     since_update := 2500000000;
     since_end := 2600000000;
     snapshots_Create := create;
     DiscoverServices := discovery;
     ctx_Err_service := λ i,
       match cancelled_from with
       | Some k => if (k <=? i)%nat then Some Canceled else None
       | None => None
       end;
     GetMetricsForService := λ i,
       if bool_decide (i ∈ failing)
       then inl (BackendError "query timed out")
       else inr [ {| MetricInfo.Name := "up"; MetricInfo.SeriesCount := 3 |} ];
     services_Create := λ _, None;
     ctx_Err_metric := λ _ _, None;
     GetLabelsForMetric := λ _ _,
       inr [ {| LabelInfo.Name := "pod"; LabelInfo.UniqueValues := 2;
                LabelInfo.SampleValues := ["a"; "b"] |} ];
     metrics_Create := λ _ _, None;
     labels_Create := λ _ _ _, None;
     snapshots_Update := None |}.

Definition fresh_state : state := {| db := storage.empty; out := [] |}.

(** The run in which the metrics of the second of the three services
    cannot be fetched, and what it returns. *)
Definition flaky_world : world :=
  scenario None (inr three_services) None [1%nat].

Definition flaky_result : CollectResult :=
  {| SnapshotID := 1; TotalServices := 3; TotalSeries := 110;
     Duration := 2600000000 |}.

(** What a run prints before and after the service loop. *)
Definition preamble : list event :=
  [Log Info "starting service discovery" "";
   Progress "discovering" 0 0 "Discovering services...";
   Log Info "discovered services" ""].

Definition epilogue (w : world) : list event :=
  match snapshots_Update w with
  | Some _ => []
  | None => [Log Info "collection complete" ""]
  end.

(** The reading of C1: after a successful run the totals of the snapshot
    are the sum over, and the number of, its service rows. *)
Definition totals_match_children (w : world) (st : state) : Prop :=
  ∀ res st', Collect w st = (inr res, st') →
    ∃ snap,
      storage.find_snapshot (SnapshotID res) (db st') = Some snap
      ∧ Snapshot.TotalSeries snap
        = foldr Z.add 0 (ServiceSnapshot.TotalSeries
                           <$> storage.services_of (SnapshotID res) (db st'))
      ∧ Snapshot.TotalServices snap
        = len (storage.services_of (SnapshotID res) (db st')).

End Collector.

(* ===================================================================== *)
(** ** The analyzer (src/unnamed/part_005, src/analyzer/prompt.go) *)
(* ===================================================================== *)

Module Analyzer.

Import Go models.
Local Open Scope Z_scope.

Definition maxAgenticIterations : Z := 20.

(** Modelled from the spec: [models.SnapshotAnalysis], [models.ToolCall]
    and the analysis status are declared in the [models] package, which is
    not among the sources; the fields are those of the data model of the
    specification (section 3) under the names the analyzer uses.  Values
    of Go type [any] and [map[string]any] are JSON documents. *)
Inductive AnalysisStatus : Type :=
| AnalysisStatusPending
| AnalysisStatusRunning
| AnalysisStatusCompleted
| AnalysisStatusFailed.

#[global] Instance AnalysisStatus_eq_dec : EqDecision AnalysisStatus.
Proof. solve_decision. Defined.

Module ToolCall.
Record t : Type := { Name : string; Args : json; Result : json }.
End ToolCall.

Module SnapshotAnalysis.
Record t : Type := {
  ID : Z;
  CurrentSnapshotID : Z;
  PreviousSnapshotID : Z;
  Status : AnalysisStatus;
  Result : string;
  Error : string;
  ToolCalls : list ToolCall.t;
  CreatedAt : Z;
  CompletedAt : option Z         (* *time.Time *)
}.
End SnapshotAnalysis.

(** The parts of a model turn (google.golang.org/genai). *)
Module FunctionCall.
Record t : Type := { Name : string; Args : json }.
End FunctionCall.

Module Part.
Record t : Type := {
  Text : string;
  Thought : bool;
  FunctionCall : option FunctionCall.t
}.
End Part.

Record Content : Type := { Parts : list Part.t }.
Record Candidate : Type := { Content_ : option Content }.
Record Response : Type := { Candidates : list Candidate }.

(** What is sent to the chat session. *)
Inductive message : Type :=
| Prompt (text : string)
| FunctionResponse (name : string) (response : json).

(** Go's [error], kept as its message. *)
Definition error : Type := string.
Definition result (A : Type) : Type := (error + A)%type.

Inductive level : Type := Debug | Info | Warn | Error.

(** The places where [analysisRepo.Update] is called. *)
Inductive update_site : Type :=
| AtRunning                 (* status set to Running *)
| AtToolCall (i : nat)      (* after the tool call of iteration i *)
| AtFailure                 (* completeAnalysisWithError *)
| AtCompletion.             (* the final result *)

(** The surroundings of the analyzer: repositories that may fail, the
    model behind the chat session, the tool executor and the clock. *)
Record world : Type := {
  snapshots_GetByID_err : Z -> option error;
  analysisRepo_GetByPair_err : option error;
  analysisRepo_Create_err : option error;
  analysisRepo_Update_err : update_site -> option error;
  services_List : Z -> result (list ServiceSnapshot.t);
  render_prompt : Snapshot.t -> Snapshot.t ->
                  list ServiceSnapshot.t -> list ServiceSnapshot.t -> string;
  Chats_Create_err : option error;
  SendMessage : nat -> message -> result Response;
  Execute : nat -> string -> json -> result json;
  now : Z
}.

(** A goroutine started with [go a.runAnalysis(...)]. *)
Record job : Type := {
  job_analysis : SnapshotAnalysis.t;
  job_current : Snapshot.t;
  job_previous : Snapshot.t
}.

(** The analyzer with what it reaches: the two repositories it uses, the
    fields guarded by [mu], the goroutines it has started and its log. *)
Record state : Type := {
  snapshots : list Snapshot.t;
  analyses : list SnapshotAnalysis.t;
  running : bool;
  currentSnapshotID : Z;
  previousSnapshotID : Z;
  progress : string;
  jobs : list job;
  logs : list (level * string)
}.

Definition M (A : Type) : Type := state -> A * state.
Definition ret {A : Type} (a : A) : M A := λ st, (a, st).
Definition bind {A B : Type} (m : M A) (k : A -> M B) : M B :=
  λ st, let '(a, st') := m st in k a st'.

Declare Scope analyzer_scope.
Delimit Scope analyzer_scope with analyzer.
Notation "'do' x <- m ; k" := (bind m (λ x, k))
  (at level 10, x name, m at level 100, k at level 200) : analyzer_scope.
Notation "m ;; k" := (bind m (λ _, k))
  (at level 100, k at level 200, right associativity) : analyzer_scope.
Local Open Scope analyzer_scope.

Definition set_analyses (rows : list SnapshotAnalysis.t) (st : state) : state :=
  {| snapshots := snapshots st; analyses := rows; running := running st;
     currentSnapshotID := currentSnapshotID st;
     previousSnapshotID := previousSnapshotID st;
     progress := progress st; jobs := jobs st; logs := logs st |}.

Definition set_status (r : bool) (cur prev : Z) (p : string) (st : state) : state :=
  {| snapshots := snapshots st; analyses := analyses st; running := r;
     currentSnapshotID := cur; previousSnapshotID := prev;
     progress := p; jobs := jobs st; logs := logs st |}.

Definition logger (lvl : level) (msg : string) : M unit :=
  λ st, (tt, {| snapshots := snapshots st; analyses := analyses st;
                running := running st;
                currentSnapshotID := currentSnapshotID st;
                previousSnapshotID := previousSnapshotID st;
                progress := progress st; jobs := jobs st;
                logs := logs st ++ [(lvl, msg)] |}).

Definition go (j : job) : M unit :=
  λ st, (tt, {| snapshots := snapshots st; analyses := analyses st;
                running := running st;
                currentSnapshotID := currentSnapshotID st;
                previousSnapshotID := previousSnapshotID st;
                progress := progress st; jobs := jobs st ++ [j];
                logs := logs st |}).

Definition updateProgress (p : string) : M unit :=
  λ st, (tt, set_status (running st) (currentSnapshotID st)
                        (previousSnapshotID st) p st).

Definition same_pair (currentID previousID : Z) (a : SnapshotAnalysis.t) : bool :=
  (SnapshotAnalysis.CurrentSnapshotID a =? currentID)
  && (SnapshotAnalysis.PreviousSnapshotID a =? previousID).

(** Modelled from the spec: the repositories behind [storage.SnapshotsRepo]
    and [storage.AnalysisRepo] are not among the sources.  [GetByID] and
    [GetByPair] return the matching row, or nil when there is none;
    [Create] inserts a Pending row for the pair under a fresh id (an
    analysis is unique per pair, so a row left for the pair is replaced);
    [Update] replaces the row that has the same id; a failing call leaves
    the table as it was. *)
Definition snapshots_GetByID (w : world) (id : Z) : M (result (option Snapshot.t)) :=
  λ st,
    match snapshots_GetByID_err w id with
    | Some e => (inl e, st)
    | None => (inr (List.find (λ r, Snapshot.ID r =? id) (snapshots st)), st)
    end.

Definition analysisRepo_GetByPair (w : world) (currentID previousID : Z)
    : M (result (option SnapshotAnalysis.t)) :=
  λ st,
    match analysisRepo_GetByPair_err w with
    | Some e => (inl e, st)
    | None => (inr (List.find (same_pair currentID previousID) (analyses st)), st)
    end.

Definition analysisRepo_Create (w : world) (currentID previousID : Z)
    : M (result SnapshotAnalysis.t) :=
  λ st,
    match analysisRepo_Create_err w with
    | Some e => (inl e, st)
    | None =>
        let row :=
          {| SnapshotAnalysis.ID :=
               storage.fresh_id (SnapshotAnalysis.ID <$> analyses st);
             SnapshotAnalysis.CurrentSnapshotID := currentID;
             SnapshotAnalysis.PreviousSnapshotID := previousID;
             SnapshotAnalysis.Status := AnalysisStatusPending;
             SnapshotAnalysis.Result := "";
             SnapshotAnalysis.Error := "";
             SnapshotAnalysis.ToolCalls := [];
             SnapshotAnalysis.CreatedAt := now w;
             SnapshotAnalysis.CompletedAt := None |} in
        let kept :=
          List.filter (λ a, negb (same_pair currentID previousID a)) (analyses st) in
        (inr row, set_analyses (kept ++ [row]) st)
    end.

Definition analysisRepo_Update (w : world) (site : update_site)
    (analysis : SnapshotAnalysis.t) : M (option error) :=
  λ st,
    match analysisRepo_Update_err w site with
    | Some e => (Some e, st)
    | None =>
        (None,
         set_analyses
           ((λ r, if SnapshotAnalysis.ID r =? SnapshotAnalysis.ID analysis
                  then analysis else r) <$> analyses st) st)
    end.

Definition with_status (s : AnalysisStatus) (a : SnapshotAnalysis.t) : SnapshotAnalysis.t :=
  {| SnapshotAnalysis.ID := SnapshotAnalysis.ID a;
     SnapshotAnalysis.CurrentSnapshotID := SnapshotAnalysis.CurrentSnapshotID a;
     SnapshotAnalysis.PreviousSnapshotID := SnapshotAnalysis.PreviousSnapshotID a;
     SnapshotAnalysis.Status := s;
     SnapshotAnalysis.Result := SnapshotAnalysis.Result a;
     SnapshotAnalysis.Error := SnapshotAnalysis.Error a;
     SnapshotAnalysis.ToolCalls := SnapshotAnalysis.ToolCalls a;
     SnapshotAnalysis.CreatedAt := SnapshotAnalysis.CreatedAt a;
     SnapshotAnalysis.CompletedAt := SnapshotAnalysis.CompletedAt a |}.

(** [analysis.Status = s; analysis.Result = r; analysis.Error = e;
    analysis.CompletedAt = &now], as the two completions assign them. *)
Definition finished (s : AnalysisStatus) (r e : string) (t : Z)
    (a : SnapshotAnalysis.t) : SnapshotAnalysis.t :=
  {| SnapshotAnalysis.ID := SnapshotAnalysis.ID a;
     SnapshotAnalysis.CurrentSnapshotID := SnapshotAnalysis.CurrentSnapshotID a;
     SnapshotAnalysis.PreviousSnapshotID := SnapshotAnalysis.PreviousSnapshotID a;
     SnapshotAnalysis.Status := s;
     SnapshotAnalysis.Result := r;
     SnapshotAnalysis.Error := e;
     SnapshotAnalysis.ToolCalls := SnapshotAnalysis.ToolCalls a;
     SnapshotAnalysis.CreatedAt := SnapshotAnalysis.CreatedAt a;
     SnapshotAnalysis.CompletedAt := Some t |}.

(** [analysis.ToolCalls = append(analysis.ToolCalls, c)]. *)
Definition append_tool_call (c : ToolCall.t) (a : SnapshotAnalysis.t) : SnapshotAnalysis.t :=
  {| SnapshotAnalysis.ID := SnapshotAnalysis.ID a;
     SnapshotAnalysis.CurrentSnapshotID := SnapshotAnalysis.CurrentSnapshotID a;
     SnapshotAnalysis.PreviousSnapshotID := SnapshotAnalysis.PreviousSnapshotID a;
     SnapshotAnalysis.Status := SnapshotAnalysis.Status a;
     SnapshotAnalysis.Result := SnapshotAnalysis.Result a;
     SnapshotAnalysis.Error := SnapshotAnalysis.Error a;
     SnapshotAnalysis.ToolCalls := SnapshotAnalysis.ToolCalls a ++ [c];
     SnapshotAnalysis.CreatedAt := SnapshotAnalysis.CreatedAt a;
     SnapshotAnalysis.CompletedAt := SnapshotAnalysis.CompletedAt a |}.

(** The part of [StartAnalysis] from [a.mu.Lock()] on. *)
Definition launch (w : world) (currentID previousID : Z)
    (currentSnapshot previousSnapshot : Snapshot.t) : M (result SnapshotAnalysis.t) :=
  λ st,
    if running st
    then (inl ("another analysis is already running (snapshots "
               +:+ pretty (currentSnapshotID st) +:+ " vs "
               +:+ pretty (previousSnapshotID st) +:+ ")"), st)
    else
      let st1 := set_status true currentID previousID "Initializing" st in
      match analysisRepo_Create w currentID previousID st1 with
      | (inl err, st2) =>
          (inl ("failed to create analysis record: " +:+ err),
           set_status false (currentSnapshotID st2) (previousSnapshotID st2)
                      (progress st2) st2)
      | (inr analysis, st2) =>
          let '(_, st3) :=
            go {| job_analysis := analysis; job_current := currentSnapshot;
                  job_previous := previousSnapshot |} st2 in
          (inr (with_status AnalysisStatusRunning analysis), st3)
      end.

Definition StartAnalysis (w : world) (currentID previousID : Z)
    : M (result SnapshotAnalysis.t) :=
  do cur <- snapshots_GetByID w currentID;
  match cur with
  | inl err => ret (inl ("failed to get current snapshot: " +:+ err))
  | inr None => ret (inl ("current snapshot " +:+ pretty currentID +:+ " not found"))
  | inr (Some currentSnapshot) =>
      do prev <- snapshots_GetByID w previousID;
      match prev with
      | inl err => ret (inl ("failed to get previous snapshot: " +:+ err))
      | inr None =>
          ret (inl ("previous snapshot " +:+ pretty previousID +:+ " not found"))
      | inr (Some previousSnapshot) =>
          do found <- analysisRepo_GetByPair w currentID previousID;
          match found with
          | inl err => ret (inl ("failed to check for existing analysis: " +:+ err))
          | inr existing =>
              match existing with
              | Some ex =>
                  if decide (SnapshotAnalysis.Status ex = AnalysisStatusCompleted)
                  then
                    logger Info "returning existing completed analysis";;
                    ret (inr ex)
                  else launch w currentID previousID currentSnapshot previousSnapshot
              | None => launch w currentID previousID currentSnapshot previousSnapshot
              end
          end
      end
  end.

Definition completeAnalysisWithError (w : world) (analysis : SnapshotAnalysis.t)
    (err : error) : M SnapshotAnalysis.t :=
  let analysis' :=
    finished AnalysisStatusFailed (SnapshotAnalysis.Result analysis) err (now w)
             analysis in
  do u <- analysisRepo_Update w AtFailure analysis';
  match u with
  | Some _ => logger Error "failed to update analysis with error"
  | None => ret tt
  end;;
  ret analysis'.

(** The services of both snapshots are listed, then the prompt text is
    laid out (the layout is the world's [render_prompt]). *)
Definition buildPrompt (w : world) (current previous : Snapshot.t) : result string :=
  match services_List w (Snapshot.ID current) with
  | inl err => inl ("failed to list current services: " +:+ err)
  | inr currentServices =>
      match services_List w (Snapshot.ID previous) with
      | inl err => inl ("failed to list previous services: " +:+ err)
      | inr previousServices =>
          inr (render_prompt w current previous currentServices previousServices)
      end
  end.

(** [resp.Candidates[0].Content], or [None] when the guard
    [resp.Candidates == nil || len(resp.Candidates) == 0 ||
     resp.Candidates[0].Content == nil] holds. *)
Definition first_content (resp : Response) : option Content :=
  match Candidates resp with
  | [] => None
  | c :: _ => Content_ c
  end.

(** The first part that carries a function call. *)
Fixpoint find_function_call (parts : list Part.t) : option FunctionCall.t :=
  match parts with
  | [] => None
  | part :: rest =>
      match Part.FunctionCall part with
      | Some fc => Some fc
      | None => find_function_call rest
      end
  end.

(** [toMap]: marshal to JSON and read back as [map[string]any], which
    only an object (or null) allows. *)
Definition toMap (v : json) : result json :=
  match v with
  | JObject _ | JNull => inr v
  | _ => inl "json: cannot unmarshal into Go value of type map[string]interface {}"
  end.

Definition error_map (err : error) : json := JObject [("error", JString err)].

(** How the agentic loop is left: by a [return] after a fatal error, or
    by falling out of the [for] ([break], or the iteration cap). *)
Inductive loop_exit : Type :=
| Returned (analysis : SnapshotAnalysis.t)
| Left (resp : Response) (analysis : SnapshotAnalysis.t).

(** [for i := 0; i < maxAgenticIterations; i++], entered at iteration [i]
    with [remaining] iterations to go. *)
Fixpoint agentic_loop (w : world) (remaining : nat) (i : nat) (resp : Response)
    (analysis : SnapshotAnalysis.t) : M loop_exit :=
  match remaining with
  | O => ret (Left resp analysis)
  | S remaining' =>
      match first_content resp with
      | None =>
          logger Error "empty response";;
          do a <- completeAnalysisWithError w analysis
                    "received an empty response from Gemini";
          ret (Returned a)
      | Some content =>
          match find_function_call (Parts content) with
          | None => ret (Left resp analysis)
          | Some functionCall =>
              let name := FunctionCall.Name functionCall in
              let args := FunctionCall.Args functionCall in
              logger Info "executing tool";;
              updateProgress ("Executing tool: " +:+ name +:+ " (iteration "
                              +:+ pretty (Z.of_nat i + 1) +:+ ")");;
              do result <-
                match Execute w i name args with
                | inl err =>
                    logger Error "tool execution failed";;
                    ret (error_map err)
                | inr r => ret r
                end;
              let analysis' :=
                append_tool_call
                  {| ToolCall.Name := name; ToolCall.Args := args;
                     ToolCall.Result := result |} analysis in
              do u <- analysisRepo_Update w (AtToolCall i) analysis';
              match u with
              | Some _ => logger Error "failed to update analysis with tool call"
              | None => ret tt
              end;;
              do responseMap <-
                match toMap result with
                | inl err =>
                    logger Error "failed to convert tool result to map";;
                    ret (error_map err)
                | inr m => ret m
                end;
              match SendMessage w (S i) (FunctionResponse name responseMap) with
              | inl err =>
                  logger Error "failed to send tool result to Gemini";;
                  do a <- completeAnalysisWithError w analysis' err;
                  ret (Returned a)
              | inr resp' => agentic_loop w remaining' (S i) resp' analysis'
              end
          end
      end
  end.

(** The text of the final response: its non-empty parts that are not
    thoughts, concatenated. *)
Definition final_text (resp : Response) : string :=
  match first_content resp with
  | None => ""
  | Some content =>
      foldl (λ finalText part,
               if negb (String.eqb (Part.Text part) "") && negb (Part.Thought part)
               then finalText +:+ Part.Text part
               else finalText)
            "" (Parts content)
  end.

(** What follows the loop in [runAnalysis]. *)
Definition finalize (w : world) (resp : Response) (analysis : SnapshotAnalysis.t)
    : M SnapshotAnalysis.t :=
  updateProgress "Generating final analysis";;
  do finalText <-
    (if String.eqb (final_text resp) ""
     then
       logger Warn "empty final response from Gemini";;
       ret "No analysis generated."
     else ret (final_text resp));
  logger Info "analysis completed";;
  let analysis' :=
    finished AnalysisStatusCompleted finalText (SnapshotAnalysis.Error analysis)
             (now w) analysis in
  do u <- analysisRepo_Update w AtCompletion analysis';
  match u with
  | Some _ => logger Error "failed to update analysis with final result"
  | None => updateProgress "Completed"
  end;;
  ret analysis'.

(** The deferred function of [runAnalysis]. *)
Definition release : M unit :=
  λ st, (tt, set_status false 0 0 "" st).

(** The dialogue with the model inside [runAnalysis]: from the building
    of the prompt to the final result, for the record [analysis] already
    set to Running. *)
Definition converse (w : world) (analysis : SnapshotAnalysis.t)
    (current previous : Snapshot.t) : M SnapshotAnalysis.t :=
  match buildPrompt w current previous with
  | inl err =>
      logger Error "failed to build prompt";;
      completeAnalysisWithError w analysis err
  | inr prompt =>
      updateProgress "Calling Gemini API";;
      match Chats_Create_err w with
      | Some err =>
          logger Error "failed to create chat session";;
          completeAnalysisWithError w analysis err
      | None =>
          match SendMessage w 0 (Prompt prompt) with
          | inl err =>
              logger Error "failed to send initial prompt to Gemini";;
              completeAnalysisWithError w analysis err
          | inr resp =>
              do exit <- agentic_loop w (Z.to_nat maxAgenticIterations) 0 resp analysis;
              match exit with
              | Returned a => ret a
              | Left resp' a => finalize w resp' a
              end
          end
      end
  end.

(** [runAnalysis] returns nothing; the value here is the analysis record
    its pointer designates when it returns. *)
Definition runAnalysis (w : world) (analysis : SnapshotAnalysis.t)
    (current previous : Snapshot.t) : M SnapshotAnalysis.t :=
  do final <-
    (logger Info "starting analysis";;
     let analysis := with_status AnalysisStatusRunning analysis in
     do u <- analysisRepo_Update w AtRunning analysis;
     match u with
     | Some _ => logger Error "failed to update analysis status to running"
     | None => ret tt
     end;;
     converse w analysis current previous);
  release;;
  ret final.

(** *** Vocabulary of the claims *)

(** The snapshot row with a given id, as [GetByID] finds it. *)
Definition snapshot_row (st : state) (id : Z) : option Snapshot.t :=
  List.find (λ r, Snapshot.ID r =? id) (snapshots st).

(** The analysis row of a pair, as [GetByPair] finds it. *)
Definition analysis_row (st : state) (currentID previousID : Z)
    : option SnapshotAnalysis.t :=
  List.find (same_pair currentID previousID) (analyses st).

(** What the tool executor hands back at its invocation number [k]: the
    result, or the error wrapped as [{"error": message}]. *)
Definition tool_result (w : world) (k : nat) (name : string) (args : json) : json :=
  match Execute w k name args with
  | inl err => error_map err
  | inr r => r
  end.

(** The calls [cs] were recorded in the order of the invocations of the
    executor, the first of them being invocation number [i]. *)
Definition in_invocation_order (w : world) (i : nat) (cs : list ToolCall.t) : Prop :=
  ∀ k c, cs !! k = Some c →
         ToolCall.Result c
         = tool_result w (i + k) (ToolCall.Name c) (ToolCall.Args c).

(** The record [a] after the calls [cs] have been appended one by one. *)
Definition with_tool_calls (cs : list ToolCall.t) (a : SnapshotAnalysis.t)
    : SnapshotAnalysis.t :=
  foldl (λ a c, append_tool_call c a) a cs.

(** The result text [runAnalysis] derives from the final response. *)
Definition text_or_default (resp : Response) : string :=
  if String.eqb (final_text resp) "" then "No analysis generated."
  else final_text resp.

(** [resp'] is the response in hand after [n] tool calls, when [resp] was
    the one in hand at iteration [i]. *)
Definition response_after (w : world) (i : nat) (resp : Response) (n : nat)
    (resp' : Response) : Prop :=
  match n with
  | O => resp' = resp
  | S _ => ∃ msg, SendMessage w (i + n) msg = inr resp'
  end.

(** What a failed dialogue leaves in the record: status Failed, the
    error and the completion time, and the calls made so far. *)
Definition failed_with (w : world) (a a' : SnapshotAnalysis.t)
    (cs : list ToolCall.t) : Prop :=
  ∃ err, a' = finished AnalysisStatusFailed (SnapshotAnalysis.Result a) err (now w)
                (with_tool_calls cs a).

(** What a completed dialogue leaves in the record and in the table: the
    text of the response in hand after the calls [cs], or the default
    text; and the record itself in the row when the final update
    succeeds. *)
Definition completed_with (w : world) (a a' : SnapshotAnalysis.t)
    (cs : list ToolCall.t) (st' : state) : Prop :=
  ∃ resp msg,
    SendMessage w (length cs) msg = inr resp
    ∧ a' = finished AnalysisStatusCompleted (text_or_default resp)
             (SnapshotAnalysis.Error a) (now w) (with_tool_calls cs a)
    ∧ (analysisRepo_Update_err w AtCompletion = None →
       ∀ row, row ∈ analyses st' →
              SnapshotAnalysis.ID row = SnapshotAnalysis.ID a → row = a').

(** *** Scenarios *)

Definition snapshot (id series : Z) : Snapshot.t :=
  {| Snapshot.ID := id; Snapshot.CollectedAt := 1754000000000000000 + id;
     Snapshot.TotalServices := 3; Snapshot.TotalSeries := series;
     Snapshot.ScanDurationMs := 2500 |}.

Definition text_part (text : string) (thought : bool) : Part.t :=
  {| Part.Text := text; Part.Thought := thought; Part.FunctionCall := None |}.

Definition call_part (name : string) (args : json) : Part.t :=
  {| Part.Text := ""; Part.Thought := false;
     Part.FunctionCall :=
       Some {| FunctionCall.Name := name; FunctionCall.Args := args |} |}.

Definition turn (parts : list Part.t) : Response :=
  {| Candidates := [ {| Content_ := Some {| Parts := parts |} |} ] |}.

(** A world whose repositories and tools never fail and whose model
    answers the message number [k] with [replies k]. *)
Definition quiet_world (replies : nat -> Response) : world :=
  {| snapshots_GetByID_err := λ _, None;
     analysisRepo_GetByPair_err := None;
     analysisRepo_Create_err := None;
     analysisRepo_Update_err := λ _, None;
     services_List := λ _, inr [];
     render_prompt := λ _ _ _ _, "compare the two snapshots";
     Chats_Create_err := None;
     SendMessage := λ k _, inr (replies k);
     Execute := λ _ _ _, inr (JObject [("metrics", JArray [])]);
     now := 1754000100000000000 |}.

Definition completed_analysis : SnapshotAnalysis.t :=
  {| SnapshotAnalysis.ID := 7;
     SnapshotAnalysis.CurrentSnapshotID := 5;
     SnapshotAnalysis.PreviousSnapshotID := 3;
     SnapshotAnalysis.Status := AnalysisStatusCompleted;
     SnapshotAnalysis.Result := "nothing changed";
     SnapshotAnalysis.Error := "";
     SnapshotAnalysis.ToolCalls := [];
     SnapshotAnalysis.CreatedAt := 1754000050000000000;
     SnapshotAnalysis.CompletedAt := Some 1754000060000000000 |}.

(** An idle analyzer over snapshots 3 and 5 (there is no snapshot 4) and
    one completed analysis of the pair (5, 3). *)
Definition idle_state : state :=
  {| snapshots := [snapshot 3 150; snapshot 5 160];
     analyses := [completed_analysis];
     running := false; currentSnapshotID := 0; previousSnapshotID := 0;
     progress := ""; jobs := []; logs := [] |}.

(** A pending analysis of the pair (5, 3), as [Create] makes it. *)
Definition pending_analysis : SnapshotAnalysis.t :=
  {| SnapshotAnalysis.ID := 8;
     SnapshotAnalysis.CurrentSnapshotID := 5;
     SnapshotAnalysis.PreviousSnapshotID := 3;
     SnapshotAnalysis.Status := AnalysisStatusPending;
     SnapshotAnalysis.Result := "";
     SnapshotAnalysis.Error := "";
     SnapshotAnalysis.ToolCalls := [];
     SnapshotAnalysis.CreatedAt := 1754000090000000000;
     SnapshotAnalysis.CompletedAt := None |}.

(** The analyzer while that analysis runs. *)
Definition busy_state : state :=
  {| snapshots := [snapshot 3 150; snapshot 5 160];
     analyses := [pending_analysis];
     running := true; currentSnapshotID := 5; previousSnapshotID := 3;
     progress := "Initializing"; jobs := []; logs := [] |}.

(** Scenario S6: the first turn of the model is its answer. *)
Definition answer_at_once (k : nat) : Response :=
  turn [text_part "weighing the evidence" true;
        text_part "Service b lost 10 series. " false;
        text_part "No cardinality issues." false].

(** A model whose only turn holds nothing but a thought. *)
Definition thought_only (k : nat) : Response :=
  turn [text_part "weighing the evidence" true].

(** A model that asks for two tools and then answers. *)
Definition two_calls (k : nat) : Response :=
  match k with
  | O => turn [call_part "compare_services" (JObject [("service_name", JString "b")])]
  | S O => turn [call_part "get_service_metrics" (JObject [("service_name", JString "b")])]
  | _ => turn [text_part "Service b lost 10 series." false]
  end.

(** A model that asks for a tool on every turn. *)
Definition calls_forever (k : nat) : Response :=
  turn [call_part "get_service_metrics" (JObject [("service_name", JString "b")])].

End Analyzer.

(* ===================================================================== *)
(** ** The hand-written HTTP client, continued
       (src/unnamed/part_000, first document) *)
(* ===================================================================== *)

Module LegacyClientMore.

Import Go LegacyClient.
Local Open Scope Z_scope.

(** The errors of the remaining operations: an error of [LegacyClient]
    as it is, or one wrapped with the operation's own message. *)
Inductive api_error : Type :=
| Plain (e : error)
| ErrHealthCheck (e : error)                 (* prometheus health check failed *)
| ErrGetMetricNames (e : error)              (* failed to get metric names *)
| ErrParseMetricNames                        (* failed to parse metric names *)
| ErrGetLabels (metric : string) (e : error) (* failed to get labels for m *)
| ErrParseSeries.                            (* failed to parse series *)

(** [LabelInfo] of this client. *)
Record LabelInfo : Type := { Name : string; UniqueCount : Z }.

(** What the retry loop records when it runs [n] attempts from attempt
    number [attempt] on without being interrupted. *)
Fixpoint schedule_from (attempt : Z) (n : nat) : list event :=
  match n with
  | O => []
  | S n' =>
      (if 0 <? attempt then [Slept (backoff attempt)] else [])
      ++ Attempt attempt :: schedule_from (attempt + 1) n'
  end.

Definition health_request : request :=
  {| req_method := "GET"; req_path := "/-/healthy"; req_params := [] |}.

(** [HealthCheck]; [None] is Go's nil error. *)
Definition HealthCheck (w : world) : option api_error * list event :=
  let '(r, tr) := doRequest w health_request in
  (match r with
   | inl err => Some (ErrHealthCheck err)
   | inr _ => None
   end, tr).

Definition metric_names_request : request :=
  {| req_method := "GET"; req_path := "/api/v1/label/__name__/values";
     req_params := [] |}.

(** [json.Unmarshal(result.Data, &names)] with [names []string]: an
    absent [data] member is an empty input, which is an error; [null]
    leaves the slice nil; the elements of an array must be strings or
    [null]. *)
Definition unmarshal_strings (d : option json) : option (list string) :=
  match d with
  | None => None
  | Some JNull => Some []
  | Some (JArray items) => mapM (unmarshal_string EmptyString) items
  | Some _ => None
  end.

Definition GetAllMetricNames (w : world) : (api_error + list string) * list event :=
  let '(r, tr) := doRequest w metric_names_request in
  (match r with
   | inl err => inl (ErrGetMetricNames err)
   | inr resp =>
       match unmarshal_apiResponse resp with
       | None => inl (Plain ErrParseResponse)
       | Some res =>
           if negb (String.eqb (Status res) "success")
           then inl (Plain (ErrPrometheus (Error res)))
           else
             match unmarshal_strings (Data res) with
             | None => inl ErrParseMetricNames
             | Some names => inr names
             end
       end
   end, tr).

(** A JSON object read as [map[string]string]: the last value of a
    repeated key stays; a value must be a string or [null]. *)
Definition unmarshal_string_map (j : json) : option (gmap string string) :=
  match j with
  | JNull => Some ∅
  | JObject fs =>
      foldl (λ acc kv,
               m ← acc; s ← unmarshal_string EmptyString kv.2;
               Some (<[kv.1 := s]> m))
            (Some ∅) fs
  | _ => None
  end.

(** [json.Unmarshal(result.Data, &series)] with
    [series []map[string]string]. *)
Definition unmarshal_series (d : option json) : option (list (gmap string string)) :=
  match d with
  | None => None
  | Some JNull => Some []
  | Some (JArray items) => mapM unmarshal_string_map items
  | Some _ => None
  end.

Definition series_request (metricName : string) : request :=
  {| req_method := "GET"; req_path := "/api/v1/series";
     req_params := [("match[]", metricName)] |}.

Section WithIterationOrder.

(** The order in which a [for ... := range m] meets the entries of a
    map. *)
Variable range : forall A : Type, list A -> list A.

(** The body of the aggregation loop of [GetMetricLabels]. *)
Definition note_value (labelValues : gmap string (gset string))
    (entry : string * string) : gmap string (gset string) :=
  let '(label, value) := entry in
  if bool_decide (label = "__name__")
  then labelValues
  else
    let values := default ∅ (labelValues !! label) in
    <[label := {[value]} ∪ values]> labelValues.

Definition GetMetricLabels (w : world) (metricName : string)
    : (api_error + list LabelInfo) * list event :=
  let '(r, tr) := doRequest w (series_request metricName) in
  (match r with
   | inl err => inl (ErrGetLabels metricName err)
   | inr resp =>
       match unmarshal_apiResponse resp with
       | None => inl (Plain ErrParseResponse)
       | Some res =>
           if negb (String.eqb (Status res) "success")
           then inl (Plain (ErrPrometheus (Error res)))
           else
             match unmarshal_series (Data res) with
             | None => inl ErrParseSeries
             | Some series =>
                 let labelValues :=
                   foldl (λ labelValues s,
                            foldl note_value labelValues (range _ (map_to_list s)))
                         ∅ series in
                 inr ((λ entry : string * gset string,
                         {| Name := entry.1;
                            UniqueCount := Z.of_nat (size entry.2) |})
                        <$> range _ (map_to_list labelValues))
             end
       end
   end, tr).

End WithIterationOrder.

(** *** Scenarios *)

(** The success envelope around a payload. *)
Definition success_body (data : json) : bytes :=
  Document (JObject [("status", JString "success"); ("data", data)]).

(** A backend that answers every attempt with status 200 and [body]. *)
Definition answering (body : bytes) : world :=
  {| round_trip := λ _ _, Responds 200 body; ctx_done := λ _, false |}.

(** A backend that fails the first [n] attempts with status 503 and then
    answers with status 200 and [body]. *)
Definition recovering (n : Z) (body : bytes) : world :=
  {| round_trip := λ _ k,
       if k <? n then Responds 503 (Malformed "unavailable") else Responds 200 body;
     ctx_done := λ _, false |}.

(** A backend that is down, with a context cancelled during the wait
    before attempt [k]. *)
Definition cancelled_at (k : Z) : world :=
  {| round_trip := λ _ _, DoFails "connection refused";
     ctx_done := λ j, j =? k |}.

End LegacyClientMore.

(* ===================================================================== *)
(** ** The API-based client, continued
       (src/unnamed/part_000, second document) *)
(* ===================================================================== *)

Module ClientMore.

Import Go Client.
Local Open Scope Z_scope.

Inductive query_error : Type :=
| ErrDiscover (e : error)                       (* failed to discover services *)
| ErrGetMetrics (service : string) (e : error)  (* failed to get metrics for service s *)
| ErrUnexpectedType (typeName : string).        (* unexpected result type *)

(** [fmt.Sprintf(`count({%s!=""}) by (%s)`, serviceLabel, serviceLabel)]. *)
Definition discover_query (serviceLabel : string) : string :=
  "count({" +:+ serviceLabel +:+ "!=" +:+ dquote +:+ dquote +:+ "}) by ("
    +:+ serviceLabel +:+ ")".

(** [fmt.Sprintf(`count({%s="%s"}) by (__name__)`, serviceLabel, serviceName)]. *)
Definition metrics_query (serviceLabel serviceName : string) : string :=
  "count({" +:+ serviceLabel +:+ "=" +:+ dquote +:+ serviceName +:+ dquote
    +:+ "}) by (__name__)".

(** The [less] functions handed to [sort.Slice]: larger series count
    first. *)
Definition more_series (a b : ServiceInfo.t) : Prop :=
  ServiceInfo.SeriesCount b <= ServiceInfo.SeriesCount a.

#[global] Instance more_series_dec : RelDecision more_series.
Proof. intros a b. unfold more_series. apply _. Defined.

Definition more_metric_series (a b : MetricInfo.t) : Prop :=
  MetricInfo.SeriesCount b <= MetricInfo.SeriesCount a.

#[global] Instance more_metric_series_dec : RelDecision more_metric_series.
Proof. intros a b. unfold more_metric_series. apply _. Defined.

Section WithSampleValues.

(** [model.SampleValue] is a float64; the code only converts it with
    [int(...)].  Both are left open. *)
Variable SampleValue : Type.
Variable int_of : SampleValue -> Z.

(** [model.Sample], without its timestamp. *)
Record Sample : Type := { Metric : LabelSet; Value : SampleValue }.

(** [model.Value]: a vector of samples, or a value of another type (its
    type name is what [%T] prints). *)
Inductive QueryValue : Type :=
| Vector (samples : list Sample)
| NotVector (typeName : string).

(** [string(sample.Metric[model.LabelName(l)])]: a missing label reads as
    the empty string. *)
Definition label_of (l : string) (sample : Sample) : string :=
  default EmptyString (Metric sample !! l).

(** [Query] is the answer of [c.api.Query] to a query string. *)
Definition DiscoverServices (Query : string -> result QueryValue)
    (serviceLabel : string) : query_error + list ServiceInfo.t :=
  match Query (discover_query serviceLabel) with
  | inl err => inl (ErrDiscover err)
  | inr (NotVector typeName) => inl (ErrUnexpectedType typeName)
  | inr (Vector vector) =>
      let services :=
        omap (λ sample,
                let serviceName := label_of serviceLabel sample in
                if decide (serviceName = EmptyString) then None
                else Some {| ServiceInfo.Name := serviceName;
                             ServiceInfo.SeriesCount := int_of (Value sample) |})
             vector in
      (* Sort by series count descending *)
      inr (merge_sort more_series services)
  end.

Definition GetMetricsForService (Query : string -> result QueryValue)
    (serviceLabel serviceName : string) : query_error + list MetricInfo.t :=
  match Query (metrics_query serviceLabel serviceName) with
  | inl err => inl (ErrGetMetrics serviceName err)
  | inr (NotVector typeName) => inl (ErrUnexpectedType typeName)
  | inr (Vector vector) =>
      let metrics :=
        omap (λ sample,
                let metricName := label_of "__name__" sample in
                if decide (metricName = EmptyString) then None
                else Some {| MetricInfo.Name := metricName;
                             MetricInfo.SeriesCount := int_of (Value sample) |})
             vector in
      (* Sort by series count descending *)
      inr (merge_sort more_metric_series metrics)
  end.

End WithSampleValues.

(** *** Scenarios *)

(** Scenario S1 as the backend reports it, out of order and with one
    sample that lacks the service label. *)
Definition s1_vector : QueryValue Z :=
  Vector Z
    [ {| Metric := {[ "service" := "c" ]}; Value := 10 |};
      {| Metric := {[ "service" := "a" ]}; Value := 100 |};
      {| Metric := {[ "job" := "node" ]}; Value := 7 |};
      {| Metric := {[ "service" := "b" ]}; Value := 50 |} ].

End ClientMore.

(* ===================================================================== *)
(** ** The collector, continued: vocabulary of its further properties *)
(* ===================================================================== *)

Module CollectorMore.

Import Go Client models Collector.
Local Open Scope Z_scope.

(** The labels [collectMetric] goes on with: those the client returned,
    or none ([labelInfos = nil]) when the client failed. *)
Definition fetched_labels (w : world) (i j : nat) : list LabelInfo.t :=
  match GetLabelsForMetric w i j with
  | inl _ => []
  | inr labelInfos => labelInfos
  end.

(** The labels, from position [k] on, whose row the labels repository
    accepts. *)
Fixpoint accepted_labels (w : world) (i j k : nat) (labelInfos : list LabelInfo.t)
    : list LabelInfo.t :=
  match labelInfos with
  | [] => []
  | label :: rest =>
      match labels_Create w i j k with
      | Some _ => accepted_labels w i j (S k) rest
      | None => label :: accepted_labels w i j (S k) rest
      end
  end.

(** The row [collectMetric] inserts for a label. *)
Definition is_label_row (metricSnapshotID : Z) (label : LabelInfo.t)
    (row : LabelSnapshot.t) : Prop :=
  LabelSnapshot.MetricSnapshotID row = metricSnapshotID
  ∧ LabelSnapshot.LabelName row = LabelInfo.Name label
  ∧ LabelSnapshot.UniqueValuesCount row = LabelInfo.UniqueValues label
  ∧ LabelSnapshot.SampleValues row = LabelInfo.SampleValues label.

(** The id [metrics.Create] hands out in state [st]. *)
Definition next_metric_id (st : state) : Z :=
  storage.fresh_id (MetricSnapshot.ID <$> storage.metrics (db st)).

(** Referential integrity below the services: every metric row points to
    a service row, every label row to a metric row. *)
Definition metrics_have_parent (db : storage.store) : Prop :=
  ∀ r, r ∈ storage.metrics db →
       ∃ p, p ∈ storage.services db
            ∧ ServiceSnapshot.ID p = MetricSnapshot.ServiceSnapshotID r.

Definition labels_have_parent (db : storage.store) : Prop :=
  ∀ r, r ∈ storage.labels db →
       ∃ p, p ∈ storage.metrics db
            ∧ MetricSnapshot.ID p = LabelSnapshot.MetricSnapshotID r.

Definition referentially_intact (db : storage.store) : Prop :=
  storage.services_have_parent db ∧ metrics_have_parent db ∧ labels_have_parent db.

(** What the collection of the metrics of the service row [ssid] does to
    the store: it appends metric rows of that service and label rows of
    those metrics. *)
Definition adds_metrics (ssid : Z) (db db' : storage.store) : Prop :=
  storage.snapshots db' = storage.snapshots db
  ∧ storage.services db' = storage.services db
  ∧ ∃ mrows lrows,
      storage.metrics db' = storage.metrics db ++ mrows
      ∧ storage.labels db' = storage.labels db ++ lrows
      ∧ Forall (λ r, MetricSnapshot.ServiceSnapshotID r = ssid) mrows
      ∧ Forall (λ r, LabelSnapshot.MetricSnapshotID r ∈ MetricSnapshot.ID <$> mrows)
               lrows.

(** What the service loop does to the store for the snapshot [sid]. *)
Definition adds_services (sid : Z) (db db' : storage.store) : Prop :=
  storage.snapshots db' = storage.snapshots db
  ∧ ∃ srows mrows lrows,
      storage.services db' = storage.services db ++ srows
      ∧ storage.metrics db' = storage.metrics db ++ mrows
      ∧ storage.labels db' = storage.labels db ++ lrows
      ∧ Forall (λ r, ServiceSnapshot.SnapshotID r = sid) srows
      ∧ Forall (λ r, MetricSnapshot.ServiceSnapshotID r ∈ ServiceSnapshot.ID <$> srows)
               mrows
      ∧ Forall (λ r, LabelSnapshot.MetricSnapshotID r ∈ MetricSnapshot.ID <$> mrows)
               lrows.

(** The sum of a list of counts, in unbounded integers. *)
Definition total (l : list Z) : Z := foldr Z.add 0 l.

(** The run in which the context is cancelled when the loop reaches the
    second of the three services. *)
Definition cancelled_world : world :=
  scenario None (inr three_services) (Some 1%nat) [].

End CollectorMore.

(* ===================================================================== *)
(** ** The analyzer, continued (src/unnamed/part_005) *)
(* ===================================================================== *)

Module AnalyzerMore.

Import Go models Analyzer.
Local Open Scope Z_scope.

(** [models.AnalysisGlobalStatus], with the fields [GetGlobalStatus]
    fills in. *)
Module AnalysisGlobalStatus.
Record t : Type := {
  Running : bool;
  CurrentSnapshotID : Z;
  PreviousSnapshotID : Z;
  Progress : string
}.
End AnalysisGlobalStatus.

Definition GetGlobalStatus (st : state) : AnalysisGlobalStatus.t :=
  {| AnalysisGlobalStatus.Running := running st;
     AnalysisGlobalStatus.CurrentSnapshotID := currentSnapshotID st;
     AnalysisGlobalStatus.PreviousSnapshotID := previousSnapshotID st;
     AnalysisGlobalStatus.Progress := progress st |}.

(** *** Vocabulary *)

(** The status of an analyzer at rest. *)
Definition idle_status : AnalysisGlobalStatus.t :=
  {| AnalysisGlobalStatus.Running := false;
     AnalysisGlobalStatus.CurrentSnapshotID := 0;
     AnalysisGlobalStatus.PreviousSnapshotID := 0;
     AnalysisGlobalStatus.Progress := "" |}.

(** The checks of [StartAnalysis] before it takes the lock have passed:
    both snapshots resolve, to [cur] and [prev], and the pair has no
    completed analysis. *)
Definition startable (w : world) (st : state) (currentID previousID : Z)
    (cur prev : Snapshot.t) : Prop :=
  snapshots_GetByID_err w currentID = None
  ∧ snapshots_GetByID_err w previousID = None
  ∧ snapshot_row st currentID = Some cur
  ∧ snapshot_row st previousID = Some prev
  ∧ analysisRepo_GetByPair_err w = None
  ∧ ∀ ex, analysis_row st currentID previousID = Some ex →
          SnapshotAnalysis.Status ex ≠ AnalysisStatusCompleted.

(** The error that keeps [runAnalysis] from entering the agentic loop, if
    there is one: the prompt cannot be built, the chat session cannot be
    created, or the prompt cannot be sent. *)
Definition setup_error (w : world) (current previous : Snapshot.t) : option error :=
  match buildPrompt w current previous with
  | inl err => Some err
  | inr prompt =>
      match Chats_Create_err w with
      | Some err => Some err
      | None =>
          match SendMessage w 0 (Prompt prompt) with
          | inl err => Some err
          | inr _ => None
          end
      end
  end.

(** The response carries a function call. *)
Definition asks_for_tool (resp : Response) : bool :=
  match first_content resp with
  | None => false
  | Some content =>
      match find_function_call (Parts content) with
      | Some _ => true
      | None => false
      end
  end.

(** [b] is a version of the record [a]: same id, same pair. *)
Definition same_key (a b : SnapshotAnalysis.t) : Prop :=
  SnapshotAnalysis.ID b = SnapshotAnalysis.ID a
  ∧ SnapshotAnalysis.CurrentSnapshotID b = SnapshotAnalysis.CurrentSnapshotID a
  ∧ SnapshotAnalysis.PreviousSnapshotID b = SnapshotAnalysis.PreviousSnapshotID a.

(** The row [r'] is the row [r], or it has taken the place of a row with
    the id of [a] as a version of [a]. *)
Definition row_rewritten (a r r' : SnapshotAnalysis.t) : Prop :=
  r' = r ∨ (SnapshotAnalysis.ID r = SnapshotAnalysis.ID a ∧ same_key a r').

(** What the steps of [runAnalysis] before the deferred release may do to
    the analyzer: write the progress text and the log, and put versions of
    the record [a] in the place of the rows that have its id. *)
Definition rewrites (a : SnapshotAnalysis.t) (st st' : state) : Prop :=
  snapshots st' = snapshots st
  ∧ jobs st' = jobs st
  ∧ running st' = running st
  ∧ currentSnapshotID st' = currentSnapshotID st
  ∧ previousSnapshotID st' = previousSnapshotID st
  ∧ Forall2 (row_rewritten a) (analyses st) (analyses st').

Definition preserves {A : Type} (a : SnapshotAnalysis.t) (m : M A) : Prop :=
  ∀ st, rewrites a st (m st).2.

(** The table of analyses holds a row for the record [a] that a lookup of
    the pair of [a] finds. *)
Definition listed (a : SnapshotAnalysis.t) (st : state) : Prop :=
  ∃ r, analysis_row st (SnapshotAnalysis.CurrentSnapshotID a)
         (SnapshotAnalysis.PreviousSnapshotID a) = Some r
       ∧ SnapshotAnalysis.ID r = SnapshotAnalysis.ID a.

(** *** The dialogue of a run *)

(** The map sent back to the model for a tool result: the result itself
    when it is an object, the wrapped conversion error otherwise. *)
Definition response_map (result : json) : json :=
  match toMap result with
  | inl err => error_map err
  | inr m => m
  end.

(** The tool call recorded at iteration [i] for the function call [fc]. *)
Definition recorded_call (w : world) (i : nat) (fc : FunctionCall.t) : ToolCall.t :=
  {| ToolCall.Name := FunctionCall.Name fc;
     ToolCall.Args := FunctionCall.Args fc;
     ToolCall.Result := tool_result w i (FunctionCall.Name fc) (FunctionCall.Args fc) |}.

(** What is sent to the model after that call. *)
Definition tool_message (w : world) (i : nat) (fc : FunctionCall.t) : message :=
  FunctionResponse (FunctionCall.Name fc)
    (response_map (ToolCall.Result (recorded_call w i fc))).

(** [leads_to w i resp cs resp']: with the response [resp] in hand at
    iteration [i], the model asks for the calls [cs] one after the other,
    each is executed and answered, and [resp'] is the response in hand
    after the last of them. *)
Inductive leads_to (w : world) : nat → Response → list ToolCall.t → Response → Prop :=
| leads_here i resp : leads_to w i resp [] resp
| leads_on i resp content fc resp1 cs resp' :
    first_content resp = Some content →
    find_function_call (Parts content) = Some fc →
    SendMessage w (S i) (tool_message w i fc) = inr resp1 →
    leads_to w (S i) resp1 cs resp' →
    leads_to w i resp (recorded_call w i fc :: cs) resp'.

(** The response has content and carries no function call: the model
    answers. *)
Definition answers (resp : Response) : bool :=
  match first_content resp with
  | None => false
  | Some content =>
      match find_function_call (Parts content) with
      | Some _ => false
      | None => true
      end
  end.

(** The loop of [runAnalysis] is left with the response [resp] in hand
    after the calls [cs]: by [break], because [resp] answers, or because
    the iterations are used up. *)
Definition loop_ends (cs : list ToolCall.t) (resp : Response) : Prop :=
  (length cs <= Z.to_nat maxAgenticIterations)%nat
  ∧ (answers resp = true ∨ length cs = Z.to_nat maxAgenticIterations).

(** The run gets through its setup with [resp0] as first response, and
    its dialogue ends with the response [resp] after the calls [cs]. *)
Definition dialogue_ends (w : world) (current previous : Snapshot.t)
    (cs : list ToolCall.t) (resp : Response) : Prop :=
  ∃ prompt resp0,
    buildPrompt w current previous = inr prompt
    ∧ Chats_Create_err w = None
    ∧ SendMessage w 0 (Prompt prompt) = inr resp0
    ∧ leads_to w 0 resp0 cs resp
    ∧ loop_ends cs resp.

(** *** Scenarios *)

(** A world like [quiet_world] whose analysis repository refuses new
    rows. *)
Definition create_fails (replies : nat -> Response) : world :=
  {| snapshots_GetByID_err := λ _, None;
     analysisRepo_GetByPair_err := None;
     analysisRepo_Create_err := Some "database is locked";
     analysisRepo_Update_err := λ _, None;
     services_List := services_List (quiet_world replies);
     render_prompt := render_prompt (quiet_world replies);
     Chats_Create_err := None;
     SendMessage := SendMessage (quiet_world replies);
     Execute := Execute (quiet_world replies);
     now := now (quiet_world replies) |}.

(** A world like [quiet_world] in which the model cannot be reached. *)
Definition unreachable_model : world :=
  {| snapshots_GetByID_err := λ _, None;
     analysisRepo_GetByPair_err := None;
     analysisRepo_Create_err := None;
     analysisRepo_Update_err := λ _, None;
     services_List := services_List (quiet_world answer_at_once);
     render_prompt := render_prompt (quiet_world answer_at_once);
     Chats_Create_err := None;
     SendMessage := λ _ _, inl "rpc error: deadline exceeded";
     Execute := Execute (quiet_world answer_at_once);
     now := now (quiet_world answer_at_once) |}.

(** An idle analyzer over snapshots 3 and 5 with no analysis yet. *)
Definition blank_state : state :=
  {| snapshots := [snapshot 3 150; snapshot 5 160];
     analyses := [];
     running := false; currentSnapshotID := 0; previousSnapshotID := 0;
     progress := ""; jobs := []; logs := [] |}.

(** A model that asks for a tool on every turn and says which turn it
    is. *)
Definition counting_calls (k : nat) : Response :=
  turn [text_part (if (k =? 20)%nat then "reply 20" else "an earlier reply") false;
        call_part "get_service_metrics" (JObject [("service_name", JString "b")])].

End AnalyzerMore.

(* ===================================================================== *)
(** ** The health handler (src/storage/interfaces.go, last document) *)
(* ===================================================================== *)

Module Handler.

Import Go models LegacyClient LegacyClientMore.
Local Open Scope Z_scope.

(** [models.HealthStatus], with the fields the handler assigns;
    [LastScan] is [None] as long as it holds its zero value. *)
Module HealthStatus.
Record t : Type := {
  Status : string;
  DatabaseOK : bool;
  PrometheusConnected : bool;
  LastScan : option Z
}.
End HealthStatus.

(** What the handler reaches: the database, whose [Stats] may fail; the
    metrics client, an interface value that is nil ([None]) or a client
    given by what its [HealthCheck] returns; and the snapshots repository,
    of whose [GetLatest] only the snapshot is looked at. *)
Record world : Type := {
  db_Stats_err : option string;
  promClient : option (option api_error);
  snapshots_GetLatest : option Snapshot.t
}.

(** The hand-written client as the metrics client of the handler. *)
Definition legacy_client (backend : LegacyClient.world) : option (option api_error) :=
  Some (HealthCheck backend).1.

Definition StatusOK : Z := 200.

(** [Health]: the status code and the body handed to [writeJSON]. *)
Definition Health (w : world) : Z * HealthStatus.t :=
  let status :=
    {| HealthStatus.Status := "healthy";
       HealthStatus.DatabaseOK := true;
       HealthStatus.PrometheusConnected := true;
       HealthStatus.LastScan := None |} in
  let status :=
    match db_Stats_err w with
    | Some _ =>
        {| HealthStatus.Status := "unhealthy";
           HealthStatus.DatabaseOK := false;
           HealthStatus.PrometheusConnected := HealthStatus.PrometheusConnected status;
           HealthStatus.LastScan := HealthStatus.LastScan status |}
    | None => status
    end in
  let status :=
    match promClient w with
    | Some HealthCheck_err =>
        match HealthCheck_err with
        | Some _ =>
            {| HealthStatus.Status :=
                 if String.eqb (HealthStatus.Status status) "healthy"
                 then "degraded" else HealthStatus.Status status;
               HealthStatus.DatabaseOK := HealthStatus.DatabaseOK status;
               HealthStatus.PrometheusConnected := false;
               HealthStatus.LastScan := HealthStatus.LastScan status |}
        | None => status
        end
    | None => status
    end in
  let status :=
    match snapshots_GetLatest w with
    | Some latest =>
        {| HealthStatus.Status := HealthStatus.Status status;
           HealthStatus.DatabaseOK := HealthStatus.DatabaseOK status;
           HealthStatus.PrometheusConnected := HealthStatus.PrometheusConnected status;
           HealthStatus.LastScan := Some (Snapshot.CollectedAt latest) |}
    | None => status
    end in
  (StatusOK, status).

End Handler.

(* ===================================================================== *)
(** * Properties *)
(* ===================================================================== *)

(** ** Go runtime: scanning a leading integer *)

Module GoFacts.

Import Go.
Local Open Scope Z_scope.

Lemma digit_value_is_digit c d : digit_value c = Some d → is_digit c = true.
Proof.
  unfold digit_value, is_digit. destruct (Ascii.is_nat c); [done|].
  intros H. discriminate H.
Qed.

Lemma span_digits_app ds rest acc v :
  digits_value acc ds = Some v → stops_number rest →
  span_digits (String.app ds rest) = (ds, rest).
Proof.
  revert acc. induction ds as [|c ds IH]; intros acc Hv Hrest.
  - destruct rest as [|c r]; [done|]. simpl in *. by rewrite Hrest.
  - simpl in Hv. destruct (digit_value c) as [d|] eqn:Hd; [|done].
    change (String.app (String c ds) rest) with (String c (String.app ds rest)).
    simpl. rewrite (digit_value_is_digit _ _ Hd).
    by rewrite (IH _ Hv Hrest).
Qed.

Lemma digit_not_blank c d : digit_value c = Some d → is_blank c = false.
Proof.
  destruct c as [[] [] [] [] [] [] [] []]; vm_compute; congruence.
Qed.

(** A digit is where the skipping of spaces stops. *)
Lemma skip_blanks_digit c d s :
  digit_value c = Some d → skip_blanks (String c s) = String c s.
Proof.
  intros Hd. cbn [skip_blanks]. rewrite (digit_not_blank _ _ Hd).
  assert (byte_value c <> 194 ∧ byte_value c <> 225 ∧ byte_value c <> 226
          ∧ byte_value c <> 227) as (H1 & H2 & H3 & H4).
  { destruct c as [[] [] [] [] [] [] [] []]; vm_compute in Hd; try congruence;
      vm_compute; repeat split; congruence. }
  destruct s as [|c1 [|c2 s]]; [done| |].
  - unfold is_space2. by replace (byte_value c =? 194) with false by lia.
  - unfold is_space2, is_space3.
    replace (byte_value c =? 194) with false by lia.
    replace (byte_value c =? 225) with false by lia.
    replace (byte_value c =? 226) with false by lia.
    by replace (byte_value c =? 227) with false by lia.
Qed.

Lemma digit_not_sign c d :
  digit_value c = Some d → c ≠ "-"%char ∧ c ≠ "+"%char.
Proof.
  destruct c as [[] [] [] [] [] [] [] []]; vm_compute; intros; split; congruence.
Qed.

Lemma ParseInt_digits c ds v :
  digits_value 0 (String c ds) = Some v → in_int64 v = true →
  ParseInt (String c ds) = Some v.
Proof.
  intros Hv Hr. unfold ParseInt.
  assert (∃ d, digit_value c = Some d) as [d Hd].
  { simpl in Hv. destruct (digit_value c); [eauto|done]. }
  destruct (digit_not_sign _ _ Hd) as [Hm Hp].
  destruct c as [[] [] [] [] [] [] [] []]; try congruence;
    cbv zeta iota beta; rewrite Hv, Hr; reflexivity.
Qed.

(** Scanning with the verb d reads the digits in front and ignores what
    follows them. *)
Lemma Sscanf_d_leading_integer ds rest v :
  ds ≠ EmptyString → digits_value 0 ds = Some v → in_int64 v = true →
  stops_number rest →
  Sscanf_d (String.app ds rest) = Some v.
Proof.
  intros Hne Hv Hr Hrest. destruct ds as [|c ds]; [done|].
  assert (∃ d, digit_value c = Some d) as [d Hd].
  { simpl in Hv. destruct (digit_value c); [eauto|done]. }
  unfold Sscanf_d.
  change (String.app (String c ds) rest) with (String c (String.app ds rest)).
  rewrite (skip_blanks_digit _ _ _ Hd).
  pose proof (span_digits_app (String c ds) rest 0 v Hv Hrest) as Hspan.
  change (String.app (String c ds) rest) with (String c (String.app ds rest)) in Hspan.
  destruct (digit_not_sign _ _ Hd) as [Hm Hp].
  destruct c as [[] [] [] [] [] [] [] []]; try congruence;
    cbv zeta iota beta; rewrite Hspan; cbv iota beta;
    change (String.app EmptyString ?s) with s;
    apply (ParseInt_digits _ _ _ Hv Hr).
Qed.

End GoFacts.

(** ** The hand-written HTTP client *)

Module LegacyClientFacts.

Import Go GoFacts LegacyClient.
Local Open Scope Z_scope.

Lemma backoff_1 : backoff 1 = 1 * Second.
Proof. reflexivity. Qed.

Lemma backoff_2 : backoff 2 = 2 * Second.
Proof. reflexivity. Qed.

(** The three attempts of [doRequest], the waits between them and the
    points where a cancelled context is noticed, as a decision table. *)
Lemma doRequest_cases (w : world) (r : request) :
  doRequest w r =
    match doSingleRequest w r 0 with
    | inr body => (inr body, [Attempt 0])
    | inl _ =>
        if ctx_done w 1
        then (inl ErrContext, [Attempt 0; Interrupted (1 * Second)])
        else
          match doSingleRequest w r 1 with
          | inr body => (inr body, [Attempt 0; Slept (1 * Second); Attempt 1])
          | inl _ =>
              if ctx_done w 2
              then (inl ErrContext,
                    [Attempt 0; Slept (1 * Second); Attempt 1;
                     Interrupted (2 * Second)])
              else
                match doSingleRequest w r 2 with
                | inr body =>
                    (inr body,
                     [Attempt 0; Slept (1 * Second); Attempt 1;
                      Slept (2 * Second); Attempt 2])
                | inl e2 =>
                    (inl (ErrAfterAttempts 3 (Some e2)),
                     [Attempt 0; Slept (1 * Second); Attempt 1;
                      Slept (2 * Second); Attempt 2])
                end
          end
    end.
Proof.
  unfold doRequest, doRequestWithRetry.
  change (Z.to_nat 3) with 3%nat. cbn [retry_loop].
  change (0 <? 0) with false. change (0 + 1) with 1.
  change (0 <? 1) with true. change (1 + 1) with 2.
  change (0 <? 2) with true.
  rewrite backoff_1, backoff_2. cbn [andb app].
  destruct (doSingleRequest w r 0); [|done].
  destruct (ctx_done w 1); [done|].
  destruct (doSingleRequest w r 1); [|done].
  destruct (ctx_done w 2); [done|].
  destruct (doSingleRequest w r 2); done.
Qed.

(** C2, as the specification states it, fails: an error envelope that
    arrives with status 200 is surfaced after the first attempt. *)
Lemma bad_query_200_surfaced_at_once :
  ¬ surfaced_after_three_attempts (bad_query_world 200) "up".
Proof.
  intros H. specialize (H "bad query" eq_refl). vm_compute in H. discriminate H.
Qed.

(** C2 (amended): [doRequest] makes at most three attempts, the second
    after 1 s and the third after 2 s, going on only after a transport or
    non-2xx failure; a context cancelled during a backoff wait ends the
    loop with the context's error.  An error envelope that comes with a
    2xx status is not retried: it is surfaced after that one attempt.
    When every attempt gets a non-2xx status, the failure is surfaced
    after the three attempts and carries the status and the body. *)
Theorem retry_policy (w : world) (metricName : string) :
  let q := cardinality_request metricName in
  (∀ r : request,
   doRequest w r =
     match doSingleRequest w r 0 with
     | inr body => (inr body, [Attempt 0])
     | inl _ =>
         if ctx_done w 1
         then (inl ErrContext, [Attempt 0; Interrupted (1 * Second)])
         else
           match doSingleRequest w r 1 with
           | inr body => (inr body, [Attempt 0; Slept (1 * Second); Attempt 1])
           | inl _ =>
               if ctx_done w 2
               then (inl ErrContext,
                     [Attempt 0; Slept (1 * Second); Attempt 1;
                      Interrupted (2 * Second)])
               else
                 match doSingleRequest w r 2 with
                 | inr body =>
                     (inr body,
                      [Attempt 0; Slept (1 * Second); Attempt 1;
                       Slept (2 * Second); Attempt 2])
                 | inl e2 =>
                     (inl (ErrAfterAttempts 3 (Some e2)),
                      [Attempt 0; Slept (1 * Second); Attempt 1;
                       Slept (2 * Second); Attempt 2])
                 end
           end
     end)
  ∧ (∀ code body env,
       round_trip w q 0 = Responds code body → 200 <= code < 300 →
       unmarshal_apiResponse body = Some env → Status env ≠ "success" →
       GetMetricCardinality w metricName =
         (inl (ErrPrometheus (Error env)), [Attempt 0]))
  ∧ (∀ code body,
       (∀ k, round_trip w q k = Responds code body) → ¬ (200 <= code < 300) →
       (∀ k, ctx_done w k = false) →
       GetMetricCardinality w metricName =
         (inl (ErrGetCardinality metricName
                 (ErrAfterAttempts 3 (Some (ErrUnexpectedStatus code body)))),
          [Attempt 0; Slept (1 * Second); Attempt 1; Slept (2 * Second);
           Attempt 2])).
Proof.
  intros q. split; [intros r; apply doRequest_cases|]. split.
  - intros code body env Hrt Hcode Henv Hst.
    unfold GetMetricCardinality. fold q. rewrite doRequest_cases.
    unfold doSingleRequest at 1. rewrite Hrt.
    replace ((code <? 200) || (300 <=? code)) with false by lia.
    rewrite Henv.
    destruct (String.eqb (Status env) "success") eqn:E; [|done].
    apply String.eqb_eq in E. done.
  - intros code body Hrt Hcode Hctx.
    unfold GetMetricCardinality. fold q. rewrite doRequest_cases.
    unfold doSingleRequest. rewrite !Hrt, !Hctx.
    replace ((code <? 200) || (300 <=? code)) with true by lia.
    done.
Qed.

(** The amended C2 at two backends: the error envelope with status 200,
    and the same envelope with status 400. *)
Lemma retry_policy_witness :
  GetMetricCardinality (bad_query_world 200) "up"
    = (inl (ErrPrometheus "bad query"), [Attempt 0])
  ∧ GetMetricCardinality (bad_query_world 400) "up"
    = (inl (ErrGetCardinality "up"
              (ErrAfterAttempts 3 (Some (ErrUnexpectedStatus 400 bad_query_body)))),
       [Attempt 0; Slept (1 * Second); Attempt 1; Slept (2 * Second); Attempt 2]).
Proof.
  split.
  - apply (proj1 (proj2 (retry_policy (bad_query_world 200) "up"))
             200 bad_query_body
             {| Status := "error"; Data := None; Error := "bad query" |});
      [reflexivity | lia | reflexivity | discriminate].
  - apply (proj2 (proj2 (retry_policy (bad_query_world 400) "up"))
             400 bad_query_body); [reflexivity | lia | reflexivity].
Defined.

Lemma parse_count_number lit n :
  ParseInt lit = Some n → parse_count (JNumber lit) = inr n.
Proof. intros H. unfold parse_count. simpl. by rewrite H. Qed.

Lemma parse_count_string s :
  parse_count (JString s) = inr (default 0 (Sscanf_d s)).
Proof. reflexivity. Qed.

(** [GetMetricCardinality] on a response that carries a scalar. *)
Lemma GetMetricCardinality_scalar w metricName v :
  answers_scalar w metricName v →
  (GetMetricCardinality w metricName).1 = parse_count v.
Proof.
  intros (body & env & qr & first & rest & v0 & vs & Hreq & Henv & Hst & Hqr & Hres & Hval).
  unfold GetMetricCardinality.
  destruct (doRequest w (cardinality_request metricName)) as [r tr].
  cbn [fst] in Hreq. subst r. cbn [fst].
  rewrite Henv, Hst. change (String.eqb "success" "success") with true.
  cbn [negb]. by rewrite Hqr, Hres, Hval.
Qed.

(** C8: whenever the cardinality query succeeds with a scalar in its
    answer, [GetMetricCardinality] returns what the defensive parse of
    that scalar gives.  The scalar is first decoded as a JSON number: an
    integer literal is the count, and [null] leaves the count 0.  When
    that fails it is decoded as a string, which is scanned for a leading
    integer: the digits in front are the count whatever follows them, and
    a string without a leading integer gives 0.  A scalar that is neither
    (a number that is no integer among them) is the error [failed to
    parse count].  In scenario S2, where [count(up)] answers
    [value = ["17.2", "42"]], the cardinality is 42. *)
Theorem GetMetricCardinality_parses_defensively (w : world) (metricName : string)
    (v : json) :
  answers_scalar w metricName v →
  (GetMetricCardinality w metricName).1 = parse_count v
  ∧ (∀ lit n, v = JNumber lit → ParseInt lit = Some n →
       (GetMetricCardinality w metricName).1 = inr n)
  ∧ (v = JNull → (GetMetricCardinality w metricName).1 = inr 0)
  ∧ (∀ s, v = JString s →
       (GetMetricCardinality w metricName).1 = inr (default 0 (Sscanf_d s)))
  ∧ (∀ ds rest n, v = JString (String.app ds rest) →
       ds ≠ EmptyString → digits_value 0 ds = Some n → in_int64 n = true →
       stops_number rest →
       (GetMetricCardinality w metricName).1 = inr n)
  ∧ (∀ s, v = JString s → Sscanf_d s = None →
       (GetMetricCardinality w metricName).1 = inr 0)
  ∧ (unmarshal_int 0 v = None → unmarshal_string EmptyString v = None →
       (GetMetricCardinality w metricName).1 = inl ErrParseCount)
  ∧ (∀ lit, v = JNumber lit → ParseInt lit = None →
       (GetMetricCardinality w metricName).1 = inl ErrParseCount)
  ∧ GetMetricCardinality s2_world "up" = (inr 42, [Attempt 0]).
Proof.
  intros Hscalar. rewrite (GetMetricCardinality_scalar w metricName v Hscalar).
  split; [done|].
  split; [intros lit n -> Hn; by apply parse_count_number|].
  split; [by intros ->|].
  split; [intros s ->; apply parse_count_string|].
  split.
  { intros ds rest n -> Hne Hv Hr Hrest. rewrite parse_count_string.
    by rewrite (Sscanf_d_leading_integer ds rest n Hne Hv Hr Hrest). }
  split; [intros s -> Hs; by rewrite parse_count_string, Hs|].
  split; [intros Hi Hs; unfold parse_count; by rewrite Hi, Hs|].
  split; [|reflexivity].
  intros lit -> Hlit. unfold parse_count. cbn [unmarshal_int unmarshal_string].
  by rewrite Hlit.
Qed.

Lemma scalar_world_answers v : answers_scalar (scalar_world v) "up" v.
Proof.
  exists (scalar_body v),
    {| Status := "success";
       Data := Some (JObject
                       [("resultType", JString "vector");
                        ("result",
                         JArray
                           [JObject
                              [("metric", JObject []);
                               ("value", JArray [JString "17.2"; v])]])]);
       Error := "" |},
    {| ResultType := "vector";
       Result := [ {| Metric := []; Value := [JString "17.2"; v] |} ] |},
    {| Metric := []; Value := [JString "17.2"; v] |}, [], (JString "17.2"), [].
  repeat split; reflexivity.
Qed.

(** C8 at concrete scalars behind ["17.2"]: the number 42, the strings
    "42", "42.7 series" and "42" after a no-break space, a string without
    digits, [null], the number 42.5 and the boolean true. *)
Lemma GetMetricCardinality_parses_defensively_witness :
  (GetMetricCardinality (scalar_world (JNumber "42")) "up").1 = inr 42
  ∧ (GetMetricCardinality (scalar_world (JString "42")) "up").1 = inr 42
  ∧ (GetMetricCardinality (scalar_world (JString "42.7 series")) "up").1 = inr 42
  ∧ (GetMetricCardinality (scalar_world (JString nbsp_42)) "up").1 = inr 42
  ∧ (GetMetricCardinality (scalar_world (JString "many")) "up").1 = inr 0
  ∧ (GetMetricCardinality (scalar_world JNull) "up").1 = inr 0
  ∧ (GetMetricCardinality (scalar_world (JNumber "42.5")) "up").1 = inl ErrParseCount
  ∧ (GetMetricCardinality (scalar_world (JBool true)) "up").1 = inl ErrParseCount.
Proof.
  split; [|split; [|split; [|split; [|split; [|split; [|split]]]]]].
  - destruct (GetMetricCardinality_parses_defensively
                (scalar_world (JNumber "42")) "up" (JNumber "42")
                (scalar_world_answers _)) as (_ & H & _).
    apply (H "42" 42); reflexivity.
  - destruct (GetMetricCardinality_parses_defensively
                (scalar_world (JString "42")) "up" (JString "42")
                (scalar_world_answers _)) as (_ & _ & _ & _ & H & _).
    apply (H "42" "" 42); [reflexivity|discriminate|reflexivity..].
  - destruct (GetMetricCardinality_parses_defensively
                (scalar_world (JString "42.7 series")) "up" (JString "42.7 series")
                (scalar_world_answers _)) as (_ & _ & _ & _ & H & _).
    apply (H "42" ".7 series" 42); [reflexivity|discriminate|reflexivity..].
  - destruct (GetMetricCardinality_parses_defensively
                (scalar_world (JString nbsp_42)) "up" (JString nbsp_42)
                (scalar_world_answers _)) as (_ & _ & _ & H & _).
    apply (H nbsp_42); reflexivity.
  - destruct (GetMetricCardinality_parses_defensively
                (scalar_world (JString "many")) "up" (JString "many")
                (scalar_world_answers _)) as (_ & _ & _ & _ & _ & H & _).
    apply (H "many"); reflexivity.
  - destruct (GetMetricCardinality_parses_defensively
                (scalar_world JNull) "up" JNull
                (scalar_world_answers _)) as (_ & _ & H & _).
    apply H; reflexivity.
  - destruct (GetMetricCardinality_parses_defensively
                (scalar_world (JNumber "42.5")) "up" (JNumber "42.5")
                (scalar_world_answers _)) as (_ & _ & _ & _ & _ & _ & _ & H & _).
    apply (H "42.5"); reflexivity.
  - destruct (GetMetricCardinality_parses_defensively
                (scalar_world (JBool true)) "up" (JBool true)
                (scalar_world_answers _)) as (_ & _ & _ & _ & _ & _ & H & _).
    apply H; reflexivity.
Defined.

(** C10: whatever the backend and the context do, [GetConfig] returns no
    error and a configuration whose scrape interval is 15 seconds; the
    body of a successful response is not looked at beyond its envelope. *)
Theorem GetConfig_always_default (w : world) :
  (GetConfig w).1 = ({| ScrapeInterval := 15 * Second |}, None)
  ∧ ScrapeInterval (GetConfig w).1.1 = 15000000000
  ∧ ScrapeInterval (GetConfig config_30s_world).1.1 = 15 * Second.
Proof.
  assert ((GetConfig w).1 = ({| ScrapeInterval := 15 * Second |}, None)) as H.
  { unfold GetConfig. destruct (doRequest w config_request) as [[e|resp] tr];
      [done|]. simpl. by destruct (unmarshal_apiResponse resp). }
  split; [exact H|]. split; [by rewrite H|reflexivity].
Qed.

End LegacyClientFacts.

(** ** The API-based client *)

Module ClientFacts.
Import Go Client.
Local Open Scope Z_scope.

Lemma foldl_nested {A B C} (f : A → C → A) (g : B → list C) (a : A) (l : list B) :
  foldl (λ acc x, foldl f acc (g x)) a l = foldl f a (l ≫= g).
Proof.
  revert a. induction l as [|x l IH]; intros a; [done|].
  simpl. by rewrite foldl_app, IH.
Qed.

Lemma values_of_cons_eq l v entries :
  values_of l ((l, v) :: entries) = v :: values_of l entries.
Proof. unfold values_of. by rewrite filter_cons_True. Qed.

Lemma values_of_cons_ne k l v entries :
  k ≠ l → values_of l ((k, v) :: entries) = values_of l entries.
Proof. intros H. unfold values_of. by rewrite filter_cons_False. Qed.

Lemma elem_of_values_of l v entries :
  v ∈ values_of l entries ↔ (l, v) ∈ entries.
Proof.
  unfold values_of. rewrite list_elem_of_fmap. split.
  - intros [[k v'] [-> [Hk Hin]%list_elem_of_filter]]. simpl in *. by subst.
  - intros Hin. exists (l, v). split; [done|]. by apply list_elem_of_filter.
Qed.

Lemma record_value_excluded serviceLabel acc k v :
  excluded serviceLabel k = true → record_value serviceLabel acc (k, v) = acc.
Proof. unfold excluded, record_value. by intros ->. Qed.

Lemma record_value_kept serviceLabel acc k v :
  excluded serviceLabel k = false →
  record_value serviceLabel acc (k, v) = <[k := {[v]} ∪ default ∅ (acc !! k)]> acc.
Proof. unfold excluded, record_value. by intros ->. Qed.

Lemma record_values_lookup serviceLabel entries acc l :
  foldl (record_value serviceLabel) acc entries !! l =
    if excluded serviceLabel l then acc !! l
    else if decide (values_of l entries = []) then acc !! l
    else Some (list_to_set (values_of l entries) ∪ default ∅ (acc !! l)).
Proof.
  revert acc. induction entries as [|[k v] entries IH]; intros acc.
  - simpl. by destruct (excluded serviceLabel l).
  - cbn [foldl]. rewrite IH.
    destruct (excluded serviceLabel l) eqn:El.
    + destruct (excluded serviceLabel k) eqn:Ek.
      * by rewrite record_value_excluded.
      * rewrite record_value_kept by done.
        rewrite lookup_insert_ne; [done|]. intros ->. congruence.
    + destruct (decide (k = l)) as [->|Hne].
      * rewrite record_value_kept by done. rewrite values_of_cons_eq.
        rewrite lookup_insert_eq.
        destruct (decide (v :: values_of l entries = [])) as [|_]; [done|].
        case_decide as Hv.
        -- rewrite Hv. f_equal. destruct (acc !! l); simpl; set_solver.
        -- f_equal. destruct (acc !! l); simpl; set_solver.
      * rewrite values_of_cons_ne by done.
        destruct (excluded serviceLabel k) eqn:Ek.
        -- by rewrite record_value_excluded.
        -- rewrite record_value_kept by done. by rewrite lookup_insert_ne.
Qed.

Section WithIterationOrder.
Variable range : forall A : Type, list A -> list A.
Hypothesis range_perm : forall (A : Type) (l : list A), range A l ≡ₚ l.

Lemma elem_of_range {A} (x : A) l : x ∈ range A l ↔ x ∈ l.
Proof. by rewrite range_perm. Qed.

Lemma collect_label_values_lookup serviceLabel series l :
  collect_label_values range serviceLabel series !! l =
    if excluded serviceLabel l then None
    else if decide (observed series l = ∅) then None
    else Some (observed series l).
Proof.
  unfold collect_label_values.
  rewrite (foldl_nested (record_value serviceLabel)
             (λ s : LabelSet, range _ (map_to_list s))).
  rewrite record_values_lookup, lookup_empty. simpl.
  destruct (excluded serviceLabel l); [done|].
  set (entries := series ≫= _).
  assert (list_to_set (values_of l entries) = observed series l) as Hobs.
  { apply set_eq. intros v. unfold observed.
    rewrite !elem_of_list_to_set, elem_of_values_of, list_elem_of_omap.
    unfold entries. rewrite list_elem_of_bind. split.
    - intros (s & Hin & Hs). exists s. split; [done|].
      apply (proj1 (elem_of_range _ _)) in Hin.
      by apply elem_of_map_to_list in Hin.
    - intros (s & Hs & Hl). exists s. split; [|done].
      apply (proj2 (elem_of_range _ _)). by apply elem_of_map_to_list. }
  rewrite <- Hobs.
  destruct (decide (values_of l entries = [])) as [->|Hne].
  - by rewrite decide_True.
  - rewrite decide_False; [f_equal; set_solver|].
    destruct (values_of l entries) as [|v vs]; [done|]. set_solver.
Qed.

Lemma take_samples_spec limit values samples :
  take_samples limit values samples =
    samples ++ take (Z.to_nat (Z.max 1 (limit - Z.of_nat (length samples)))) values.
Proof.
  revert samples. induction values as [|v values IH]; intros samples.
  - by rewrite take_nil, app_nil_r.
  - cbn [take_samples]. rewrite length_app. cbn [length].
    destruct (limit <=? Z.of_nat (length samples + 1)) eqn:E.
    + apply Z.leb_le in E.
      replace (Z.to_nat (Z.max 1 (limit - Z.of_nat (length samples)))) with 1%nat by lia.
      done.
    + apply Z.leb_gt in E. rewrite IH, length_app. cbn [length].
      replace (Z.to_nat (Z.max 1 (limit - Z.of_nat (length samples))))
        with (S (Z.to_nat (Z.max 1 (limit - Z.of_nat (length samples + 1))))) by lia.
      cbn [take]. by rewrite <- app_assoc.
Qed.

Lemma SampleValues_build_label limit name (values : gset string) :
  LabelInfo.SampleValues (build_label range limit (name, values)) =
    sort_strings (take (Z.to_nat (Z.max 1 limit)) (range _ (elements values))).
Proof.
  unfold build_label. cbn [LabelInfo.SampleValues].
  rewrite take_samples_spec. cbn [length app].
  do 3 f_equal. lia.
Qed.

Lemma SampleValues_length limit name (values : gset string) :
  length (LabelInfo.SampleValues (build_label range limit (name, values))) =
    Nat.min (Z.to_nat (Z.max 1 limit)) (size values).
Proof.
  rewrite SampleValues_build_label. unfold sort_strings.
  rewrite (Permutation_length (merge_sort_Permutation _ _)).
  rewrite length_take. by rewrite (Permutation_length (range_perm _ _)).
Qed.

Lemma SampleValues_strictly_ascending limit name (values : gset string) :
  strictly_ascending (LabelInfo.SampleValues (build_label range limit (name, values))).
Proof.
  rewrite SampleValues_build_label. unfold sort_strings. split.
  - apply (Sorted_merge_sort String.le).
  - rewrite merge_sort_Permutation.
    eapply sublist_NoDup; [|apply sublist_take].
    rewrite range_perm. apply NoDup_elements.
Qed.

(** The labels returned are exactly those built from the labels that
    occur in the series, the two internal ones left out. *)
Lemma elem_of_GetLabelsForMetric Series serviceLabel serviceName metricName
    limit series labels li :
  Series (selector metricName serviceLabel serviceName) = inr series →
  GetLabelsForMetric range Series serviceLabel serviceName metricName limit
    = inr labels →
  li ∈ labels ↔
    ∃ name, excluded serviceLabel name = false ∧ observed series name ≠ ∅
            ∧ li = build_label range limit (name, observed series name).
Proof.
  intros HS. unfold GetLabelsForMetric. rewrite HS. intros [= <-].
  unfold sort_labels. rewrite merge_sort_Permutation.
  rewrite list_elem_of_fmap. split.
  - intros [[name values] [-> Hin]].
    apply (proj1 (elem_of_range _ _)) in Hin.
    apply elem_of_map_to_list in Hin.
    rewrite collect_label_values_lookup in Hin.
    destruct (excluded serviceLabel name) eqn:Ex; [done|].
    case_decide; [done|]. injection Hin as <-. by exists name.
  - intros (name & Ex & Hne & ->). exists (name, observed series name).
    split; [done|]. apply (proj2 (elem_of_range _ _)).
    apply elem_of_map_to_list. rewrite collect_label_values_lookup, Ex.
    by rewrite decide_False.
Qed.


(** C5: whatever the order in which Go walks its maps, the sample values
    of every label returned are sorted ascending and free of duplicates;
    their number is at most [sampleLimit] when [sampleLimit] is at least
    1.  With a limit of 0 or less the loop still appends one value
    before it tests the limit, so every label carries exactly one
    sample, which is more than the limit. *)
Theorem sample_values_bounded Series serviceLabel serviceName metricName
    sampleLimit labels :
  GetLabelsForMetric range Series serviceLabel serviceName metricName sampleLimit
    = inr labels →
  ∀ li, li ∈ labels →
    strictly_ascending (LabelInfo.SampleValues li)
    ∧ (1 <= sampleLimit →
       Z.of_nat (length (LabelInfo.SampleValues li)) <= sampleLimit)
    ∧ (sampleLimit <= 0 → length (LabelInfo.SampleValues li) = 1%nat).
Proof.
  intros Hget li Hli.
  destruct (Series (selector metricName serviceLabel serviceName))
    as [e|series] eqn:HS.
  { unfold GetLabelsForMetric in Hget. by rewrite HS in Hget. }
  destruct (proj1 (elem_of_GetLabelsForMetric _ _ _ _ _ _ _ li HS Hget) Hli)
    as (name & _ & Hne & Heq).
  rewrite Heq. split; [apply SampleValues_strictly_ascending|].
  rewrite SampleValues_length.
  assert (size (observed series name) ≠ 0%nat) as Hsize.
  { apply size_non_empty_iff. by intros ?%leibniz_equiv. }
  split; lia.
Qed.

(** C6: every label returned is a label of the series other than
    [__name__] and the service label, and its [UniqueValues] is the number
    of distinct values the series give that label; every such label is
    returned.  The count is the full one also when it exceeds
    [sampleLimit], in which case only [sampleLimit] samples are kept. *)
Theorem unique_values_is_full_count Series serviceLabel serviceName metricName
    sampleLimit series :
  Series (selector metricName serviceLabel serviceName) = inr series →
  ∃ labels,
    GetLabelsForMetric range Series serviceLabel serviceName metricName sampleLimit
      = inr labels
    ∧ (∀ li, li ∈ labels →
         LabelInfo.Name li ≠ "__name__"
         ∧ LabelInfo.Name li ≠ serviceLabel
         ∧ LabelInfo.UniqueValues li
           = Z.of_nat (size (observed series (LabelInfo.Name li)))
         ∧ (1 <= sampleLimit < LabelInfo.UniqueValues li →
            Z.of_nat (length (LabelInfo.SampleValues li)) = sampleLimit))
    ∧ (∀ l, l ≠ "__name__" → l ≠ serviceLabel → observed series l ≠ ∅ →
            ∃ li, li ∈ labels ∧ LabelInfo.Name li = l).
Proof.
  intros HS.
  destruct (GetLabelsForMetric range Series serviceLabel serviceName metricName
              sampleLimit) as [e|labels] eqn:Hget.
  { unfold GetLabelsForMetric in Hget. by rewrite HS in Hget. }
  exists labels. split; [done|]. split.
  - intros li Hli.
    destruct (proj1 (elem_of_GetLabelsForMetric _ _ _ _ _ _ _ li HS Hget) Hli)
      as (name & Hex & Hne & Heq).
    rewrite Heq, SampleValues_length. cbn [build_label LabelInfo.Name LabelInfo.UniqueValues].
    unfold excluded in Hex. apply orb_false_iff in Hex as [H1 H2].
    apply bool_decide_eq_false in H1, H2.
    repeat split; [done..|lia].
  - intros l H1 H2 Hne. exists (build_label range sampleLimit (l, observed series l)).
    split; [|done].
    apply (elem_of_GetLabelsForMetric _ _ _ _ _ _ _ _ HS Hget).
    exists l. split; [|done]. unfold excluded.
    by rewrite !bool_decide_eq_false_2.
Qed.

End WithIterationOrder.

Lemma in_order_perm (A : Type) (l : list A) : in_order A l ≡ₚ l.
Proof. done. Qed.

Lemma backwards_perm (A : Type) (l : list A) : backwards A l ≡ₚ l.
Proof. apply reverse_Permutation. Qed.

(** C5 at the failing input: with a sample limit of 0 both labels of the
    checkout series come back with one sample each. *)
Lemma sample_values_bounded_witness :
  GetLabelsForMetric backwards checkout_api "service" "checkout"
    "http_requests_total" 0 = inr zero_limit_labels
  ∧ Forall (λ li, strictly_ascending (LabelInfo.SampleValues li)
                  ∧ length (LabelInfo.SampleValues li) = 1%nat
                  ∧ ¬ (Z.of_nat (length (LabelInfo.SampleValues li)) <= 0))
           zero_limit_labels.
Proof.
  split; [reflexivity|]. apply Forall_forall. intros li Hli.
  destruct (sample_values_bounded backwards backwards_perm checkout_api
              "service" "checkout" "http_requests_total" 0 zero_limit_labels
              eq_refl li Hli) as (Hasc & _ & Hone).
  split; [exact Hasc|]. specialize (Hone ltac:(lia)).
  split; [exact Hone|]. rewrite Hone. lia.
Defined.

(** C6 on the checkout series with a sample limit of 2: the label [pod]
    has three values, all counted, and two samples. *)
Lemma unique_values_is_full_count_witness :
  ∃ labels,
    GetLabelsForMetric in_order checkout_api "service" "checkout"
      "http_requests_total" 2 = inr labels
    ∧ (∀ li, li ∈ labels →
         LabelInfo.Name li ≠ "__name__"
         ∧ LabelInfo.Name li ≠ "service"
         ∧ LabelInfo.UniqueValues li
           = Z.of_nat (size (observed checkout_series (LabelInfo.Name li)))
         ∧ (1 <= 2 < LabelInfo.UniqueValues li →
            Z.of_nat (length (LabelInfo.SampleValues li)) = 2))
    ∧ (∀ l, l ≠ "__name__" → l ≠ "service" → observed checkout_series l ≠ ∅ →
            ∃ li, li ∈ labels ∧ LabelInfo.Name li = l).
Proof.
  apply (unique_values_is_full_count in_order in_order_perm checkout_api
           "service" "checkout" "http_requests_total" 2 checkout_series).
  reflexivity.
Defined.

End ClientFacts.

(** ** The collector *)

Module CollectorFacts.
Import Go Client models Collector.
Local Open Scope Z_scope.

Lemma same_above_refl st : same_above st st.
Proof. by repeat split. Qed.

Lemma same_above_trans st1 st2 st3 :
  same_above st1 st2 → same_above st2 st3 → same_above st1 st3.
Proof.
  intros (H1 & H2 & H3) (H4 & H5 & H6). repeat split; congruence.
Qed.

Lemma same_above_debug st msg subject :
  same_above st (slog Debug msg subject st).2.
Proof.
  repeat split; simpl. rewrite List.filter_app. simpl. by rewrite app_nil_r.
Qed.

Lemma store_labels_above w i j id k labelInfos st :
  same_above st (store_labels w i j id k labelInfos st).2.
Proof.
  revert k st. induction labelInfos as [|label rest IH]; intros k st.
  - apply same_above_refl.
  - cbn [store_labels]. unfold bind, repo_create.
    destruct (labels_Create w i j k) as [e|].
    + eapply same_above_trans; [|apply IH]. apply same_above_debug.
    + simpl. eapply same_above_trans; [|apply IH]. by repeat split.
Qed.

Lemma collectMetric_above w i j ssid name metric st :
  same_above st (collectMetric w i j ssid name metric st).2.
Proof.
  unfold collectMetric, bind.
  destruct (GetLabelsForMetric w i j) as [e|ls]; simpl.
  - unfold repo_create. destruct (metrics_Create w i j); simpl.
    + apply same_above_debug.
    + apply same_above_debug.
  - unfold repo_create. destruct (metrics_Create w i j); simpl.
    + apply same_above_refl.
    + pose proof (store_labels_above w i j
        (storage.fresh_id (MetricSnapshot.ID <$> storage.metrics (db st))) 0 ls
        {| db := (storage.insert_metric
                    {| MetricSnapshot.ID := 0; MetricSnapshot.ServiceSnapshotID := ssid;
                       MetricSnapshot.MetricName := MetricInfo.Name metric;
                       MetricSnapshot.SeriesCount := MetricInfo.SeriesCount metric;
                       MetricSnapshot.LabelCount := len ls |} (db st)).2;
           out := out st |}) as H.
      destruct (store_labels _ _ _ _ _ _ _) as [u st1]. simpl in *.
      eapply same_above_trans; [|exact H]. by repeat split.
Qed.

Lemma collect_metrics_spec w i ssid name j metricInfos st :
  (collect_metrics w i ssid name j metricInfos st).1
    = metric_stop w i j (length metricInfos)
  ∧ same_above st (collect_metrics w i ssid name j metricInfos st).2.
Proof.
  revert j st. induction metricInfos as [|metric rest IH]; intros j st.
  - split; [done|apply same_above_refl].
  - cbn [collect_metrics length metric_stop].
    destruct (ctx_Err_metric w i j) as [e|].
    { split; [done|apply same_above_refl]. }
    unfold bind.
    pose proof (collectMetric_above w i j ssid name metric st) as H1.
    destruct (collectMetric w i j ssid name metric st) as [r st1].
    simpl in H1.
    destruct r as [e|].
    + pose proof (same_above_debug st1 "failed to collect metric"
                    (MetricInfo.Name metric)) as H2.
      destruct (slog Debug _ _ st1) as [u st2]. simpl in H2.
      destruct (IH (S j) st2) as [Hr Hs]. split; [done|].
      eauto using same_above_trans.
    + unfold ret. destruct (IH (S j) st1) as [Hr Hs]. split; [done|].
      eauto using same_above_trans.
Qed.

Lemma collectService_spec w i snapshotID svc st :
  let r := (collectService w i snapshotID svc st).1 in
  let st' := (collectService w i snapshotID svc st).2 in
  storage.snapshots (db st') = storage.snapshots (db st)
  ∧ List.filter visible (out st') = List.filter visible (out st)
  ∧ (if row_created w i
     then ∃ row, is_row_of snapshotID svc row
                 ∧ storage.services (db st') = storage.services (db st) ++ [row]
     else storage.services (db st') = storage.services (db st))
  ∧ (if collected w i
     then ∃ row, r = inr row
                 ∧ ServiceSnapshot.TotalSeries row = ServiceInfo.SeriesCount svc
     else ∃ e, r = inl e).
Proof.
  unfold collectService, row_created, collected.
  destruct (GetMetricsForService w i) as [e|metricInfos]; simpl.
  { repeat split; eauto. }
  unfold bind, repo_create.
  destruct (services_Create w i) as [e|]; simpl.
  { repeat split; eauto. }
  match goal with |- context [collect_metrics w i ?id ?n 0 metricInfos ?s] =>
    destruct (collect_metrics_spec w i id n 0 metricInfos s) as [Hr (H1 & H2 & H3)];
    destruct (collect_metrics w i id n 0 metricInfos s) as [stop st1]
  end.
  simpl in *. subst stop.
  split; [by destruct (metric_stop _ _ _ _)|].
  split; [by destruct (metric_stop _ _ _ _)|].
  split.
  - eexists. split; [|destruct (metric_stop _ _ _ _); simpl; rewrite H2; reflexivity].
    by repeat split.
  - destruct (metric_stop _ _ _ _); simpl; eauto.
Qed.

(** One turn of the service loop, with the state written out. *)
Lemma collect_services_cons w snapshotID total i svc rest acc st :
  collect_services w snapshotID total i (svc :: rest) acc st =
    match ctx_Err_service w i with
    | Some e => (inl e, st)
    | None =>
        let st0 :=
          {| db := db st;
             out := (out st
                     ++ [Progress "scanning" (Z.of_nat i + 1) total
                                  (ServiceInfo.Name svc)])
                    ++ [Log Info "scanning service" (ServiceInfo.Name svc)] |} in
        match collectService w i snapshotID svc st0 with
        | (inl _, st1) =>
            collect_services w snapshotID total (S i) rest acc
              {| db := db st1;
                 out := out st1
                        ++ [Log Error "failed to collect service"
                                (ServiceInfo.Name svc)] |}
        | (inr serviceSnapshot, st1) =>
            collect_services w snapshotID total (S i) rest
              (wrap64 (acc + ServiceSnapshot.TotalSeries serviceSnapshot)) st1
        end
    end.
Proof.
  cbn [collect_services]. destruct (ctx_Err_service w i); [done|].
  unfold bind, progress, slog, emit. cbn [db out].
  by destruct (collectService _ _ _ _ _) as [[e|row] st1].
Qed.

Lemma collect_services_spec w snapshotID total i svcs acc st :
  storage.snapshots (db (collect_services w snapshotID total i svcs acc st).2)
    = storage.snapshots (db st)
  ∧ List.filter visible (out (collect_services w snapshotID total i svcs acc st).2)
    = List.filter visible (out st) ++ loop_output w total i svcs
  ∧ (∃ rows,
       storage.services (db (collect_services w snapshotID total i svcs acc st).2)
         = storage.services (db st) ++ rows
       ∧ Forall2 (is_row_of snapshotID)
                 (select (row_created w) i (reached w i svcs)) rows)
  ∧ (collect_services w snapshotID total i svcs acc st).1
    = match service_stop w i svcs with
      | Some e => inl e
      | None =>
          inr (sum64 acc (ServiceInfo.SeriesCount <$> select (collected w) i svcs))
      end.
Proof.
  revert i acc st. induction svcs as [|svc rest IH]; intros i acc st.
  - simpl. rewrite app_nil_r. split; [done|]. split; [done|].
    split; [|done]. exists []. by rewrite app_nil_r.
  - rewrite collect_services_cons.
    cbn [loop_output reached service_stop select].
    destruct (ctx_Err_service w i) as [e|].
    { simpl. rewrite app_nil_r. split; [done|]. split; [done|].
      split; [|done]. exists []. by rewrite app_nil_r. }
    cbv zeta. cbn [select].
    match goal with |- context [collectService w i snapshotID svc ?s] =>
      pose proof (collectService_spec w i snapshotID svc s) as (H1 & H2 & H3 & H4);
      destruct (collectService w i snapshotID svc s) as [r st1]
    end.
    cbn [fst snd db out] in H1, H2, H3, H4.
    rewrite !List.filter_app in H2. cbn [List.filter visible] in H2.
    destruct (collected w i) eqn:Hc.
    + destruct H4 as (row & -> & Hrow).
      destruct (IH (S i) (wrap64 (acc + ServiceSnapshot.TotalSeries row)) st1)
        as (I1 & I2 & (rows & I3 & I4) & I5).
      split; [congruence|]. split.
      { rewrite I2, H2. by rewrite <- !app_assoc. }
      split.
      { destruct (row_created w i).
        - destruct H3 as (row' & Hr' & H3). exists (row' :: rows).
          split; [rewrite I3, H3; by rewrite <- app_assoc|]. by constructor.
        - exists rows. split; [congruence|done]. }
      rewrite I5. destruct (service_stop w (S i) rest); [done|].
      cbn [fmap list_fmap sum64 foldl]. by rewrite Hrow.
    + destruct H4 as (e & ->).
      match goal with |- context [collect_services w snapshotID total (S i) rest acc ?s] =>
        destruct (IH (S i) acc s) as (I1 & I2 & (rows & I3 & I4) & I5)
      end.
      cbn [db out] in I1, I2, I3.
      split; [congruence|]. split.
      { rewrite I2, List.filter_app, H2. cbn [List.filter visible].
        by rewrite <- !app_assoc. }
      split; [|done].
      destruct (row_created w i).
      * destruct H3 as (row' & Hr' & H3). exists (row' :: rows).
        split; [rewrite I3, H3; by rewrite <- app_assoc|]. by constructor.
      * exists rows. split; [congruence|done].
Qed.

Lemma no_stop_reached w i svcs :
  service_stop w i svcs = None → reached w i svcs = svcs.
Proof.
  revert i. induction svcs as [|svc rest IH]; intros i; [done|].
  simpl. destruct (ctx_Err_service w i); [done|]. intros H. by rewrite IH.
Qed.

Lemma no_stop_output w total i svcs :
  service_stop w i svcs = None →
  loop_output w total i svcs = scan_output w total i svcs.
Proof.
  revert i. induction svcs as [|svc rest IH]; intros i; [done|].
  simpl. destruct (ctx_Err_service w i); [done|]. intros H. by rewrite IH.
Qed.

(** The run of [Collect], with the state written out. *)
Lemma Collect_run w st :
  let st0 :=
    {| db := db st;
       out := (out st ++ [Log Info "starting service discovery" ""])
              ++ [Progress "discovering" 0 0 "Discovering services..."] |} in
  let id := next_snapshot_id st in
  let st1 :=
    {| db := (storage.insert_snapshot (initial_snapshot w 0) (db st)).2;
       out := out st0 |} in
  Collect w st =
    match snapshots_Create w with
    | Some e => (inl e, st0)
    | None =>
        match DiscoverServices w with
        | inl e => (inl e, st1)
        | inr svcs =>
            let st2 :=
              {| db := db st1;
                 out := out st1 ++ [Log Info "discovered services" ""] |} in
            match collect_services w id (len svcs) 0 svcs 0 st2 with
            | (inl e, st3) => (inl e, st3)
            | (inr totalSeries, st3) =>
                let snapshot' :=
                  {| Snapshot.ID := id;
                     Snapshot.CollectedAt := truncate_to_second (start w);
                     Snapshot.TotalServices := len svcs;
                     Snapshot.TotalSeries := totalSeries;
                     Snapshot.ScanDurationMs := Milliseconds (since_update w) |} in
                match snapshots_Update w with
                | Some e => (inl e, st3)
                | None =>
                    (inr {| SnapshotID := id; TotalServices := len svcs;
                            TotalSeries := totalSeries;
                            Duration := since_end w |},
                     {| db := storage.update_snapshot snapshot' (db st3);
                        out := out st3 ++ [Log Info "collection complete" ""] |})
                end
            end
        end
    end.
Proof.
  unfold Collect, bind, slog, progress, emit, repo_create, repo_update, ret.
  cbn [db out]. destruct (snapshots_Create w); [done|].
  cbn [storage.insert_snapshot fst snd].
  destruct (DiscoverServices w) as [e|svcs]; [done|].
  cbn [db out]. unfold next_snapshot_id.
  destruct (collect_services _ _ _ _ _ _ _) as [[e|total] st3]; [done|].
  by destruct (snapshots_Update w).
Qed.

Lemma fresh_id_gt ids x : x ∈ ids → x < storage.fresh_id ids.
Proof.
  unfold storage.fresh_id. induction ids as [|y ids IH]; [by intros ?%elem_of_nil|].
  intros [->|Hin]%elem_of_cons; simpl; [lia|]. specialize (IH Hin). lia.
Qed.

Lemma find_updated_snapshot id s rows new :
  (∀ r, r ∈ rows → Snapshot.ID r < id) → Snapshot.ID new = id → Snapshot.ID s = id →
  List.find (λ r, Snapshot.ID r =? id)
    ((λ r, if Snapshot.ID r =? Snapshot.ID s then s else r) <$> (rows ++ [new]))
  = Some s.
Proof.
  intros Hlt Hnew Hs. rewrite Hs. induction rows as [|r rows IH].
  - simpl. rewrite Hnew, Z.eqb_refl, Hs. by rewrite Z.eqb_refl.
  - cbn [app fmap list_fmap List.find].
    assert (Snapshot.ID r < id) as Hr by (apply Hlt; left).
    replace (Snapshot.ID r =? id) with false by lia.
    replace (Snapshot.ID r =? id) with false by lia.
    apply IH. intros r' Hin. apply Hlt. by right.
Qed.

Lemma services_of_new_rows id (old rows : list ServiceSnapshot.t) :
  (∀ r, r ∈ old → ServiceSnapshot.SnapshotID r ≠ id) →
  Forall (λ r, ServiceSnapshot.SnapshotID r = id) rows →
  List.filter (λ r, ServiceSnapshot.SnapshotID r =? id) (old ++ rows) = rows.
Proof.
  intros Hold Hrows. rewrite List.filter_app.
  assert (List.filter (λ r, ServiceSnapshot.SnapshotID r =? id) old = []) as ->.
  { induction old as [|r old IH]; [done|]. simpl.
    assert (ServiceSnapshot.SnapshotID r ≠ id) by (apply Hold; left).
    replace (ServiceSnapshot.SnapshotID r =? id) with false by lia.
    apply IH. intros r' Hin. apply Hold. by right. }
  simpl. induction Hrows as [|r rows Hr _ IH]; [done|].
  simpl. rewrite Hr, Z.eqb_refl. by rewrite IH.
Qed.

Lemma rows_of_services snapshotID svcs rows :
  Forall2 (is_row_of snapshotID) svcs rows →
  Forall (λ r, ServiceSnapshot.SnapshotID r = snapshotID) rows
  ∧ ServiceSnapshot.TotalSeries <$> rows = ServiceInfo.SeriesCount <$> svcs
  ∧ length rows = length svcs.
Proof.
  induction 1 as [|svc row svcs rows (H1 & H2 & H3) _ (I1 & I2 & I3)]; [done|].
  split; [by constructor|]. cbn [fmap list_fmap length].
  split; [by f_equal|by rewrite I3].
Qed.

Lemma select_length p i svcs : (length (select p i svcs) <= length svcs)%nat.
Proof.
  revert i. induction svcs as [|svc rest IH]; intros i; [done|].
  simpl. destruct (p i); simpl; specialize (IH (S i)); lia.
Qed.

Lemma select_all p i svcs :
  (∀ k, (i <= k < i + length svcs)%nat → p k = true) → select p i svcs = svcs.
Proof.
  revert i. induction svcs as [|svc rest IH]; intros i Hp; [done|].
  simpl in *. rewrite Hp by lia. f_equal. apply IH. intros k Hk. apply Hp. lia.
Qed.

Lemma select_ext p q i svcs :
  (∀ k, (i <= k < i + length svcs)%nat → p k = q k) →
  select p i svcs = select q i svcs.
Proof.
  revert i. induction svcs as [|svc rest IH]; intros i Hp; [done|].
  simpl in *. rewrite Hp by lia. rewrite (IH (S i)); [done|].
  intros k Hk. apply Hp. lia.
Qed.

Lemma collected_row_created w i : collected w i = true → row_created w i = true.
Proof.
  unfold collected, row_created.
  destruct (GetMetricsForService w i); [done|]. by destruct (services_Create w i).
Qed.

(** What a successful run of [Collect] has done. *)
Lemma Collect_success w st res st' :
  Collect w st = (inr res, st') →
  ∃ svcs rows,
    DiscoverServices w = inr svcs
    ∧ service_stop w 0 svcs = None
    ∧ SnapshotID res = next_snapshot_id st
    ∧ storage.snapshots (db st')
      = (λ r, if Snapshot.ID r =? next_snapshot_id st
              then final_snapshot w (next_snapshot_id st) svcs else r)
        <$> (storage.snapshots (db st)
             ++ [initial_snapshot w (next_snapshot_id st)])
    ∧ storage.services (db st') = storage.services (db st) ++ rows
    ∧ Forall2 (is_row_of (next_snapshot_id st)) (select (row_created w) 0 svcs) rows.
Proof.
  rewrite Collect_run. cbv zeta.
  destruct (snapshots_Create w); [done|].
  destruct (DiscoverServices w) as [e|svcs]; [done|].
  match goal with |- context [collect_services w ?id ?n 0 svcs 0 ?s] =>
    destruct (collect_services_spec w id n 0 svcs 0 s) as (H1 & _ & (rows & H3 & H4) & H5);
    destruct (collect_services w id n 0 svcs 0 s) as [looped st3]
  end.
  cbn [fst snd db out] in H1, H3, H5.
  destruct looped as [e|total]; [done|].
  destruct (snapshots_Update w); [done|]. intros [= <- <-].
  destruct (service_stop w 0 svcs) eqn:Hstop; [done|]. injection H5 as ->.
  rewrite (no_stop_reached _ _ _ Hstop) in H4.
  exists svcs, rows. cbn [db SnapshotID storage.update_snapshot storage.snapshots
                          storage.services Snapshot.ID].
  rewrite H1, H3. done.
Qed.

(** C1, as the specification states it, fails: when the metrics of the
    second of three services cannot be fetched the run still succeeds,
    the snapshot says 3 services and it has 2 service rows. *)
Lemma failed_service_is_counted :
  ¬ totals_match_children (scenario None (inr three_services) None [1%nat])
      fresh_state.
Proof.
  intros H. edestruct H as (snap & Hf & Hs & Hc); [vm_compute; reflexivity|].
  vm_compute in Hf. injection Hf as <-. vm_compute in Hc. discriminate Hc.
Qed.

(** C1 (amended): after a successful run of [Collect] on a store whose
    service rows all have a parent, the snapshot row of the run carries
    as [total_services] the number of discovered services, which is at
    least the number of its service rows and equals it when every service
    got its row; its [total_series] is the [int64] sum of the series of
    the services collected without error, which is the sum over all its
    service rows when no collection failed after the row was inserted. *)
Theorem Collect_totals (w : world) (st st' : state) (res : CollectResult) :
  storage.services_have_parent (db st) →
  Collect w st = (inr res, st') →
  ∃ svcs snap,
    let children := storage.services_of (SnapshotID res) (db st') in
    DiscoverServices w = inr svcs
    ∧ storage.find_snapshot (SnapshotID res) (db st') = Some snap
    ∧ Snapshot.TotalServices snap = len svcs
    ∧ Snapshot.TotalSeries snap
      = sum64 0 (ServiceInfo.SeriesCount <$> select (collected w) 0 svcs)
    ∧ ServiceSnapshot.TotalSeries <$> children
      = ServiceInfo.SeriesCount <$> select (row_created w) 0 svcs
    ∧ len children <= Snapshot.TotalServices snap
    ∧ ((∀ i, (i < length svcs)%nat → row_created w i = true) →
       Snapshot.TotalServices snap = len children)
    ∧ ((∀ i, (i < length svcs)%nat → row_created w i = true → collected w i = true) →
       Snapshot.TotalSeries snap
       = sum64 0 (ServiceSnapshot.TotalSeries <$> children)).
Proof.
  intros Hparent Hrun.
  destruct (Collect_success w st res st' Hrun)
    as (svcs & rows & Hd & Hstop & Hid & Hsnaps & Hsvcs & Hrows).
  destruct (rows_of_services _ _ _ Hrows) as (Hsid & Hseries & Hlen).
  exists svcs, (final_snapshot w (next_snapshot_id st) svcs). cbv zeta.
  assert (storage.services_of (SnapshotID res) (db st') = rows) as ->.
  { unfold storage.services_of. rewrite Hsvcs, Hid.
    apply services_of_new_rows; [|done].
    intros r Hr Heq. destruct (Hparent r Hr) as (p & Hp & Hpid).
    assert (Snapshot.ID p < next_snapshot_id st); [|lia].
    apply fresh_id_gt. apply list_elem_of_fmap. eauto. }
  split; [done|]. split.
  { unfold storage.find_snapshot. rewrite Hsnaps, Hid.
    apply (find_updated_snapshot (next_snapshot_id st)
             (final_snapshot w (next_snapshot_id st) svcs)); [|done..].
    intros r Hr. apply fresh_id_gt. apply list_elem_of_fmap. eauto. }
  split; [done|]. split; [done|]. split; [done|].
  cbn [final_snapshot Snapshot.TotalServices Snapshot.TotalSeries].
  unfold len. rewrite Hlen. split.
  { pose proof (select_length (row_created w) 0 svcs). lia. }
  split.
  - intros Hall. rewrite select_all; [done|]. intros k Hk. apply Hall. lia.
  - intros Hall. rewrite Hseries. do 2 f_equal. apply select_ext.
    intros k Hk. destruct (row_created w k) eqn:Hr.
    + apply Hall; [lia|done].
    + destruct (collected w k) eqn:Hc; [|done].
      apply collected_row_created in Hc. congruence.
Qed.

Lemma empty_store_has_parents : storage.services_have_parent storage.empty.
Proof. by intros r ?%elem_of_nil. Qed.

(** The amended C1 on the run of [flaky_world]. *)
Lemma Collect_totals_witness :
  ∃ svcs snap,
    let children :=
      storage.services_of (SnapshotID flaky_result)
        (db (Collect flaky_world fresh_state).2) in
    DiscoverServices flaky_world = inr svcs
    ∧ storage.find_snapshot (SnapshotID flaky_result)
        (db (Collect flaky_world fresh_state).2) = Some snap
    ∧ Snapshot.TotalServices snap = len svcs
    ∧ Snapshot.TotalSeries snap
      = sum64 0 (ServiceInfo.SeriesCount <$> select (collected flaky_world) 0 svcs)
    ∧ ServiceSnapshot.TotalSeries <$> children
      = ServiceInfo.SeriesCount <$> select (row_created flaky_world) 0 svcs
    ∧ len children <= Snapshot.TotalServices snap
    ∧ ((∀ i, (i < length svcs)%nat → row_created flaky_world i = true) →
       Snapshot.TotalServices snap = len children)
    ∧ ((∀ i, (i < length svcs)%nat → row_created flaky_world i = true →
             collected flaky_world i = true) →
       Snapshot.TotalSeries snap
       = sum64 0 (ServiceSnapshot.TotalSeries <$> children)).
Proof.
  apply (Collect_totals flaky_world fresh_state
           (Collect flaky_world fresh_state).2 flaky_result).
  - apply empty_store_has_parents.
  - vm_compute; reflexivity.
Defined.

(** C7: [Collect] returns the error of snapshot creation (and no row is
    written), the error of service discovery, or the error of the context
    when the service loop observes a cancellation; in the last two cases
    the snapshot row of the run keeps the zero totals it was created
    with.  If none of these happens the loop visits every service: each
    one is announced to the progress callback, the ones whose collection
    fails are logged at Error level, and the run goes on to the update of
    the snapshot, whose outcome alone decides the result. *)
Theorem Collect_failure_modes (w : world) (st : state) :
  (∀ e, snapshots_Create w = Some e →
     (Collect w st).1 = inl e ∧ db (Collect w st).2 = db st)
  ∧ (∀ e, snapshots_Create w = None → DiscoverServices w = inl e →
     (Collect w st).1 = inl e
     ∧ storage.snapshots (db (Collect w st).2)
       = storage.snapshots (db st) ++ [initial_snapshot w (next_snapshot_id st)])
  ∧ (∀ svcs e, snapshots_Create w = None → DiscoverServices w = inr svcs →
     service_stop w 0 svcs = Some e →
     (Collect w st).1 = inl e
     ∧ storage.snapshots (db (Collect w st).2)
       = storage.snapshots (db st) ++ [initial_snapshot w (next_snapshot_id st)])
  ∧ (∀ svcs, snapshots_Create w = None → DiscoverServices w = inr svcs →
     service_stop w 0 svcs = None →
     (Collect w st).1
       = match snapshots_Update w with
         | Some e => inl e
         | None =>
             inr {| SnapshotID := next_snapshot_id st;
                    TotalServices := len svcs;
                    TotalSeries :=
                      sum64 0 (ServiceInfo.SeriesCount
                                 <$> select (collected w) 0 svcs);
                    Duration := since_end w |}
         end
     ∧ List.filter visible (out (Collect w st).2)
       = List.filter visible (out st) ++ preamble
         ++ scan_output w (len svcs) 0 svcs ++ epilogue w).
Proof.
  rewrite Collect_run. cbv zeta.
  split; [intros e Hc; by rewrite Hc|].
  split; [intros e Hc Hd; by rewrite Hc, Hd|].
  assert (∀ svcs, snapshots_Create w = None → DiscoverServices w = inr svcs →
          ∃ looped st3,
            collect_services w (next_snapshot_id st) (len svcs) 0 svcs 0
              {| db := (storage.insert_snapshot (initial_snapshot w 0) (db st)).2;
                 out := ((out st ++ [Log Info "starting service discovery" ""])
                         ++ [Progress "discovering" 0 0 "Discovering services..."])
                        ++ [Log Info "discovered services" ""] |}
            = (looped, st3)
            ∧ storage.snapshots (db st3)
              = storage.snapshots (db st)
                ++ [initial_snapshot w (next_snapshot_id st)]
            ∧ List.filter visible (out st3)
              = List.filter visible (out st) ++ preamble
                ++ loop_output w (len svcs) 0 svcs
            ∧ looped
              = match service_stop w 0 svcs with
                | Some e => inl e
                | None =>
                    inr (sum64 0 (ServiceInfo.SeriesCount
                                    <$> select (collected w) 0 svcs))
                end) as Hloop.
  { intros svcs Hc Hd.
    match goal with |- context [collect_services w ?id ?n 0 svcs 0 ?s] =>
      destruct (collect_services_spec w id n 0 svcs 0 s) as (H1 & H2 & _ & H3);
      destruct (collect_services w id n 0 svcs 0 s) as [looped st3]
    end.
    cbn [fst snd db out] in H1, H2, H3. exists looped, st3.
    split; [done|]. split; [done|]. split; [|done].
    rewrite H2, !List.filter_app. cbn [List.filter visible].
    unfold preamble. by rewrite <- !app_assoc. }
  split.
  - intros svcs e Hc Hd Hstop. rewrite Hc, Hd. cbn [db out].
    destruct (Hloop svcs Hc Hd) as (looped & st3 & -> & H1 & _ & ->).
    by rewrite Hstop.
  - intros svcs Hc Hd Hstop. rewrite Hc, Hd. cbn [db out].
    destruct (Hloop svcs Hc Hd) as (looped & st3 & -> & _ & H2 & ->).
    rewrite Hstop. rewrite (no_stop_output _ _ _ _ Hstop) in H2.
    unfold epilogue. destruct (snapshots_Update w); cbn [fst snd out].
    + by rewrite H2, app_nil_r.
    + rewrite List.filter_app, H2. cbn [List.filter visible].
      by rewrite <- !app_assoc.
Qed.

(** C7 on four runs: snapshot creation fails; discovery fails; the
    context is cancelled when the loop reaches the second service; the
    metrics of the second service cannot be fetched. *)
Lemma Collect_failure_modes_witness :
  (let run := Collect (scenario (Some (RepositoryError "disk full"))
                         (inr three_services) None []) fresh_state in
   run.1 = inl (RepositoryError "disk full") ∧ db run.2 = storage.empty)
  ∧ (let run := Collect (scenario None (inl (BackendError "connection refused"))
                           None []) fresh_state in
     run.1 = inl (BackendError "connection refused")
     ∧ storage.snapshots (db run.2)
       = [ {| Snapshot.ID := 1; Snapshot.CollectedAt := 1754000000000000000;
              Snapshot.TotalServices := 0; Snapshot.TotalSeries := 0;
              Snapshot.ScanDurationMs := 0 |} ])
  ∧ (let run := Collect (scenario None (inr three_services) (Some 1%nat) [])
                  fresh_state in
     run.1 = inl Canceled
     ∧ storage.snapshots (db run.2)
       = [ {| Snapshot.ID := 1; Snapshot.CollectedAt := 1754000000000000000;
              Snapshot.TotalServices := 0; Snapshot.TotalSeries := 0;
              Snapshot.ScanDurationMs := 0 |} ])
  ∧ (let run := Collect flaky_world fresh_state in
     run.1 = inr flaky_result
     ∧ List.filter visible (out run.2)
       = [ Log Info "starting service discovery" "";
           Progress "discovering" 0 0 "Discovering services...";
           Log Info "discovered services" "";
           Progress "scanning" 1 3 "a"; Log Info "scanning service" "a";
           Progress "scanning" 2 3 "b"; Log Info "scanning service" "b";
           Log Error "failed to collect service" "b";
           Progress "scanning" 3 3 "c"; Log Info "scanning service" "c";
           Log Info "collection complete" "" ]).
Proof.
  split; [|split; [|split]]; cbv zeta.
  - exact (proj1 (Collect_failure_modes
             (scenario (Some (RepositoryError "disk full")) (inr three_services)
                None []) fresh_state) _ eq_refl).
  - exact (proj1 (proj2 (Collect_failure_modes
             (scenario None (inl (BackendError "connection refused")) None [])
             fresh_state)) _ eq_refl eq_refl).
  - exact (proj1 (proj2 (proj2 (Collect_failure_modes
             (scenario None (inr three_services) (Some 1%nat) []) fresh_state)))
             three_services Canceled eq_refl eq_refl eq_refl).
  - exact (proj2 (proj2 (proj2 (Collect_failure_modes flaky_world fresh_state)))
             three_services eq_refl eq_refl eq_refl).
Defined.
End CollectorFacts.

(** ** The analyzer *)

Module AnalyzerFacts.
Import Go models Analyzer.
Local Open Scope Z_scope.

(** C3: [StartAnalysis] returns an error and leaves the analyzer and its
    repositories as they were when the current or the previous snapshot
    does not exist: no analysis row is created, nothing is started.  When
    both snapshots resolve and the row of the pair is Completed, that row
    is returned; the table of analyses, the running flag and the list of
    started jobs stay as they were. *)
Theorem StartAnalysis_fails_fast_and_reuses (w : world) (currentID previousID : Z)
    (st : state) :
  (snapshot_row st currentID = None ∨ snapshot_row st previousID = None →
   ∃ e, StartAnalysis w currentID previousID st = (inl e, st))
  ∧ (∀ existing,
       snapshots_GetByID_err w currentID = None →
       snapshots_GetByID_err w previousID = None →
       is_Some (snapshot_row st currentID) →
       is_Some (snapshot_row st previousID) →
       analysisRepo_GetByPair_err w = None →
       analysis_row st currentID previousID = Some existing →
       SnapshotAnalysis.Status existing = AnalysisStatusCompleted →
       (StartAnalysis w currentID previousID st).1 = inr existing
       ∧ analyses (StartAnalysis w currentID previousID st).2 = analyses st
       ∧ jobs (StartAnalysis w currentID previousID st).2 = jobs st
       ∧ running (StartAnalysis w currentID previousID st).2 = running st
       ∧ snapshots (StartAnalysis w currentID previousID st).2 = snapshots st).
Proof.
  unfold StartAnalysis, bind, snapshots_GetByID, analysisRepo_GetByPair, ret,
    snapshot_row, analysis_row.
  split.
  - intros Hmissing.
    destruct (snapshots_GetByID_err w currentID); [eauto|].
    destruct (List.find _ (snapshots st)) as [cur|]; [|eauto].
    destruct (snapshots_GetByID_err w previousID); [eauto|].
    destruct (List.find _ (snapshots st)) as [prev|]; [|eauto].
    by destruct Hmissing.
  - intros existing -> -> [cur ->] [prev ->] -> -> Hst.
    by rewrite decide_True.
Qed.

Lemma with_tool_calls_cons c cs a :
  with_tool_calls (c :: cs) a = with_tool_calls cs (append_tool_call c a).
Proof. reflexivity. Qed.

Lemma ToolCalls_with_tool_calls cs a :
  SnapshotAnalysis.ToolCalls (with_tool_calls cs a)
  = SnapshotAnalysis.ToolCalls a ++ cs.
Proof.
  revert a. induction cs as [|c cs IH]; intros a.
  - by rewrite app_nil_r.
  - rewrite with_tool_calls_cons, IH. simpl. by rewrite <- app_assoc.
Qed.

Lemma in_invocation_order_cons w i c cs :
  ToolCall.Result c = tool_result w i (ToolCall.Name c) (ToolCall.Args c) →
  in_invocation_order w (S i) cs →
  in_invocation_order w i (c :: cs).
Proof.
  intros Hc Hcs [|k] c'; simpl.
  - intros [= <-]. by rewrite Nat.add_0_r.
  - intros Hk. rewrite (Hcs k c' Hk). f_equal. lia.
Qed.

Lemma completeAnalysisWithError_result w a err st :
  (completeAnalysisWithError w a err st).1
  = finished AnalysisStatusFailed (SnapshotAnalysis.Result a) err (now w) a.
Proof.
  unfold completeAnalysisWithError, bind, analysisRepo_Update.
  by destruct (analysisRepo_Update_err w AtFailure).
Qed.

(** One turn of the agentic loop that finds a function call: the call
    is executed and recorded, its result is sent back, and the loop goes
    on with the next response unless sending fails. *)
Lemma agentic_loop_step w n i resp a st content fc :
  first_content resp = Some content →
  find_function_call (Parts content) = Some fc →
  let c := {| ToolCall.Name := FunctionCall.Name fc;
              ToolCall.Args := FunctionCall.Args fc;
              ToolCall.Result :=
                tool_result w i (FunctionCall.Name fc) (FunctionCall.Args fc) |} in
  ∃ st1 msg,
    (agentic_loop w (S n) i resp a st).1
    = match SendMessage w (S i) msg with
      | inl err =>
          Returned (finished AnalysisStatusFailed (SnapshotAnalysis.Result a) err
                      (now w) (append_tool_call c a))
      | inr resp' => (agentic_loop w n (S i) resp' (append_tool_call c a) st1).1
      end.
Proof.
  intros Hcontent Hfc. cbn [agentic_loop]. rewrite Hcontent, Hfc.
  unfold bind, logger, updateProgress, analysisRepo_Update, ret, tool_result.
  destruct (Execute w i (FunctionCall.Name fc) (FunctionCall.Args fc)) as [e|r];
    cbn [fst snd];
    match goal with |- context [analysisRepo_Update_err w ?site] =>
      destruct (analysisRepo_Update_err w site)
    end;
    match goal with |- context [toMap ?v] => destruct (toMap v) end;
    cbn [fst snd];
    match goal with |- context [SendMessage w (S i) ?m] =>
      eexists _, m; destruct (SendMessage w (S i) m) as [err|resp']
    end;
    first [ reflexivity
          | match goal with |- context [completeAnalysisWithError w ?x ?e ?s] =>
              pose proof (completeAnalysisWithError_result w x e s) as H;
              destruct (completeAnalysisWithError w x e s) as [a' st'];
              cbn [fst] in H; subst a'; reflexivity
            end ].
Qed.

(** How the agentic loop is left after at most [remaining] tool calls. *)
Lemma agentic_loop_exit w remaining i resp a st :
  ∃ cs, (length cs <= remaining)%nat ∧ in_invocation_order w i cs ∧
    match (agentic_loop w remaining i resp a st).1 with
    | Returned a' =>
        ∃ err, a' = finished AnalysisStatusFailed (SnapshotAnalysis.Result a) err
                      (now w) (with_tool_calls cs a)
    | Left resp' a' =>
        a' = with_tool_calls cs a ∧ response_after w i resp (length cs) resp'
    end.
Proof.
  revert i resp a st. induction remaining as [|n IH]; intros i resp a st.
  { exists []. split; [done|]. split; [by intros k c ?|]. done. }
  destruct (first_content resp) as [content|] eqn:Hcontent; cycle 1.
  { exists []. split; [simpl; lia|]. split; [by intros k c ?|].
    cbn [agentic_loop]. rewrite Hcontent.
    unfold bind, logger. cbn [fst snd].
    match goal with |- context [completeAnalysisWithError w a ?e ?s] =>
      pose proof (completeAnalysisWithError_result w a e s) as H;
      destruct (completeAnalysisWithError w a e s) as [a' st']
    end.
    cbn [fst] in H. subst a'. unfold ret. cbn [fst]. eauto. }
  destruct (find_function_call (Parts content)) as [fc|] eqn:Hfc; cycle 1.
  { exists []. split; [simpl; lia|]. split; [by intros k c ?|].
    cbn [agentic_loop]. by rewrite Hcontent, Hfc. }
  destruct (agentic_loop_step w n i resp a st content fc Hcontent Hfc)
    as (st1 & msg & ->).
  set (c := {| ToolCall.Name := FunctionCall.Name fc |}).
  destruct (SendMessage w (S i) msg) as [err|resp'] eqn:Hsend.
  { exists [c]. split; [simpl; lia|]. split; [|by eexists].
    apply in_invocation_order_cons; [done|]. by intros k c' ?. }
  destruct (IH (S i) resp' (append_tool_call c a) st1) as (cs & Hlen & Hord & Hexit).
  exists (c :: cs). split; [simpl; lia|].
  split; [by apply in_invocation_order_cons|].
  destruct (agentic_loop w n (S i) resp' (append_tool_call c a) st1).1
    as [a'|resp'' a'].
  - destruct Hexit as [err ->]. by exists err.
  - destruct Hexit as [-> Hresp]. split; [done|].
    cbn [length response_after]. destruct cs as [|c' cs'].
    + simpl in Hresp. subst resp''. exists msg. by rewrite Nat.add_1_r.
    + cbn [length response_after] in Hresp. destruct Hresp as [msg' Hmsg'].
      exists msg'. rewrite <- Hmsg'. f_equal. simpl. lia.
Qed.

Lemma analyses_logger lvl msg st : analyses (logger lvl msg st).2 = analyses st.
Proof. reflexivity. Qed.

Lemma analyses_updateProgress p st : analyses (updateProgress p st).2 = analyses st.
Proof. reflexivity. Qed.

Lemma finalize_result w resp a st :
  (finalize w resp a st).1
  = finished AnalysisStatusCompleted (text_or_default resp)
      (SnapshotAnalysis.Error a) (now w) a.
Proof.
  unfold finalize, bind, text_or_default, analysisRepo_Update, ret, logger,
    updateProgress.
  destruct (String.eqb (final_text resp) ""); cbn [fst snd];
    by destruct (analysisRepo_Update_err w AtCompletion).
Qed.

(** After a successful final update the row of the analysis is the
    record [finalize] built. *)
Lemma finalize_stored w resp a st row :
  analysisRepo_Update_err w AtCompletion = None →
  row ∈ analyses (finalize w resp a st).2 →
  SnapshotAnalysis.ID row = SnapshotAnalysis.ID a →
  row = (finalize w resp a st).1.
Proof.
  intros Hok. rewrite finalize_result.
  unfold finalize, bind, text_or_default, analysisRepo_Update, ret, logger,
    updateProgress.
  rewrite Hok.
  destruct (String.eqb (final_text resp) ""); cbn [fst snd analyses set_status set_analyses];
    intros (r & -> & Hr)%list_elem_of_fmap;
    cbn [finished SnapshotAnalysis.ID];
    (destruct (SnapshotAnalysis.ID r =? SnapshotAnalysis.ID a) eqn:E; [done|lia]).
Qed.

Lemma ID_with_tool_calls cs a :
  SnapshotAnalysis.ID (with_tool_calls cs a) = SnapshotAnalysis.ID a.
Proof.
  revert a. induction cs as [|c cs IH]; intros a; [done|].
  by rewrite with_tool_calls_cons, IH.
Qed.

Lemma Error_with_tool_calls cs a :
  SnapshotAnalysis.Error (with_tool_calls cs a) = SnapshotAnalysis.Error a.
Proof.
  revert a. induction cs as [|c cs IH]; intros a; [done|].
  by rewrite with_tool_calls_cons, IH.
Qed.

Lemma converse_outcome w a0 current previous st :
  ∃ cs, (length cs <= Z.to_nat maxAgenticIterations)%nat
    ∧ in_invocation_order w 0 cs
    ∧ (failed_with w a0 (converse w a0 current previous st).1 cs
       ∨ completed_with w a0 (converse w a0 current previous st).1 cs
           (converse w a0 current previous st).2).
Proof.
  assert (∀ err st0,
    ∃ cs, (length cs <= Z.to_nat maxAgenticIterations)%nat
      ∧ in_invocation_order w 0 cs
      ∧ (failed_with w a0 (completeAnalysisWithError w a0 err st0).1 cs
         ∨ completed_with w a0 (completeAnalysisWithError w a0 err st0).1 cs
             (completeAnalysisWithError w a0 err st0).2)) as Hfail.
  { intros err st0. exists []. split; [simpl; lia|]. split; [by intros k c ?|].
    left. rewrite completeAnalysisWithError_result. by exists err. }
  unfold converse.
  destruct (buildPrompt w current previous) as [err|prompt]; [apply Hfail|].
  destruct (Chats_Create_err w) as [err|]; [apply Hfail|].
  destruct (SendMessage w 0 (Prompt prompt)) as [err|resp] eqn:Hsend; [apply Hfail|].
  unfold bind. cbn [updateProgress fst snd].
  match goal with |- context [agentic_loop w ?n 0 resp a0 ?s] =>
    destruct (agentic_loop_exit w n 0 resp a0 s) as (cs & Hlen & Hord & Hexit);
    destruct (agentic_loop w n 0 resp a0 s) as [[a1|resp' a1] st1]
  end; cbn [fst] in Hexit; exists cs; (split; [done|]); (split; [done|]).
  - left. destruct Hexit as [err ->]. by exists err.
  - right. destruct Hexit as [-> Hresp].
    assert (∃ msg, SendMessage w (length cs) msg = inr resp') as [msg Hmsg].
    { destruct cs as [|c cs]; simpl in Hresp; [subst; eauto|done]. }
    exists resp', msg. split; [done|].
    rewrite finalize_result, Error_with_tool_calls. split; [done|].
    intros Hok row Hrow Hid.
    pose proof (finalize_stored w resp' (with_tool_calls cs a0) st1 row Hok Hrow)
      as Hstored.
    rewrite finalize_result, Error_with_tool_calls, ID_with_tool_calls in Hstored.
    by apply Hstored.
Qed.

(** [runAnalysis] is the dialogue on the record set to Running (from some
    state that the Running update and the log have produced), followed by
    the release of the analyzer. *)
Lemma runAnalysis_run w a current previous st :
  ∃ st0,
    runAnalysis w a current previous st
    = ((converse w (with_status AnalysisStatusRunning a) current previous st0).1,
       (release (converse w (with_status AnalysisStatusRunning a)
                   current previous st0).2).2).
Proof.
  unfold runAnalysis, bind, logger, analysisRepo_Update, ret.
  destruct (analysisRepo_Update_err w AtRunning); cbn [fst snd];
    match goal with |- context [converse w ?x current previous ?s] =>
      exists s; by destruct (converse w x current previous s)
    end.
Qed.

Lemma jobs_launch w currentID previousID cur prev st j :
  j ∈ jobs (launch w currentID previousID cur prev st).2 →
  j ∈ jobs st ∨ SnapshotAnalysis.ToolCalls (job_analysis j) = [].
Proof.
  unfold launch, analysisRepo_Create, go.
  destruct (running st); [by left|].
  destruct (analysisRepo_Create_err w); cbn [fst snd jobs set_status set_analyses];
    [by left|].
  intros [Hj|Hj%list_elem_of_singleton]%elem_of_app; [by left|]. right. by subst j.
Qed.

(** C4: the tool calls [runAnalysis] leaves on the record are those it
    found there followed by the calls of this run, in the order in which
    the executor was invoked: call number k of the run is the one of
    iteration k.  The run adds at most 20 calls, one per iteration of the
    loop, so an analysis that starts without calls (as every analysis
    that [StartAnalysis] hands to a job does) ends with at most 20. *)
Theorem tool_calls_ordered_and_bounded (w : world) (a : SnapshotAnalysis.t)
    (current previous : Snapshot.t) (st : state) :
  (∃ cs,
     SnapshotAnalysis.ToolCalls (runAnalysis w a current previous st).1
     = SnapshotAnalysis.ToolCalls a ++ cs
     ∧ Z.of_nat (length cs) <= maxAgenticIterations
     ∧ in_invocation_order w 0 cs)
  ∧ (SnapshotAnalysis.ToolCalls a = [] →
     Z.of_nat (length (SnapshotAnalysis.ToolCalls
                         (runAnalysis w a current previous st).1)) <= 20)
  ∧ (∀ currentID previousID j,
       j ∈ jobs (StartAnalysis w currentID previousID st).2 →
       j ∈ jobs st ∨ SnapshotAnalysis.ToolCalls (job_analysis j) = []).
Proof.
  assert (∃ cs,
     SnapshotAnalysis.ToolCalls (runAnalysis w a current previous st).1
     = SnapshotAnalysis.ToolCalls a ++ cs
     ∧ Z.of_nat (length cs) <= maxAgenticIterations
     ∧ in_invocation_order w 0 cs) as Hcalls.
  { destruct (runAnalysis_run w a current previous st) as [st0 ->]. cbn [fst].
    destruct (converse_outcome w (with_status AnalysisStatusRunning a)
                current previous st0) as (cs & Hlen & Hord & Hout).
    exists cs. split; [|split; [unfold maxAgenticIterations in *; lia|done]].
    destruct Hout as [[err ->]|(resp & msg & _ & -> & _)];
      cbn [finished SnapshotAnalysis.ToolCalls];
      by rewrite ToolCalls_with_tool_calls. }
  split; [exact Hcalls|]. split.
  - intros Hnil. destruct Hcalls as (cs & -> & Hlen & _).
    rewrite Hnil. unfold maxAgenticIterations in Hlen. simpl. lia.
  - intros currentID previousID j.
    unfold StartAnalysis, bind, snapshots_GetByID, analysisRepo_GetByPair, ret.
    destruct (snapshots_GetByID_err w currentID); [by left|].
    destruct (List.find _ (snapshots st)) as [cur|]; [|by left].
    destruct (snapshots_GetByID_err w previousID); [by left|].
    destruct (List.find _ (snapshots st)) as [prev|]; [|by left].
    destruct (analysisRepo_GetByPair_err w); [by left|]. cbn [fst snd].
    destruct (List.find _ (analyses st)) as [ex|]; [|apply jobs_launch].
    case_decide; [by left|apply jobs_launch].
Qed.

(** C4 on a run with two tool calls, and on the analysis a job gets. *)
Lemma tool_calls_ordered_and_bounded_witness :
  Z.of_nat (length (SnapshotAnalysis.ToolCalls
                      (runAnalysis (quiet_world two_calls) pending_analysis
                         (snapshot 5 160) (snapshot 3 150) busy_state).1)) <= 20.
Proof.
  apply (proj1 (proj2 (tool_calls_ordered_and_bounded (quiet_world two_calls)
                         pending_analysis (snapshot 5 160) (snapshot 3 150)
                         busy_state))).
  reflexivity.
Defined.

Lemma text_or_default_empty resp :
  final_text resp = "" → text_or_default resp = "No analysis generated.".
Proof. unfold text_or_default. by intros ->. Qed.

(** Scenario S5: the previous snapshot 4 does not exist. *)
Lemma StartAnalysis_fails_fast_and_reuses_witness :
  (∃ e, StartAnalysis (quiet_world answer_at_once) 5 4 idle_state
        = (inl e, idle_state))
  ∧ (StartAnalysis (quiet_world answer_at_once) 5 3 idle_state).1
    = inr completed_analysis
  ∧ analyses (StartAnalysis (quiet_world answer_at_once) 5 3 idle_state).2
    = [completed_analysis]
  ∧ jobs (StartAnalysis (quiet_world answer_at_once) 5 3 idle_state).2 = [].
Proof.
  destruct (StartAnalysis_fails_fast_and_reuses (quiet_world answer_at_once)
              5 4 idle_state) as [Hfail _].
  destruct (StartAnalysis_fails_fast_and_reuses (quiet_world answer_at_once)
              5 3 idle_state) as [_ Hreuse].
  split; [apply Hfail; by right|].
  destruct (Hreuse completed_analysis) as (H1 & H2 & H3 & _);
    [reflexivity | reflexivity | by eexists | by eexists | reflexivity
    | reflexivity | reflexivity |].
  by repeat split.
Defined.

Example not_found_message :
  StartAnalysis (quiet_world answer_at_once) 5 4 idle_state
  = (inl "previous snapshot 4 not found", idle_state).
Proof. vm_compute. reflexivity. Qed.

Example twenty_calls_at_most :
  length (SnapshotAnalysis.ToolCalls
            (runAnalysis (quiet_world calls_forever) pending_analysis
               (snapshot 5 160) (snapshot 3 150) busy_state).1) = 20%nat.
Proof. vm_compute. reflexivity. Qed.
End AnalyzerFacts.

(** ** The hand-written HTTP client, continued *)

Module LegacyClientMoreFacts.

Import Go LegacyClient LegacyClientMore.
Local Open Scope Z_scope.

Lemma schedule_from_snoc attempt n :
  schedule_from attempt (S n)
  = schedule_from attempt n
    ++ (if 0 <? attempt + Z.of_nat n then [Slept (backoff (attempt + Z.of_nat n))] else [])
    ++ [Attempt (attempt + Z.of_nat n)].
Proof.
  revert attempt. induction n as [|n IH]; intros attempt.
  - cbn [schedule_from app]. change (Z.of_nat 0) with 0. by rewrite Z.add_0_r.
  - change (schedule_from attempt (S (S n)))
      with ((if 0 <? attempt then [Slept (backoff attempt)] else [])
            ++ Attempt attempt :: schedule_from (attempt + 1) (S n)).
    rewrite IH. cbn [schedule_from].
    replace (attempt + 1 + Z.of_nat n) with (attempt + Z.of_nat (S n)) by lia.
    by rewrite <- !app_assoc.
Qed.

(** The ways one run of the retry loop can go: the attempt number
    [attempt + n - 1] succeeds; or all the attempts left fail; or the
    context is cancelled during the wait before attempt [attempt + n]. *)
Lemma retry_loop_spec w r maxRetries remaining attempt lastErr :
  0 <= attempt →
  ∃ n : nat,
    (n <= remaining)%nat
    ∧ (∀ j : nat, (S j < n)%nat →
         ∃ e, doSingleRequest w r (attempt + Z.of_nat j) = inl e)
    ∧ (∀ j : nat, (j < n)%nat → 0 < attempt + Z.of_nat j →
         ctx_done w (attempt + Z.of_nat j) = false)
    ∧ ((∃ body,
          n ≠ 0%nat
          ∧ doSingleRequest w r (attempt + Z.of_nat n - 1) = inr body
          ∧ retry_loop w r maxRetries remaining attempt lastErr
            = (inr body, schedule_from attempt n))
       ∨ (n = remaining
          ∧ ∃ last,
              (if decide (n = 0%nat) then last = lastErr
               else ∃ e, last = Some e
                         ∧ doSingleRequest w r (attempt + Z.of_nat n - 1) = inl e)
              ∧ retry_loop w r maxRetries remaining attempt lastErr
                = (inl (ErrAfterAttempts maxRetries last), schedule_from attempt n))
       ∨ ((n < remaining)%nat
          ∧ 0 < attempt + Z.of_nat n
          ∧ ctx_done w (attempt + Z.of_nat n) = true
          ∧ (n ≠ 0%nat →
             ∃ e, doSingleRequest w r (attempt + Z.of_nat n - 1) = inl e)
          ∧ retry_loop w r maxRetries remaining attempt lastErr
            = (inl ErrContext,
               schedule_from attempt n
               ++ [Interrupted (backoff (attempt + Z.of_nat n))]))).
Proof.
  revert attempt lastErr. induction remaining as [|rem IH]; intros attempt lastErr Ha.
  { exists 0%nat. split; [done|]. split; [intros; lia|]. split; [intros; lia|].
    right; left. split; [done|]. exists lastErr. by rewrite decide_True. }
  cbn [retry_loop].
  destruct ((0 <? attempt) && ctx_done w attempt) eqn:Hstop.
  { apply andb_true_iff in Hstop as [Hpos Hdone]. apply Z.ltb_lt in Hpos.
    exists 0%nat. split; [lia|]. split; [intros; lia|]. split; [intros; lia|].
    right; right. rewrite Z.add_0_r. split; [lia|]. split; [done|].
    split; [done|]. split; [done|]. done. }
  assert (0 < attempt → ctx_done w attempt = false) as Hnot.
  { intros Hpos. apply Z.ltb_lt in Hpos. rewrite Hpos in Hstop. done. }
  destruct (doSingleRequest w r attempt) as [err|body] eqn:Hreq.
  2:{ exists 1%nat. split; [lia|]. split; [intros; lia|].
      split.
      { intros j Hj Hpos. assert (j = 0%nat) as -> by lia.
        rewrite Z.add_0_r in *. auto. }
      left. exists body. split; [done|].
      replace (attempt + Z.of_nat 1 - 1) with attempt by lia.
      split; [done|]. done. }
  destruct (IH (attempt + 1) (Some err) ltac:(lia))
    as (n & Hn & Hfail & Hctx & Hcases).
  exists (S n). split; [lia|]. split.
  { intros [|j] Hj.
    - rewrite Z.add_0_r. eauto.
    - destruct (Hfail j ltac:(lia)) as [e He]. exists e.
      by replace (attempt + Z.of_nat (S j)) with (attempt + 1 + Z.of_nat j) by lia. }
  split.
  { intros [|j] Hj Hpos.
    - rewrite Z.add_0_r in *. auto.
    - replace (attempt + Z.of_nat (S j)) with (attempt + 1 + Z.of_nat j) in * by lia.
      apply Hctx; lia. }
  replace (attempt + Z.of_nat (S n)) with (attempt + 1 + Z.of_nat n) by lia.
  destruct (retry_loop w r maxRetries rem (attempt + 1) (Some err)) as [res tr].
  destruct Hcases as [(body & Hn0 & Hbody & Heq)|[(-> & last & Hlast & Heq)
                     |(Hlt & Hpos & Hdone & Hprev & Heq)]];
    injection Heq as -> ->.
  - left. exists body. split; [done|]. split; [done|]. done.
  - right; left. split; [done|]. exists last. rewrite decide_False by done.
    split; [|done]. case_decide as Hrem.
    + subst. exists err. split; [done|].
      by replace (attempt + 1 + Z.of_nat 0 - 1) with attempt by lia.
    + done.
  - right; right. split; [lia|]. split; [done|]. split; [done|].
    split; [|cbn [schedule_from]; by rewrite <- app_assoc].
    intros _. destruct (decide (n = 0%nat)) as [->|Hn0].
    + exists err. by replace (attempt + 1 + Z.of_nat 0 - 1) with attempt by lia.
    + by apply Hprev.
Qed.

(** X1: whatever the backend and the context do, a call with the retry
    limit [maxRetries] sends at most [maxRetries] requests, numbered from
    0 without gaps, sleeps the backoff of an attempt just before it and
    never before the first; if it is interrupted, that is the last thing
    it does and the result is the error of the context. *)
Theorem retry_trace_shape (w : world) (r : request) (maxRetries : Z) :
  ∃ n : nat,
    Z.of_nat n <= Z.max 0 maxRetries
    ∧ ((doRequestWithRetry w r maxRetries).2 = schedule_from 0 n
       ∨ ((doRequestWithRetry w r maxRetries).2
          = schedule_from 0 n ++ [Interrupted (backoff (Z.of_nat n))]
          ∧ (doRequestWithRetry w r maxRetries).1 = inl ErrContext
          ∧ n ≠ 0%nat)).
Proof.
  unfold doRequestWithRetry.
  destruct (retry_loop_spec w r maxRetries (Z.to_nat maxRetries) 0 None ltac:(lia))
    as (n & Hn & _ & _ & Hcases).
  exists n. split; [lia|].
  destruct Hcases as [(body & _ & _ & ->)|[(_ & last & _ & ->)
                     |(_ & Hpos & _ & _ & ->)]]; cbn [fst snd].
  - by left.
  - by left.
  - right. rewrite Z.add_0_l in *. split; [done|]. split; [done|]. lia.
Qed.

(** X2: when a call returns a body, it is the body of the first attempt
    that succeeded: every attempt before it failed, no wait before it was
    interrupted, and nothing was done after it. *)
Theorem retry_returns_first_success (w : world) (r : request) (maxRetries : Z)
    (body : bytes) :
  (doRequestWithRetry w r maxRetries).1 = inr body →
  ∃ k : nat,
    Z.of_nat k < maxRetries
    ∧ doSingleRequest w r (Z.of_nat k) = inr body
    ∧ (∀ j : nat, (j < k)%nat → ∃ e, doSingleRequest w r (Z.of_nat j) = inl e)
    ∧ (∀ j : nat, (0 < j <= k)%nat → ctx_done w (Z.of_nat j) = false)
    ∧ (doRequestWithRetry w r maxRetries).2 = schedule_from 0 (S k).
Proof.
  unfold doRequestWithRetry.
  destruct (retry_loop_spec w r maxRetries (Z.to_nat maxRetries) 0 None ltac:(lia))
    as (n & Hn & Hfail & Hctx & Hcases).
  destruct Hcases as [(body' & Hn0 & Hbody & ->)|[(_ & last & _ & ->)
                     |(_ & _ & _ & _ & ->)]]; cbn [fst snd]; [|done..].
  intros [= ->]. destruct n as [|k]; [done|]. exists k.
  split; [lia|]. split.
  { by replace (0 + Z.of_nat (S k) - 1) with (Z.of_nat k) in Hbody by lia. }
  split; [intros j Hj; apply (Hfail j); lia|].
  split; [|done]. intros j Hj. apply (Hctx j); lia.
Qed.

Lemma retry_returns_first_success_witness :
  ∃ k : nat,
    Z.of_nat k < 3
    ∧ doSingleRequest (recovering 2 (success_body JNull)) health_request (Z.of_nat k)
      = inr (success_body JNull)
    ∧ (∀ j : nat, (j < k)%nat →
         ∃ e, doSingleRequest (recovering 2 (success_body JNull)) health_request
                (Z.of_nat j) = inl e)
    ∧ (∀ j : nat, (0 < j <= k)%nat →
         ctx_done (recovering 2 (success_body JNull)) (Z.of_nat j) = false)
    ∧ (doRequestWithRetry (recovering 2 (success_body JNull)) health_request 3).2
      = schedule_from 0 (S k).
Proof.
  apply (retry_returns_first_success (recovering 2 (success_body JNull))
           health_request 3 (success_body JNull)).
  reflexivity.
Defined.

(** X3: when every attempt fails and the context is not cancelled, the
    call makes exactly [maxRetries] attempts and wraps the error of the
    last one; with a limit of 0 or less it sends nothing at all and the
    error it wraps is nil. *)
Theorem retry_exhausted (w : world) (r : request) (maxRetries : Z) :
  (∀ k, 0 <= k < maxRetries → ∃ e, doSingleRequest w r k = inl e) →
  (∀ k, 0 < k < maxRetries → ctx_done w k = false) →
  doRequestWithRetry w r maxRetries
  = (inl (ErrAfterAttempts maxRetries
            (if maxRetries <=? 0 then None
             else match doSingleRequest w r (maxRetries - 1) with
                  | inl e => Some e
                  | inr _ => None
                  end)),
     schedule_from 0 (Z.to_nat maxRetries)).
Proof.
  intros Hfail Hctx. unfold doRequestWithRetry.
  destruct (retry_loop_spec w r maxRetries (Z.to_nat maxRetries) 0 None ltac:(lia))
    as (n & Hn & _ & _ & Hcases).
  destruct Hcases as [(body & Hn0 & Hbody & _)|[(-> & last & Hlast & ->)
                     |(Hlt & Hpos & Hdone & _ & _)]].
  - destruct (Hfail (0 + Z.of_nat n - 1) ltac:(lia)) as [e He]. congruence.
  - f_equal. f_equal. f_equal. case_decide as Hz.
    + subst last. by replace (maxRetries <=? 0) with true by lia.
    + destruct Hlast as (e & -> & He).
      replace (maxRetries <=? 0) with false by lia.
      replace (0 + Z.of_nat (Z.to_nat maxRetries) - 1) with (maxRetries - 1) in He
        by lia.
      by rewrite He.
  - rewrite Hctx in Hdone by lia. done.
Qed.

Lemma retry_exhausted_witness :
  doRequestWithRetry (cancelled_at 7) health_request 2
  = (inl (ErrAfterAttempts 2 (Some (ErrRequestFailed "connection refused"))),
     [Attempt 0; Slept (1 * Second); Attempt 1])
  ∧ doRequestWithRetry (cancelled_at 7) health_request 0
    = (inl (ErrAfterAttempts 0 None), []).
Proof.
  split.
  - apply (retry_exhausted (cancelled_at 7) health_request 2).
    + intros k Hk. by eexists.
    + intros k Hk. cbn. lia.
  - apply (retry_exhausted (cancelled_at 7) health_request 0).
    + intros k Hk. lia.
    + intros k Hk. lia.
Defined.

(** X4: a context that is cancelled during the wait before attempt [k]
    ends the call there: attempt [k] and the later ones are never sent,
    and the caller gets the context's error instead of the error of the
    last request. *)
Theorem retry_cancelled (w : world) (r : request) (maxRetries k : Z) :
  0 < k < maxRetries →
  (∀ j, 0 <= j < k → ∃ e, doSingleRequest w r j = inl e) →
  (∀ j, 0 < j < k → ctx_done w j = false) →
  ctx_done w k = true →
  doRequestWithRetry w r maxRetries
  = (inl ErrContext, schedule_from 0 (Z.to_nat k) ++ [Interrupted (backoff k)]).
Proof.
  intros Hk Hfail Hctx Hdone. unfold doRequestWithRetry.
  destruct (retry_loop_spec w r maxRetries (Z.to_nat maxRetries) 0 None ltac:(lia))
    as (n & Hn & Hfail' & Hctx' & Hcases).
  assert (¬ (k < Z.of_nat n)) as Hnk.
  { intros Hlt. specialize (Hctx' (Z.to_nat k) ltac:(lia)).
    rewrite Z.add_0_l, Z2Nat.id in Hctx' by lia. rewrite Hctx' in Hdone by lia.
    done. }
  destruct Hcases as [(body & Hn0 & Hbody & _)|[(-> & _)
                     |(Hlt & Hpos & Hdone' & _ & ->)]].
  - destruct (Hfail (0 + Z.of_nat n - 1) ltac:(lia)) as [e He]. congruence.
  - lia.
  - rewrite Z.add_0_l in *.
    assert (¬ (Z.of_nat n < k)) as Hkn.
    { intros Hlt'. rewrite Hctx in Hdone' by lia. done. }
    assert (Z.of_nat n = k) as <- by lia. by rewrite Nat2Z.id.
Qed.

Lemma retry_cancelled_witness :
  doRequestWithRetry (cancelled_at 1) health_request 3
  = (inl ErrContext, [Attempt 0; Interrupted (1 * Second)]).
Proof.
  apply (retry_cancelled (cancelled_at 1) health_request 3 1).
  - lia.
  - intros j Hj. by eexists.
  - intros j Hj. lia.
  - reflexivity.
Defined.

Lemma wrap64_small z : - 2 ^ 63 <= z < 2 ^ 63 → wrap64 z = z.
Proof. intros Hz. unfold wrap64. rewrite Z.mod_small; lia. Qed.

(** X5: the wait before attempt [k] is [2^(k-1)] seconds for the
    attempts 1 to 34.  At attempt 35 the product with [time.Second] no
    longer fits [int64] and the duration is negative, and from attempt 65
    on the shift itself gives 0: such a timer fires at once. *)
Theorem backoff_doubles_until_overflow (k : Z) :
  (1 <= k <= 34 → backoff k = 2 ^ (k - 1) * Second)
  ∧ backoff 35 < 0
  ∧ (65 <= k → backoff k = 0).
Proof.
  split; [|split].
  - intros Hk. unfold backoff, shl1.
    replace ((k - 1 <? 0) || (64 <=? k - 1)) with false by lia.
    rewrite Z.shiftl_1_l.
    assert (0 < 2 ^ (k - 1) <= 2 ^ 33) as Hpow.
    { split; [apply Z.pow_pos_nonneg; lia|apply Z.pow_le_mono_r; lia]. }
    change (2 ^ 33) with 8589934592 in Hpow.
    rewrite (wrap64_small (2 ^ (k - 1))) by lia.
    apply wrap64_small. unfold Second. lia.
  - reflexivity.
  - intros Hk. unfold backoff, shl1.
    by replace ((k - 1 <? 0) || (64 <=? k - 1)) with true by lia.
Qed.

Lemma backoff_doubles_until_overflow_witness :
  backoff 4 = 8 * Second ∧ backoff 70 = 0.
Proof.
  destruct (backoff_doubles_until_overflow 4) as (H & _ & _).
  destruct (backoff_doubles_until_overflow 70) as (_ & _ & H').
  split; [apply H; lia|apply H'; lia].
Defined.

Lemma unmarshal_success_body data :
  unmarshal_apiResponse (success_body data)
  = Some {| Status := "success"; Data := Some data; Error := "" |}.
Proof. reflexivity. Qed.

Lemma unmarshal_strings_names names :
  unmarshal_strings (Some (JArray (JString <$> names))) = Some names.
Proof.
  cbn [unmarshal_strings]. induction names as [|name names IH]; [done|].
  cbn [fmap list_fmap mapM unmarshal_string]. cbn [fmap list_fmap] in IH.
  by rewrite IH.
Qed.

(** X6: a list of metric names that the backend sends in a success
    envelope with a 2xx status comes back from [GetAllMetricNames] as it
    was sent, in the same order, after a single request. *)
Theorem GetAllMetricNames_round_trip (w : world) (code : Z) (names : list string) :
  round_trip w metric_names_request 0
  = Responds code (success_body (JArray (JString <$> names))) →
  200 <= code < 300 →
  GetAllMetricNames w = (inr names, [Attempt 0]).
Proof.
  intros Hrt Hcode. unfold GetAllMetricNames. rewrite LegacyClientFacts.doRequest_cases.
  unfold doSingleRequest at 1. rewrite Hrt.
  replace ((code <? 200) || (300 <=? code)) with false by lia.
  rewrite unmarshal_success_body. cbn [Status Data negb String.eqb].
  change (String.eqb "success" "success") with true. cbn [negb].
  by rewrite unmarshal_strings_names.
Qed.

Lemma GetAllMetricNames_round_trip_witness :
  GetAllMetricNames
    (answering (success_body (JArray (JString <$> ["up"; "go_goroutines"]))))
  = (inr ["up"; "go_goroutines"], [Attempt 0]).
Proof.
  apply (GetAllMetricNames_round_trip _ 200 ["up"; "go_goroutines"]);
    [reflexivity|lia].
Defined.

(** X7: a successful query whose result vector is empty, or whose first
    sample has fewer than two elements in [value], gives the cardinality
    0 and no error. *)
Theorem GetMetricCardinality_empty_is_zero (w : world) (metricName : string)
    (code : Z) (body : bytes) (env : apiResponse) (qr : queryResponse) :
  round_trip w (cardinality_request metricName) 0 = Responds code body →
  200 <= code < 300 →
  unmarshal_apiResponse body = Some env →
  Status env = "success" →
  unmarshal_queryResponse (Data env) = Some qr →
  (Result qr = []
   ∨ ∃ row rest, Result qr = row :: rest ∧ (length (Value row) < 2)%nat) →
  GetMetricCardinality w metricName = (inr 0, [Attempt 0]).
Proof.
  intros Hrt Hcode Henv Hst Hqr Hempty.
  unfold GetMetricCardinality. rewrite LegacyClientFacts.doRequest_cases.
  unfold doSingleRequest at 1. rewrite Hrt.
  replace ((code <? 200) || (300 <=? code)) with false by lia.
  rewrite Henv, Hst. change (String.eqb "success" "success") with true.
  cbn [negb]. rewrite Hqr.
  destruct Hempty as [->|(row & rest & -> & Hlen)]; [done|].
  destruct (Value row) as [|v0 [|v1 vs]]; [done|done|simpl in Hlen; lia].
Qed.

Lemma GetMetricCardinality_empty_is_zero_witness :
  GetMetricCardinality
    (answering (success_body (JObject [("resultType", JString "vector");
                                       ("result", JArray [])]))) "up"
  = (inr 0, [Attempt 0]).
Proof.
  apply (GetMetricCardinality_empty_is_zero _ "up" 200
           (success_body (JObject [("resultType", JString "vector");
                                   ("result", JArray [])]))
           {| Status := "success";
              Data := Some (JObject [("resultType", JString "vector");
                                     ("result", JArray [])]);
              Error := "" |}
           {| ResultType := "vector"; Result := [] |});
    [reflexivity|lia|reflexivity|reflexivity|reflexivity|by left].
Defined.

Section WithIterationOrder.

Variable range : forall A : Type, list A -> list A.
Hypothesis range_perm : forall (A : Type) (l : list A), range A l ≡ₚ l.

Lemma note_value_record_value labelValues entry :
  note_value labelValues entry = Client.record_value "__name__" labelValues entry.
Proof.
  destruct entry as [label value]. unfold note_value, Client.record_value.
  by destruct (bool_decide (label = "__name__")).
Qed.

Lemma foldl_note_value labelValues entries :
  foldl note_value labelValues entries
  = foldl (Client.record_value "__name__") labelValues entries.
Proof.
  revert labelValues. induction entries as [|e entries IH]; intros m; [done|].
  cbn [foldl]. by rewrite note_value_record_value, IH.
Qed.

Lemma aggregate_collect_label_values (series : list (gmap string string)) :
  foldl (λ labelValues s,
           foldl note_value labelValues (range _ (map_to_list s))) ∅ series
  = Client.collect_label_values range "__name__" series.
Proof.
  unfold Client.collect_label_values. generalize (∅ : gmap string (gset string)).
  induction series as [|s series IH]; intros m; [done|].
  cbn [foldl]. by rewrite foldl_note_value, IH.
Qed.

(** X8: [GetMetricLabels] lists every label that occurs in the series it
    gets, except [__name__], once, each with the number of distinct
    values the series give it.  Unlike [GetLabelsForMetric] it leaves no
    other label out. *)
Theorem GetMetricLabels_counts_distinct_values (w : world) (metricName : string)
    (code : Z) (body : bytes) (env : apiResponse)
    (series : list (gmap string string)) :
  round_trip w (series_request metricName) 0 = Responds code body →
  200 <= code < 300 →
  unmarshal_apiResponse body = Some env →
  Status env = "success" →
  unmarshal_series (Data env) = Some series →
  ∃ labels,
    GetMetricLabels range w metricName = (inr labels, [Attempt 0])
    ∧ NoDup (Name <$> labels)
    ∧ (∀ name count,
         {| Name := name; UniqueCount := count |} ∈ labels ↔
         name ≠ "__name__"
         ∧ Client.observed series name ≠ ∅
         ∧ count = Z.of_nat (size (Client.observed series name))).
Proof.
  intros Hrt Hcode Henv Hst Hseries.
  unfold GetMetricLabels. rewrite LegacyClientFacts.doRequest_cases.
  unfold doSingleRequest at 1. rewrite Hrt.
  replace ((code <? 200) || (300 <=? code)) with false by lia.
  rewrite Henv, Hst. change (String.eqb "success" "success") with true.
  cbn [negb]. rewrite Hseries, aggregate_collect_label_values.
  eexists. split; [reflexivity|]. split.
  - rewrite <- list_fmap_compose.
    rewrite (fmap_Permutation _ _ _ (range_perm _ _)).
    apply (NoDup_fst_map_to_list (Client.collect_label_values range "__name__" series)).
  - intros name count. rewrite list_elem_of_fmap. split.
    + intros ([name' values] & [= -> ->] & Hin).
      apply (proj1 (ClientFacts.elem_of_range range range_perm _ _)) in Hin.
      apply elem_of_map_to_list in Hin.
      rewrite (ClientFacts.collect_label_values_lookup range range_perm) in Hin.
      unfold Client.excluded in Hin.
      destruct (bool_decide (name' = "__name__")) eqn:E; [done|].
      apply bool_decide_eq_false in E. cbn [orb] in Hin.
      case_decide; [done|]. injection Hin as <-. done.
    + intros (Hname & Hne & ->). exists (name, Client.observed series name).
      split; [done|].
      apply (proj2 (ClientFacts.elem_of_range range range_perm _ _)).
      apply elem_of_map_to_list.
      rewrite (ClientFacts.collect_label_values_lookup range range_perm).
      unfold Client.excluded. rewrite bool_decide_eq_false_2 by done.
      cbn [orb]. by rewrite decide_False.
Qed.

End WithIterationOrder.

Lemma GetMetricLabels_counts_distinct_values_witness :
  let series : list (gmap string string) :=
    [ {[ "__name__" := "up"; "job" := "api"; "instance" := "a" ]};
      {[ "__name__" := "up"; "job" := "api"; "instance" := "b" ]} ] in
  let data :=
    JArray [ JObject [("__name__", JString "up"); ("job", JString "api");
                      ("instance", JString "a")];
             JObject [("__name__", JString "up"); ("job", JString "api");
                      ("instance", JString "b")] ] in
  ∃ labels,
    GetMetricLabels Client.in_order (answering (success_body data)) "up"
    = (inr labels, [Attempt 0])
    ∧ NoDup (Name <$> labels)
    ∧ (∀ name count,
         {| Name := name; UniqueCount := count |} ∈ labels ↔
         name ≠ "__name__"
         ∧ Client.observed series name ≠ ∅
         ∧ count = Z.of_nat (size (Client.observed series name))).
Proof.
  intros series data.
  apply (GetMetricLabels_counts_distinct_values Client.in_order
           ClientFacts.in_order_perm (answering (success_body data)) "up" 200
           (success_body data)
           {| Status := "success"; Data := Some data; Error := "" |} series);
    [reflexivity | lia | reflexivity | reflexivity | vm_compute; reflexivity].
Defined.
End LegacyClientMoreFacts.

(** ** The API-based client, continued *)

Module ClientMoreFacts.

Import Go Client ClientMore.
Local Open Scope Z_scope.

Lemma more_series_total : Total more_series.
Proof. intros a b. unfold more_series. lia. Qed.

Lemma more_metric_series_total : Total more_metric_series.
Proof. intros a b. unfold more_metric_series. lia. Qed.

Lemma more_unique_total : Total more_unique.
Proof. intros a b. unfold more_unique. lia. Qed.

Lemma omap_nonempty {A B : Type} (key : A → string) (g : A → B) (l : list A) :
  omap (λ x, if decide (key x = EmptyString) then None else Some (g x)) l
  = g <$> filter (λ x, key x ≠ EmptyString) l.
Proof.
  induction l as [|x rest IH]; [done|].
  cbn [omap list_omap]. rewrite filter_cons.
  destruct (decide (key x = EmptyString)) as [He|Hne].
  - destruct (decide (key x ≠ EmptyString)) as [Hc|_]; [by destruct Hc|]. apply IH.
  - destruct (decide (key x ≠ EmptyString)) as [_|Hc]; [|by destruct Hc].
    cbn [fmap list_fmap]. f_equal. apply IH.
Qed.

Section WithSampleValues.

Variable SampleValue : Type.
Variable int_of : SampleValue -> Z.

(** X9: on a vector, [DiscoverServices] returns one entry for each
    sample that carries a non-empty value of the service label, with the
    sample's value converted to an integer as its series count, and no
    other entry; the entries are sorted by series count, largest first. *)
Theorem DiscoverServices_sorted_and_filtered
    (Query : string -> result (QueryValue SampleValue))
    (serviceLabel : string) (vector : list (Sample SampleValue)) :
  Query (discover_query serviceLabel) = inr (Vector _ vector) →
  ∃ services,
    DiscoverServices _ int_of Query serviceLabel = inr services
    ∧ Sorted more_series services
    ∧ Forall (λ svc, ServiceInfo.Name svc ≠ EmptyString) services
    ∧ services ≡ₚ
        (λ sample, {| ServiceInfo.Name := label_of _ serviceLabel sample;
                      ServiceInfo.SeriesCount := int_of (Value _ sample) |})
        <$> filter (λ sample, label_of _ serviceLabel sample ≠ EmptyString) vector.
Proof.
  intros HQ. unfold DiscoverServices. rewrite HQ. eexists. split; [reflexivity|].
  split; [apply (Sorted_merge_sort more_series (Total0 := more_series_total))|].
  pose proof (omap_nonempty (label_of SampleValue serviceLabel)
                (λ sample, {| ServiceInfo.Name := label_of _ serviceLabel sample;
                              ServiceInfo.SeriesCount := int_of (Value _ sample) |})
                vector) as Heq.
  cbn beta in Heq.
  split.
  - rewrite merge_sort_Permutation, Heq. apply Forall_fmap, Forall_forall.
    intros sample [Hne _]%list_elem_of_filter. done.
  - by rewrite merge_sort_Permutation, Heq.
Qed.

(** X10: on a vector, [GetMetricsForService] returns one entry for each
    sample that has a metric name, and no other entry, sorted by series
    count, largest first. *)
Theorem GetMetricsForService_sorted_and_filtered
    (Query : string -> result (QueryValue SampleValue))
    (serviceLabel serviceName : string) (vector : list (Sample SampleValue)) :
  Query (metrics_query serviceLabel serviceName) = inr (Vector _ vector) →
  ∃ metrics,
    GetMetricsForService _ int_of Query serviceLabel serviceName = inr metrics
    ∧ Sorted more_metric_series metrics
    ∧ Forall (λ m, MetricInfo.Name m ≠ EmptyString) metrics
    ∧ metrics ≡ₚ
        (λ sample, {| MetricInfo.Name := label_of _ "__name__" sample;
                      MetricInfo.SeriesCount := int_of (Value _ sample) |})
        <$> filter (λ sample, label_of _ "__name__" sample ≠ EmptyString) vector.
Proof.
  intros HQ. unfold GetMetricsForService. rewrite HQ. eexists. split; [reflexivity|].
  split; [apply (Sorted_merge_sort more_metric_series (Total0 := more_metric_series_total))|].
  pose proof (omap_nonempty (label_of SampleValue "__name__")
                (λ sample, {| MetricInfo.Name := label_of _ "__name__" sample;
                              MetricInfo.SeriesCount := int_of (Value _ sample) |})
                vector) as Heq.
  cbn beta in Heq.
  split.
  - rewrite merge_sort_Permutation, Heq. apply Forall_fmap, Forall_forall.
    intros sample [Hne _]%list_elem_of_filter. done.
  - by rewrite merge_sort_Permutation, Heq.
Qed.

End WithSampleValues.

Lemma DiscoverServices_sorted_and_filtered_witness :
  DiscoverServices Z id (λ _, inr s1_vector) "service"
  = inr [ {| ServiceInfo.Name := "a"; ServiceInfo.SeriesCount := 100 |};
          {| ServiceInfo.Name := "b"; ServiceInfo.SeriesCount := 50 |};
          {| ServiceInfo.Name := "c"; ServiceInfo.SeriesCount := 10 |} ]
  ∧ ∃ services,
      DiscoverServices Z id (λ _, inr s1_vector) "service" = inr services
      ∧ Sorted more_series services
      ∧ Forall (λ svc, ServiceInfo.Name svc ≠ EmptyString) services.
Proof.
  split; [vm_compute; reflexivity|].
  destruct (DiscoverServices_sorted_and_filtered Z id (λ _, inr s1_vector)
              "service" _ eq_refl) as (services & H1 & H2 & H3 & _).
  by exists services.
Defined.

Lemma GetMetricsForService_sorted_and_filtered_witness :
  ∃ metrics,
    GetMetricsForService Z id
      (λ _, inr (Vector Z [ {| Metric := {[ "__name__" := "up" ]}; Value := 3 |} ]))
      "service" "a" = inr metrics
    ∧ Sorted more_metric_series metrics
    ∧ Forall (λ m, MetricInfo.Name m ≠ EmptyString) metrics.
Proof.
  destruct (GetMetricsForService_sorted_and_filtered Z id
              (λ _, inr (Vector Z [ {| Metric := {[ "__name__" := "up" ]};
                                       Value := 3 |} ]))
              "service" "a" _ eq_refl) as (metrics & H1 & H2 & H3 & _).
  by exists metrics.
Defined.

Section WithIterationOrder.

Variable range : forall A : Type, list A -> list A.
Hypothesis range_perm : forall (A : Type) (l : list A), range A l ≡ₚ l.

(** X11: the labels [GetLabelsForMetric] returns are sorted by their
    number of unique values, largest first, and no label name occurs
    twice. *)
Theorem GetLabelsForMetric_sorted_distinct
    (Series : string -> result (list LabelSet))
    (serviceLabel serviceName metricName : string) (sampleLimit : Z)
    (labels : list LabelInfo.t) :
  GetLabelsForMetric range Series serviceLabel serviceName metricName sampleLimit
  = inr labels →
  Sorted more_unique labels ∧ NoDup (LabelInfo.Name <$> labels).
Proof.
  unfold GetLabelsForMetric.
  destruct (Series (selector metricName serviceLabel serviceName)) as [e|series];
    [done|].
  intros [= <-]. split; [apply (Sorted_merge_sort more_unique (Total0 := more_unique_total))|].
  unfold sort_labels. rewrite merge_sort_Permutation.
  rewrite <- list_fmap_compose.
  rewrite (fmap_Permutation _ _ _ (range_perm _ _)).
  rewrite (list_fmap_ext _ fst (map_to_list (collect_label_values range serviceLabel series))).
  - apply NoDup_fst_map_to_list.
  - by intros _ [name values] _.
Qed.

(** X12: every sample value of a returned label is a value that some
    series gives to that label; and when the limit is at least the number
    of unique values, every such value is among the samples. *)
Theorem sample_values_are_observed
    (Series : string -> result (list LabelSet))
    (serviceLabel serviceName metricName : string) (sampleLimit : Z)
    (series : list LabelSet) (labels : list LabelInfo.t) :
  Series (selector metricName serviceLabel serviceName) = inr series →
  GetLabelsForMetric range Series serviceLabel serviceName metricName sampleLimit
  = inr labels →
  ∀ li, li ∈ labels →
    (∀ v, v ∈ LabelInfo.SampleValues li → v ∈ observed series (LabelInfo.Name li))
    ∧ (LabelInfo.UniqueValues li <= sampleLimit →
       ∀ v, v ∈ observed series (LabelInfo.Name li) → v ∈ LabelInfo.SampleValues li).
Proof.
  intros HS Hget li Hli.
  destruct (proj1 (ClientFacts.elem_of_GetLabelsForMetric range range_perm
                     _ _ _ _ _ _ _ li HS Hget) Hli) as (name & _ & _ & Heq).
  rewrite Heq, ClientFacts.SampleValues_build_label.
  cbn [build_label LabelInfo.Name LabelInfo.UniqueValues].
  unfold sort_strings. split.
  - intros v Hv. rewrite merge_sort_Permutation in Hv.
    apply elem_of_take in Hv as (i & Hv & _).
    apply list_elem_of_lookup_2 in Hv.
    apply (proj1 (ClientFacts.elem_of_range range range_perm _ _)) in Hv.
    by apply elem_of_elements in Hv.
  - intros Hle v Hv. rewrite merge_sort_Permutation.
    rewrite take_ge.
    + apply (proj2 (ClientFacts.elem_of_range range range_perm _ _)).
      by apply elem_of_elements.
    + rewrite (Permutation_length (range_perm _ _)).
      change (length (elements (observed series name))) with (size (observed series name)).
      lia.
Qed.

End WithIterationOrder.

Lemma GetLabelsForMetric_sorted_distinct_witness :
  ∃ labels,
    GetLabelsForMetric backwards checkout_api "service" "checkout"
      "http_requests_total" 2 = inr labels
    ∧ Sorted more_unique labels ∧ NoDup (LabelInfo.Name <$> labels).
Proof.
  eexists. split; [reflexivity|].
  apply (GetLabelsForMetric_sorted_distinct backwards ClientFacts.backwards_perm
           checkout_api "service" "checkout" "http_requests_total" 2).
  reflexivity.
Defined.

Lemma sample_values_are_observed_witness :
  ∃ labels,
    GetLabelsForMetric in_order checkout_api "service" "checkout"
      "http_requests_total" 3 = inr labels
    ∧ ∀ li, li ∈ labels →
        (∀ v, v ∈ LabelInfo.SampleValues li →
              v ∈ observed checkout_series (LabelInfo.Name li))
        ∧ (LabelInfo.UniqueValues li <= 3 →
           ∀ v, v ∈ observed checkout_series (LabelInfo.Name li) →
                v ∈ LabelInfo.SampleValues li).
Proof.
  eexists. split; [reflexivity|].
  apply (sample_values_are_observed in_order ClientFacts.in_order_perm
           checkout_api "service" "checkout" "http_requests_total" 3
           checkout_series); reflexivity.
Defined.

End ClientMoreFacts.

(** ** The collector, continued *)

Module CollectorMoreFacts.

Import Go Client models Collector CollectorMore.
Local Open Scope Z_scope.

(** The label loop touches the labels table only, and appends one row
    for each label the repository accepts. *)
Lemma store_labels_rows w i j id k labelInfos st :
  storage.snapshots (db (store_labels w i j id k labelInfos st).2)
    = storage.snapshots (db st)
  ∧ storage.services (db (store_labels w i j id k labelInfos st).2)
    = storage.services (db st)
  ∧ storage.metrics (db (store_labels w i j id k labelInfos st).2)
    = storage.metrics (db st)
  ∧ ∃ rows,
      storage.labels (db (store_labels w i j id k labelInfos st).2)
        = storage.labels (db st) ++ rows
      ∧ Forall2 (is_label_row id) (accepted_labels w i j k labelInfos) rows.
Proof.
  revert k st. induction labelInfos as [|label rest IH]; intros k st.
  - repeat split; try done. exists []. by rewrite app_nil_r.
  - cbn [store_labels accepted_labels]. unfold bind, repo_create.
    destruct (labels_Create w i j k) as [e|].
    + unfold slog, emit. cbn [fst snd].
      match goal with |- context [store_labels w i j id (S k) rest ?s] =>
        destruct (IH (S k) s) as (H1 & H2 & H3 & rows & H4 & H5)
      end.
      cbn [db] in *. repeat split; try done. by exists rows.
    + cbn [storage.insert_label fst snd]. unfold ret.
      match goal with |- context [store_labels w i j id (S k) rest ?s] =>
        destruct (IH (S k) s) as (H1 & H2 & H3 & rows & H4 & H5)
      end.
      cbn [db storage.snapshots storage.services storage.metrics storage.labels] in *.
      repeat split; try done.
      eexists (_ :: rows). split; [rewrite H4; by rewrite <- app_assoc|].
      constructor; [|done]. by repeat split.
Qed.

(** X13: [collectMetric] fails exactly when the metric row cannot be
    created, and then writes nothing.  Otherwise it appends one metric row
    whose label count is the number of labels fetched (none when fetching
    fails), and one label row for each of those labels that the labels
    repository accepts, each pointing to the new metric row; a label row
    that is refused is skipped and does not change the count. *)
Theorem collectMetric_rows (w : world) (i j : nat) (serviceSnapshotID : Z)
    (serviceName : string) (metric : MetricInfo.t) (st : state) :
  let run := collectMetric w i j serviceSnapshotID serviceName metric st in
  match metrics_Create w i j with
  | Some e => run.1 = Some e ∧ db run.2 = db st
  | None =>
      run.1 = None
      ∧ storage.snapshots (db run.2) = storage.snapshots (db st)
      ∧ storage.services (db run.2) = storage.services (db st)
      ∧ storage.metrics (db run.2)
        = storage.metrics (db st)
          ++ [ {| MetricSnapshot.ID := next_metric_id st;
                  MetricSnapshot.ServiceSnapshotID := serviceSnapshotID;
                  MetricSnapshot.MetricName := MetricInfo.Name metric;
                  MetricSnapshot.SeriesCount := MetricInfo.SeriesCount metric;
                  MetricSnapshot.LabelCount := len (fetched_labels w i j) |} ]
      ∧ ∃ rows,
          storage.labels (db run.2) = storage.labels (db st) ++ rows
          ∧ Forall2 (is_label_row (next_metric_id st))
                    (accepted_labels w i j 0 (fetched_labels w i j)) rows
  end.
Proof.
  cbv zeta. unfold collectMetric, fetched_labels, next_metric_id, bind, repo_create.
  destruct (GetLabelsForMetric w i j) as [e|ls];
    destruct (metrics_Create w i j) as [e'|]; cbn [fst snd slog emit ret db];
    try done.
  - cbn [accepted_labels store_labels ret fst snd db storage.insert_metric
         storage.metrics storage.labels storage.snapshots storage.services].
    repeat split; try done. exists []. by rewrite app_nil_r.
  - cbn [storage.insert_metric fst snd].
    match goal with |- context [store_labels w i j ?id 0 ls ?s] =>
      destruct (store_labels_rows w i j id 0 ls s) as (H1 & H2 & H3 & rows & H4 & H5);
      destruct (store_labels w i j id 0 ls s) as [u st1]
    end.
    cbn [fst snd db storage.snapshots storage.services storage.metrics
         storage.labels] in *.
    repeat split; try done. by exists rows.
Qed.

Lemma adds_metrics_refl ssid db : adds_metrics ssid db db.
Proof.
  repeat split; try done. exists [], []. by rewrite !app_nil_r.
Qed.

Lemma adds_metrics_trans ssid db1 db2 db3 :
  adds_metrics ssid db1 db2 → adds_metrics ssid db2 db3 → adds_metrics ssid db1 db3.
Proof.
  intros (H1 & H2 & m1 & l1 & H3 & H4 & H5 & H6)
         (I1 & I2 & m2 & l2 & I3 & I4 & I5 & I6).
  split; [congruence|]. split; [congruence|].
  exists (m1 ++ m2), (l1 ++ l2).
  split; [rewrite I3, H3; by rewrite <- app_assoc|].
  split; [rewrite I4, H4; by rewrite <- app_assoc|].
  split; [by apply Forall_app|].
  apply Forall_app. split.
  - eapply Forall_impl; [exact H6|]. intros r Hr. rewrite fmap_app. set_solver.
  - eapply Forall_impl; [exact I6|]. intros r Hr. rewrite fmap_app. set_solver.
Qed.

Lemma label_rows_of_metric id labelInfos rows (m : MetricSnapshot.t) :
  MetricSnapshot.ID m = id →
  Forall2 (is_label_row id) labelInfos rows →
  Forall (λ r, LabelSnapshot.MetricSnapshotID r ∈ MetricSnapshot.ID <$> [m]) rows.
Proof.
  intros Hm H. induction H as [|label row ls rows (Hrow & _) _ IH]; [done|].
  constructor; [|done]. rewrite Hrow, <- Hm. cbn. set_solver.
Qed.

Lemma collectMetric_adds w i j ssid name metric st :
  adds_metrics ssid (db st) (db (collectMetric w i j ssid name metric st).2).
Proof.
  unfold collectMetric, bind, repo_create.
  destruct (GetLabelsForMetric w i j) as [e|ls];
    destruct (metrics_Create w i j) as [e'|]; cbn [fst snd slog emit ret db];
    try apply adds_metrics_refl;
    cbn [storage.insert_metric fst snd];
    match goal with |- context [store_labels w i j ?id 0 ?l ?s] =>
      destruct (store_labels_rows w i j id 0 l s) as (H1 & H2 & H3 & rows & H4 & H5);
      destruct (store_labels w i j id 0 l s) as [u st1]
    end;
    cbn [fst snd db storage.snapshots storage.services storage.metrics
         storage.labels] in *;
    (split; [done|]); (split; [done|]); eexists [_], rows;
    (split; [exact H3|]); (split; [exact H4|]); (split; [by constructor|]);
    by eapply label_rows_of_metric.
Qed.

Lemma collect_metrics_adds w i ssid name j metricInfos st :
  adds_metrics ssid (db st) (db (collect_metrics w i ssid name j metricInfos st).2).
Proof.
  revert j st. induction metricInfos as [|metric rest IH]; intros j st.
  - apply adds_metrics_refl.
  - cbn [collect_metrics]. destruct (ctx_Err_metric w i j) as [e|].
    { apply adds_metrics_refl. }
    unfold bind.
    pose proof (collectMetric_adds w i j ssid name metric st) as H1.
    destruct (collectMetric w i j ssid name metric st) as [r st1].
    cbn [snd] in H1.
    destruct r as [e|]; unfold slog, emit, ret;
      match goal with |- context [collect_metrics w i ssid name (S j) rest ?s] =>
        pose proof (IH (S j) s) as H2
      end; cbn [db] in H2; by eapply adds_metrics_trans.
Qed.

Lemma adds_services_refl sid db : adds_services sid db db.
Proof.
  split; [done|]. exists [], [], []. by rewrite !app_nil_r.
Qed.

Lemma adds_services_trans sid db1 db2 db3 :
  adds_services sid db1 db2 → adds_services sid db2 db3 → adds_services sid db1 db3.
Proof.
  intros (H1 & s1 & m1 & l1 & H2 & H3 & H4 & H5 & H6 & H7)
         (I1 & s2 & m2 & l2 & I2 & I3 & I4 & I5 & I6 & I7).
  split; [congruence|].
  exists (s1 ++ s2), (m1 ++ m2), (l1 ++ l2).
  split; [rewrite I2, H2; by rewrite <- app_assoc|].
  split; [rewrite I3, H3; by rewrite <- app_assoc|].
  split; [rewrite I4, H4; by rewrite <- app_assoc|].
  split; [by apply Forall_app|].
  split; apply Forall_app; split.
  - eapply Forall_impl; [exact H6|]. intros r Hr. rewrite fmap_app. set_solver.
  - eapply Forall_impl; [exact I6|]. intros r Hr. rewrite fmap_app. set_solver.
  - eapply Forall_impl; [exact H7|]. intros r Hr. rewrite fmap_app. set_solver.
  - eapply Forall_impl; [exact I7|]. intros r Hr. rewrite fmap_app. set_solver.
Qed.

Lemma collectService_adds w i sid svc st :
  adds_services sid (db st) (db (collectService w i sid svc st).2).
Proof.
  unfold collectService.
  destruct (GetMetricsForService w i) as [e|metricInfos];
    [apply adds_services_refl|].
  unfold bind, repo_create.
  destruct (services_Create w i) as [e|]; [apply adds_services_refl|].
  cbn [storage.insert_service fst snd].
  match goal with |- context [collect_metrics w i ?id ?n 0 metricInfos ?s] =>
    pose proof (collect_metrics_adds w i id n 0 metricInfos s)
      as (H1 & H2 & mrows & lrows & H3 & H4 & H5 & H6);
    destruct (collect_metrics w i id n 0 metricInfos s) as [stop st1]
  end.
  cbn [fst snd db storage.snapshots storage.services storage.metrics
       storage.labels] in *.
  assert (adds_services sid (db st) (db st1)) as Hadds.
  { split; [done|]. eexists [_], mrows, lrows.
    split; [exact H2|]. split; [exact H3|]. split; [exact H4|].
    split; [by constructor|]. split; [|done].
    eapply Forall_impl; [exact H5|]. intros r ->. cbn. set_solver. }
  by destruct stop.
Qed.

Lemma collect_services_adds w sid total i svcs acc st :
  adds_services sid (db st) (db (collect_services w sid total i svcs acc st).2).
Proof.
  revert i acc st. induction svcs as [|svc rest IH]; intros i acc st.
  - apply adds_services_refl.
  - rewrite CollectorFacts.collect_services_cons.
    destruct (ctx_Err_service w i) as [e|]; [apply adds_services_refl|].
    cbv zeta.
    match goal with |- context [collectService w i sid svc ?s] =>
      pose proof (collectService_adds w i sid svc s) as H1;
      destruct (collectService w i sid svc s) as [[e|row] st1]
    end; cbn [snd db] in H1;
      match goal with |- context [collect_services w sid total (S i) rest ?a ?s] =>
        pose proof (IH (S i) a s) as H2
      end; cbn [db] in H2; by eapply adds_services_trans.
Qed.

(** The store a run of [Collect] leaves: that of the start when the
    snapshot cannot be created; otherwise the new snapshot row, what the
    service loop added, and after that the update of the snapshot row if
    the run got that far. *)
Lemma Collect_store w st :
  match snapshots_Create w with
  | Some _ => db (Collect w st).2 = db st
  | None =>
      ∃ db3,
        adds_services (next_snapshot_id st)
          (storage.insert_snapshot (initial_snapshot w 0) (db st)).2 db3
        ∧ (db (Collect w st).2 = db3
           ∨ ∃ s, Snapshot.ID s = next_snapshot_id st
                  ∧ db (Collect w st).2 = storage.update_snapshot s db3)
  end.
Proof.
  rewrite CollectorFacts.Collect_run. cbv zeta.
  destruct (snapshots_Create w) as [e|]; [done|].
  destruct (DiscoverServices w) as [e|svcs].
  { eexists. split; [apply adds_services_refl|]. by left. }
  match goal with |- context [collect_services w ?id ?n 0 svcs 0 ?s] =>
    pose proof (collect_services_adds w id n 0 svcs 0 s) as Hadds;
    destruct (collect_services w id n 0 svcs 0 s) as [[e|totalSeries] st3]
  end; cbn [snd db] in Hadds.
  { exists (db st3). split; [done|]. by left. }
  exists (db st3). split; [done|].
  destruct (snapshots_Update w) as [e|]; [by left|].
  right. eexists. split; [|reflexivity]. done.
Qed.

Lemma update_fresh_snapshot id s rows new :
  (∀ r, r ∈ rows → Snapshot.ID r < id) → Snapshot.ID new = id → Snapshot.ID s = id →
  (λ r, if Snapshot.ID r =? Snapshot.ID s then s else r) <$> (rows ++ [new])
  = rows ++ [s].
Proof.
  intros Hlt Hnew Hs. rewrite fmap_app. cbn [fmap list_fmap].
  rewrite Hnew, Hs, Z.eqb_refl. f_equal.
  induction rows as [|r rows IH]; [done|]. cbn [fmap list_fmap].
  assert (Snapshot.ID r < id) as Hr by (apply Hlt; left).
  replace (Snapshot.ID r =? id) with false by lia.
  f_equal. apply IH. intros r' Hin. apply Hlt. by right.
Qed.

Lemma snapshot_ids_below st r :
  r ∈ storage.snapshots (db st) → Snapshot.ID r < next_snapshot_id st.
Proof.
  intros Hr. apply CollectorFacts.fresh_id_gt. apply list_elem_of_fmap. eauto.
Qed.

(** The snapshots table after a run that created its snapshot: the old
    rows, then one row under the id of the run. *)
Lemma Collect_snapshots w st :
  snapshots_Create w = None →
  ∃ row, Snapshot.ID row = next_snapshot_id st
         ∧ storage.snapshots (db (Collect w st).2)
           = storage.snapshots (db st) ++ [row].
Proof.
  intros Hc. pose proof (Collect_store w st) as H. rewrite Hc in H.
  destruct H as (db3 & (Hs & _) & [->|(s & Hid & ->)]).
  - rewrite Hs. cbn [storage.insert_snapshot snd storage.snapshots].
    eexists. split; [|reflexivity]. reflexivity.
  - exists s. split; [done|]. cbn [storage.update_snapshot storage.snapshots].
    rewrite Hs. cbn [storage.insert_snapshot snd storage.snapshots].
    apply (update_fresh_snapshot (next_snapshot_id st)); [|done..].
    intros r. apply snapshot_ids_below.
Qed.

(** X14: a run of [Collect], whatever its outcome, only appends to the
    store: the rows that were in the four tables are still there,
    unchanged and in the same place; the snapshots table gains at most one
    row, under a fresh id. *)
Theorem Collect_only_appends (w : world) (st : state) :
  (storage.snapshots (db (Collect w st).2) = storage.snapshots (db st)
   ∨ ∃ row, Snapshot.ID row = next_snapshot_id st
            ∧ (∀ r, r ∈ storage.snapshots (db st) → Snapshot.ID r < Snapshot.ID row)
            ∧ storage.snapshots (db (Collect w st).2)
              = storage.snapshots (db st) ++ [row])
  ∧ storage.services (db st) `prefix_of` storage.services (db (Collect w st).2)
  ∧ storage.metrics (db st) `prefix_of` storage.metrics (db (Collect w st).2)
  ∧ storage.labels (db st) `prefix_of` storage.labels (db (Collect w st).2).
Proof.
  pose proof (Collect_store w st) as H.
  pose proof (Collect_snapshots w st) as Hsnap.
  destruct (snapshots_Create w) as [e|].
  { rewrite H. split; [by left|]. repeat split; exists []; by rewrite app_nil_r. }
  split.
  { right. destruct (Hsnap eq_refl) as (row & Hid & Heq). exists row.
    split; [done|]. split; [|done]. intros r Hr. rewrite Hid.
    by apply snapshot_ids_below. }
  destruct H as (db3 & (_ & srows & mrows & lrows & H1 & H2 & H3 & _) & Hdb).
  cbn [storage.insert_snapshot snd storage.services storage.metrics
       storage.labels] in H1, H2, H3.
  assert (storage.services (db (Collect w st).2) = storage.services db3
          ∧ storage.metrics (db (Collect w st).2) = storage.metrics db3
          ∧ storage.labels (db (Collect w st).2) = storage.labels db3)
    as (-> & -> & ->).
  { by destruct Hdb as [->|(s & _ & ->)]. }
  rewrite H1, H2, H3. repeat split; by eexists.
Qed.

(** X15: a run of [Collect], whatever its outcome, keeps the store
    referentially intact: if every service row had its snapshot row,
    every metric row its service row and every label row its metric row
    before the run, the same holds after it. *)
Theorem Collect_keeps_integrity (w : world) (st : state) :
  referentially_intact (db st) →
  referentially_intact (db (Collect w st).2).
Proof.
  intros (Hs & Hm & Hl).
  pose proof (Collect_store w st) as H.
  pose proof (Collect_snapshots w st) as Hsnap.
  destruct (snapshots_Create w) as [e|]; [by rewrite H|].
  destruct (Hsnap eq_refl) as (row & Hid & Hsnaps). clear Hsnap.
  destruct H as (db3 & (_ & srows & mrows & lrows & H1 & H2 & H3 & H4 & H5 & H6)
                 & Hdb).
  cbn [storage.insert_snapshot snd storage.services storage.metrics
       storage.labels] in H1, H2, H3.
  assert (storage.services (db (Collect w st).2) = storage.services (db st) ++ srows
          ∧ storage.metrics (db (Collect w st).2) = storage.metrics (db st) ++ mrows
          ∧ storage.labels (db (Collect w st).2) = storage.labels (db st) ++ lrows)
    as (E1 & E2 & E3).
  { rewrite <- H1, <- H2, <- H3. by destruct Hdb as [->|(s & _ & ->)]. }
  split; [|split].
  - intros r. rewrite E1, Hsnaps. intros [Hr|Hr]%elem_of_app.
    + destruct (Hs r Hr) as (p & Hp & Hpid). exists p. split; [|done].
      apply elem_of_app. by left.
    + exists row. split; [apply elem_of_app; right; by left|].
      rewrite Forall_forall in H4. by rewrite (H4 r Hr).
  - intros r. rewrite E1, E2. intros [Hr|Hr]%elem_of_app.
    + destruct (Hm r Hr) as (p & Hp & Hpid). exists p. split; [|done].
      apply elem_of_app. by left.
    + rewrite Forall_forall in H5.
      destruct (proj1 (list_elem_of_fmap _ _ _) (H5 r Hr)) as (p & Hpid & Hp).
      exists p. split; [|done]. apply elem_of_app. by right.
  - intros r. rewrite E2, E3. intros [Hr|Hr]%elem_of_app.
    + destruct (Hl r Hr) as (p & Hp & Hpid). exists p. split; [|done].
      apply elem_of_app. by left.
    + rewrite Forall_forall in H6.
      destruct (proj1 (list_elem_of_fmap _ _ _) (H6 r Hr)) as (p & Hpid & Hp).
      exists p. split; [|done]. apply elem_of_app. by right.
Qed.

Lemma empty_store_intact : referentially_intact storage.empty.
Proof. repeat split; by intros r ?%elem_of_nil. Qed.

(** X15 on two runs in a row from the empty store, the second of which
    is cancelled. *)
Lemma Collect_keeps_integrity_witness :
  referentially_intact
    (db (Collect cancelled_world (Collect flaky_world fresh_state).2).2).
Proof.
  apply (Collect_keeps_integrity cancelled_world).
  apply (Collect_keeps_integrity flaky_world fresh_state).
  apply empty_store_intact.
Defined.

Lemma total_nonneg l : Forall (λ x, 0 <= x) l → 0 <= total l.
Proof.
  induction 1 as [|x l Hx _ IH]; [done|]. cbn [total foldr]. fold (total l). lia.
Qed.

Lemma sum64_total acc l :
  0 <= acc → Forall (λ x, 0 <= x) l → acc + total l < 2 ^ 63 →
  sum64 acc l = acc + total l.
Proof.
  intros Hacc Hl. revert acc Hacc. induction Hl as [|x l Hx Hl IH]; intros acc Hacc.
  - cbn. lia.
  - cbn [total foldr]. fold (total l). intros Hsum.
    pose proof (total_nonneg l Hl) as Hnn.
    unfold sum64. cbn [foldl]. fold (sum64 (wrap64 (acc + x)) l).
    rewrite LegacyClientMoreFacts.wrap64_small by lia. rewrite IH; lia.
Qed.

Lemma select_counts p i svcs :
  Forall (λ svc, 0 <= ServiceInfo.SeriesCount svc) svcs →
  Forall (λ x, 0 <= x) (ServiceInfo.SeriesCount <$> select p i svcs)
  ∧ total (ServiceInfo.SeriesCount <$> select p i svcs)
    <= total (ServiceInfo.SeriesCount <$> svcs).
Proof.
  intros H. revert i. induction H as [|svc svcs Hsvc _ IH]; intros i.
  - by split.
  - cbn [select]. destruct (IH (S i)) as [I1 I2].
    destruct (p i); cbn [fmap list_fmap total foldr];
      fold (total (ServiceInfo.SeriesCount <$> svcs));
      fold (total (ServiceInfo.SeriesCount <$> select p (S i) svcs)).
    + split; [by constructor|lia].
    + split; [done|lia].
Qed.

(** What a run of [Collect] that succeeds returns. *)
Lemma Collect_result w st res st' :
  Collect w st = (inr res, st') →
  ∃ svcs,
    DiscoverServices w = inr svcs
    ∧ res = {| SnapshotID := next_snapshot_id st;
               TotalServices := len svcs;
               TotalSeries :=
                 sum64 0 (ServiceInfo.SeriesCount <$> select (collected w) 0 svcs);
               Duration := since_end w |}.
Proof.
  rewrite CollectorFacts.Collect_run. cbv zeta.
  destruct (snapshots_Create w); [done|].
  destruct (DiscoverServices w) as [e|svcs]; [done|].
  match goal with |- context [collect_services w ?id ?n 0 svcs 0 ?s] =>
    destruct (CollectorFacts.collect_services_spec w id n 0 svcs 0 s)
      as (_ & _ & _ & H5);
    destruct (collect_services w id n 0 svcs 0 s) as [looped st3]
  end.
  cbn [fst] in H5. destruct looped as [e|totalSeries]; [done|].
  destruct (snapshots_Update w); [done|]. intros [= <- <-].
  destruct (service_stop w 0 svcs); [done|]. injection H5 as ->. by exists svcs.
Qed.

(** X16: when the series counts of the discovered services are not
    negative and their sum fits in [int64], the total a successful run
    returns is the plain sum of the counts of the services collected
    without error: no wrap-around occurs, the total is at most the sum
    over all discovered services, and equals it when no collection
    failed. *)
Theorem Collect_total_without_overflow (w : world) (st st' : state)
    (res : CollectResult) (svcs : list ServiceInfo.t) :
  Collect w st = (inr res, st') →
  DiscoverServices w = inr svcs →
  Forall (λ svc, 0 <= ServiceInfo.SeriesCount svc) svcs →
  total (ServiceInfo.SeriesCount <$> svcs) < 2 ^ 63 →
  TotalSeries res
  = total (ServiceInfo.SeriesCount <$> select (collected w) 0 svcs)
  ∧ 0 <= TotalSeries res <= total (ServiceInfo.SeriesCount <$> svcs)
  ∧ ((∀ i, (i < length svcs)%nat → collected w i = true) →
     TotalSeries res = total (ServiceInfo.SeriesCount <$> svcs)).
Proof.
  intros Hrun Hd Hnn Hfit.
  destruct (Collect_result w st res st' Hrun) as (svcs' & Hd' & ->).
  rewrite Hd in Hd'. injection Hd' as <-. cbn [TotalSeries].
  destruct (select_counts (collected w) 0 svcs Hnn) as [Hsel Hle].
  pose proof (total_nonneg _ Hsel) as Hpos.
  rewrite sum64_total by (try done; lia).
  split; [lia|]. split; [lia|].
  intros Hall. rewrite CollectorFacts.select_all; [lia|].
  intros k Hk. apply Hall. lia.
Qed.

(** X16 on the run of [flaky_world]: 100 + 10 of the 160 series. *)
Lemma Collect_total_without_overflow_witness :
  TotalSeries flaky_result = 110
  ∧ 0 <= TotalSeries flaky_result <= 160.
Proof.
  destruct (Collect_total_without_overflow flaky_world fresh_state
              (Collect flaky_world fresh_state).2 flaky_result three_services)
    as (H1 & H2 & _).
  - vm_compute; reflexivity.
  - reflexivity.
  - repeat constructor; vm_compute; discriminate.
  - reflexivity.
  - split; [exact H1|exact H2].
Defined.

(** X17: a run of [Collect] that fails after its snapshot row has been
    created undoes nothing: the snapshot row stays in the table with the
    zero totals it was created with, and so do the service rows written
    before the failure, one for each service the loop reached whose row
    could be created. *)
Theorem Collect_error_keeps_partial_scan (w : world) (st : state) (e : error) :
  snapshots_Create w = None →
  (Collect w st).1 = inl e →
  storage.snapshots (db (Collect w st).2)
  = storage.snapshots (db st) ++ [initial_snapshot w (next_snapshot_id st)]
  ∧ (∀ e', DiscoverServices w = inl e' →
       storage.services (db (Collect w st).2) = storage.services (db st))
  ∧ (∀ svcs, DiscoverServices w = inr svcs →
       ∃ rows,
         storage.services (db (Collect w st).2) = storage.services (db st) ++ rows
         ∧ Forall2 (is_row_of (next_snapshot_id st))
                   (select (row_created w) 0 (reached w 0 svcs)) rows).
Proof.
  rewrite CollectorFacts.Collect_run. cbv zeta. intros ->.
  destruct (DiscoverServices w) as [e'|svcs].
  { intros _. cbn [fst snd db]. split; [done|]. split; [done|]. by intros svcs [=]. }
  match goal with |- context [collect_services w ?id ?n 0 svcs 0 ?s] =>
    destruct (CollectorFacts.collect_services_spec w id n 0 svcs 0 s)
      as (H1 & _ & (rows & H3 & H4) & _);
    destruct (collect_services w id n 0 svcs 0 s) as [looped st3]
  end.
  cbn [fst snd db] in H1, H3.
  assert (storage.snapshots (db st3)
          = storage.snapshots (db st) ++ [initial_snapshot w (next_snapshot_id st)]
          ∧ ∃ rows,
              storage.services (db st3) = storage.services (db st) ++ rows
              ∧ Forall2 (is_row_of (next_snapshot_id st))
                        (select (row_created w) 0 (reached w 0 svcs)) rows)
    as [Hsnap Hrows].
  { split; [done|]. by exists rows. }
  destruct looped as [e0|totalSeries].
  { intros _. cbn [snd]. split; [done|]. split; [by intros e' [=]|].
    by intros svcs' [= <-]. }
  destruct (snapshots_Update w) as [e0|]; [|done].
  intros _. cbn [snd]. split; [done|]. split; [by intros e' [=]|].
  by intros svcs' [= <-].
Qed.

(** X17 on the run that is cancelled at the second service: the row of
    service a stays, under a snapshot that says 0 services. *)
Lemma Collect_error_keeps_partial_scan_witness :
  (Collect cancelled_world fresh_state).1 = inl Canceled
  ∧ storage.snapshots (db (Collect cancelled_world fresh_state).2)
    = [initial_snapshot cancelled_world 1]
  ∧ ∃ rows,
      storage.services (db (Collect cancelled_world fresh_state).2) = rows
      ∧ Forall2 (is_row_of 1) [service "a" 100] rows.
Proof.
  split; [vm_compute; reflexivity|].
  destruct (Collect_error_keeps_partial_scan cancelled_world fresh_state Canceled)
    as (H1 & _ & H2).
  - reflexivity.
  - vm_compute; reflexivity.
  - split; [exact H1|]. destruct (H2 three_services eq_refl) as (rows & H3 & H4).
    exists rows. split; [exact H3|exact H4].
Defined.

End CollectorMoreFacts.

(** ** The analyzer, continued *)

Module AnalyzerMoreFacts.

Import Go models Analyzer AnalyzerMore.
Local Open Scope Z_scope.

(** [StartAnalysis] from the lock on, once its checks have passed. *)
Lemma StartAnalysis_startable w currentID previousID cur prev st :
  startable w st currentID previousID cur prev →
  StartAnalysis w currentID previousID st
  = launch w currentID previousID cur prev st.
Proof.
  intros (H1 & H2 & H3 & H4 & H5 & H6).
  unfold StartAnalysis, bind, snapshots_GetByID, analysisRepo_GetByPair, ret.
  unfold snapshot_row in H3, H4. unfold analysis_row in H6.
  rewrite H1, H3, H2, H4, H5.
  destruct (List.find _ (analyses st)) as [ex|]; [|done].
  case_decide as Hst; [|done]. by destruct (H6 ex eq_refl).
Qed.

(** X18: while an analysis is running [StartAnalysis] starts nothing and
    changes nothing: the table of analyses, the started jobs and the
    global status stay as they are.  It succeeds only by handing out the
    completed analysis of the pair; a request that passes the checks is
    refused, with an error that names the pair of the running analysis. *)
Theorem StartAnalysis_while_running (w : world) (currentID previousID : Z)
    (st : state) :
  running st = true →
  analyses (StartAnalysis w currentID previousID st).2 = analyses st
  ∧ jobs (StartAnalysis w currentID previousID st).2 = jobs st
  ∧ snapshots (StartAnalysis w currentID previousID st).2 = snapshots st
  ∧ GetGlobalStatus (StartAnalysis w currentID previousID st).2 = GetGlobalStatus st
  ∧ (∀ a, (StartAnalysis w currentID previousID st).1 = inr a →
          analysis_row st currentID previousID = Some a
          ∧ SnapshotAnalysis.Status a = AnalysisStatusCompleted)
  ∧ (∀ cur prev, startable w st currentID previousID cur prev →
       (StartAnalysis w currentID previousID st).1
       = inl ("another analysis is already running (snapshots "
              +:+ pretty (currentSnapshotID st) +:+ " vs "
              +:+ pretty (previousSnapshotID st) +:+ ")")).
Proof.
  intros Hrun.
  assert (∀ cur prev,
            launch w currentID previousID cur prev st
            = (inl ("another analysis is already running (snapshots "
                    +:+ pretty (currentSnapshotID st) +:+ " vs "
                    +:+ pretty (previousSnapshotID st) +:+ ")"), st)) as Hlaunch.
  { intros cur prev. unfold launch. by rewrite Hrun. }
  split; [|split; [|split; [|split; [|split]]]];
    try (intros cur prev Hok;
         by rewrite (StartAnalysis_startable _ _ _ _ _ _ Hok), Hlaunch);
    unfold StartAnalysis, bind, snapshots_GetByID, analysisRepo_GetByPair, ret,
      analysis_row;
    (destruct (snapshots_GetByID_err w currentID); [done|]);
    (destruct (List.find _ (snapshots st)) as [cur|]; [|done]);
    (destruct (snapshots_GetByID_err w previousID); [done|]);
    (destruct (List.find _ (snapshots st)) as [prev|]; [|done]);
    (destruct (analysisRepo_GetByPair_err w); [done|]); cbn [fst snd];
    (destruct (List.find _ (analyses st)) as [ex|]; [|by rewrite Hlaunch]);
    (case_decide; [|by rewrite Hlaunch]); cbn [fst snd]; try done.
  by intros a [= <-].
Qed.

(** X18 on the busy analyzer: the pair (5, 3) is being analysed, and a
    request for it is refused. *)
Lemma StartAnalysis_while_running_witness :
  StartAnalysis (quiet_world answer_at_once) 5 3 busy_state
  = (inl "another analysis is already running (snapshots 5 vs 3)", busy_state).
Proof.
  destruct (StartAnalysis_while_running (quiet_world answer_at_once) 5 3 busy_state
              eq_refl) as (_ & _ & _ & _ & _ & H).
  apply injective_projections.
  - rewrite (H (snapshot 5 160) (snapshot 3 150)); [reflexivity|].
    repeat split; intros ex [= <-]; discriminate.
  - vm_compute; reflexivity.
Defined.

Lemma find_same_pair_new currentID previousID row rows :
  same_pair currentID previousID row = true →
  List.find (same_pair currentID previousID)
    (List.filter (λ a, negb (same_pair currentID previousID a)) rows ++ [row])
  = Some row.
Proof.
  intros Hrow. induction rows as [|r rows IH]; simpl.
  - by rewrite Hrow.
  - destruct (same_pair currentID previousID r) eqn:Hr; simpl; [done|].
    by rewrite Hr.
Qed.

(** X19: when the checks have passed, no analysis is running and the row
    can be created, [StartAnalysis] returns the new record with status
    Running, while the row it has put in the table, which a lookup of the
    pair now finds, is Pending, has a fresh id and no tool calls.  The
    analyzer is marked as running for the pair with progress
    "Initializing", and exactly one job is started, for that record and
    the two snapshots. *)
Theorem StartAnalysis_launches (w : world) (currentID previousID : Z)
    (cur prev : Snapshot.t) (st : state) :
  startable w st currentID previousID cur prev →
  running st = false →
  analysisRepo_Create_err w = None →
  ∃ row j,
    (StartAnalysis w currentID previousID st).1
    = inr (with_status AnalysisStatusRunning row)
    ∧ analysis_row (StartAnalysis w currentID previousID st).2 currentID previousID
      = Some row
    ∧ SnapshotAnalysis.Status row = AnalysisStatusPending
    ∧ SnapshotAnalysis.ToolCalls row = []
    ∧ SnapshotAnalysis.CompletedAt row = None
    ∧ (∀ a, a ∈ analyses st → SnapshotAnalysis.ID a < SnapshotAnalysis.ID row)
    ∧ jobs (StartAnalysis w currentID previousID st).2 = jobs st ++ [j]
    ∧ with_status AnalysisStatusRunning (job_analysis j)
      = with_status AnalysisStatusRunning row
    ∧ job_current j = cur ∧ job_previous j = prev
    ∧ GetGlobalStatus (StartAnalysis w currentID previousID st).2
      = {| AnalysisGlobalStatus.Running := true;
           AnalysisGlobalStatus.CurrentSnapshotID := currentID;
           AnalysisGlobalStatus.PreviousSnapshotID := previousID;
           AnalysisGlobalStatus.Progress := "Initializing" |}.
Proof.
  intros Hok Hidle Hcreate. rewrite (StartAnalysis_startable _ _ _ _ _ _ Hok).
  unfold launch, analysisRepo_Create, go. rewrite Hidle, Hcreate.
  cbn [fst snd analyses set_status set_analyses jobs].
  eexists _, _. split; [reflexivity|].
  split.
  { unfold analysis_row. cbn [analyses]. apply find_same_pair_new.
    unfold same_pair. cbn. by rewrite !Z.eqb_refl. }
  do 3 (split; [reflexivity|]).
  split.
  { intros a Ha. cbn [SnapshotAnalysis.ID]. apply CollectorFacts.fresh_id_gt.
    apply list_elem_of_fmap. eauto. }
  by repeat split.
Qed.

(** X19 on a blank analyzer: the analysis of the pair (5, 3) is started. *)
Lemma StartAnalysis_launches_witness :
  ∃ row j,
    (StartAnalysis (quiet_world answer_at_once) 5 3 blank_state).1
    = inr (with_status AnalysisStatusRunning row)
    ∧ analysis_row (StartAnalysis (quiet_world answer_at_once) 5 3 blank_state).2 5 3
      = Some row
    ∧ SnapshotAnalysis.Status row = AnalysisStatusPending
    ∧ jobs (StartAnalysis (quiet_world answer_at_once) 5 3 blank_state).2 = [j]
    ∧ running (StartAnalysis (quiet_world answer_at_once) 5 3 blank_state).2 = true.
Proof.
  destruct (StartAnalysis_launches (quiet_world answer_at_once) 5 3
              (snapshot 5 160) (snapshot 3 150) blank_state)
    as (row & j & H1 & H2 & H3 & _ & _ & _ & H4 & _ & _ & _ & H5).
  - repeat split; intros ex [=].
  - reflexivity.
  - reflexivity.
  - exists row, j. split; [exact H1|]. split; [exact H2|]. split; [exact H3|].
    split; [exact H4|]. exact (f_equal AnalysisGlobalStatus.Running H5).
Defined.

(** X20: when the checks have passed and no analysis is running but the
    row cannot be created, [StartAnalysis] returns the wrapped error,
    writes no row and starts no job.  The running flag is cleared again,
    yet the global status keeps the pair and the progress text of the
    attempt. *)
Theorem StartAnalysis_create_failure (w : world) (currentID previousID : Z)
    (cur prev : Snapshot.t) (st : state) (err : error) :
  startable w st currentID previousID cur prev →
  running st = false →
  analysisRepo_Create_err w = Some err →
  (StartAnalysis w currentID previousID st).1
  = inl ("failed to create analysis record: " +:+ err)
  ∧ analyses (StartAnalysis w currentID previousID st).2 = analyses st
  ∧ jobs (StartAnalysis w currentID previousID st).2 = jobs st
  ∧ GetGlobalStatus (StartAnalysis w currentID previousID st).2
    = {| AnalysisGlobalStatus.Running := false;
         AnalysisGlobalStatus.CurrentSnapshotID := currentID;
         AnalysisGlobalStatus.PreviousSnapshotID := previousID;
         AnalysisGlobalStatus.Progress := "Initializing" |}.
Proof.
  intros Hok Hidle Hcreate. rewrite (StartAnalysis_startable _ _ _ _ _ _ Hok).
  unfold launch, analysisRepo_Create. by rewrite Hidle, Hcreate.
Qed.

(** X20 on a blank analyzer whose repository is locked. *)
Lemma StartAnalysis_create_failure_witness :
  (StartAnalysis (create_fails answer_at_once) 5 3 blank_state).1
  = inl "failed to create analysis record: database is locked"
  ∧ GetGlobalStatus (StartAnalysis (create_fails answer_at_once) 5 3 blank_state).2
    = {| AnalysisGlobalStatus.Running := false;
         AnalysisGlobalStatus.CurrentSnapshotID := 5;
         AnalysisGlobalStatus.PreviousSnapshotID := 3;
         AnalysisGlobalStatus.Progress := "Initializing" |}.
Proof.
  destruct (StartAnalysis_create_failure (create_fails answer_at_once) 5 3
              (snapshot 5 160) (snapshot 3 150) blank_state "database is locked")
    as (H1 & _ & _ & H2).
  - repeat split; intros ex [=].
  - reflexivity.
  - reflexivity.
  - split; [exact H1|exact H2].
Defined.

Lemma same_key_refl a : same_key a a.
Proof. by repeat split. Qed.

Lemma same_key_with_status s a x : same_key a x → same_key a (with_status s x).
Proof. done. Qed.

Lemma same_key_finished s r e t a x : same_key a x → same_key a (finished s r e t x).
Proof. done. Qed.

Lemma same_key_append c a x : same_key a x → same_key a (append_tool_call c x).
Proof. done. Qed.

Lemma same_key_with_tool_calls cs a x :
  same_key a x → same_key a (with_tool_calls cs x).
Proof.
  revert x. induction cs as [|c cs IH]; intros x Hx; [done|].
  rewrite AnalyzerFacts.with_tool_calls_cons. by apply IH, same_key_append.
Qed.

#[local] Hint Resolve same_key_refl same_key_with_status same_key_finished
  same_key_append same_key_with_tool_calls : core.

Lemma row_rewritten_trans a r1 r2 r3 :
  row_rewritten a r1 r2 → row_rewritten a r2 r3 → row_rewritten a r1 r3.
Proof.
  intros [->|[Hid Hkey]]; [done|].
  intros [->|[Hid' Hkey']]; right; done.
Qed.

Lemma rewrites_refl a st : rewrites a st st.
Proof.
  repeat split; try done. apply Forall2_same_length_lookup_2; [done|].
  intros k r r' H1 H2. left. congruence.
Qed.

Lemma rewrites_trans a st1 st2 st3 :
  rewrites a st1 st2 → rewrites a st2 st3 → rewrites a st1 st3.
Proof.
  intros (H1 & H2 & H3 & H4 & H5 & H6) (I1 & I2 & I3 & I4 & I5 & I6).
  repeat split; try congruence.
  clear -H6 I6. revert I6. generalize (analyses st3).
  induction H6 as [|r r' rows rows' Hr _ IH]; intros rows3 I6.
  - inversion I6. constructor.
  - inversion I6 as [|? r3 ? rest3 Hr' Hrest]; subst.
    constructor; [by eapply row_rewritten_trans|by apply IH].
Qed.

Lemma preserves_ret {A} a (x : A) : preserves a (ret x).
Proof. intros st. apply rewrites_refl. Qed.

Lemma preserves_bind {A B} a (m : M A) (k : A → M B) :
  preserves a m → (∀ x, preserves a (k x)) → preserves a (bind m k).
Proof.
  intros Hm Hk st. unfold bind. specialize (Hm st).
  destruct (m st) as [x st1]. eapply rewrites_trans; [exact Hm|apply Hk].
Qed.

Lemma preserves_logger a lvl msg : preserves a (logger lvl msg).
Proof.
  intros st. pose proof (rewrites_refl a st) as (_ & _ & _ & _ & _ & H).
  by repeat split.
Qed.

Lemma preserves_updateProgress a p : preserves a (updateProgress p).
Proof.
  intros st. pose proof (rewrites_refl a st) as (_ & _ & _ & _ & _ & H).
  by repeat split.
Qed.

Lemma preserves_Update w site a x :
  same_key a x → preserves a (analysisRepo_Update w site x).
Proof.
  intros Hx st. unfold analysisRepo_Update.
  destruct (analysisRepo_Update_err w site); [apply rewrites_refl|].
  repeat split; try done. cbn [snd analyses set_analyses].
  apply Forall2_fmap_r, Forall2_same_length_lookup_2; [done|].
  intros k r r' H1 H2. assert (r' = r) as -> by congruence.
  unfold compose.
  destruct (SnapshotAnalysis.ID r =? SnapshotAnalysis.ID x) eqn:E; [|by left].
  right. split; [|done]. destruct Hx as [Hid _]. lia.
Qed.

Ltac preserves_step :=
  first
    [ apply preserves_ret
    | apply preserves_logger
    | apply preserves_updateProgress
    | apply preserves_Update; by auto
    | apply preserves_bind; [|intros ?]
    | match goal with
      | |- preserves _ (match ?x with _ => _ end) => destruct x
      | |- preserves _ (if ?x then _ else _) => destruct x
      end ].

Lemma preserves_completeAnalysisWithError w a x err :
  same_key a x → preserves a (completeAnalysisWithError w x err).
Proof.
  intros Hx. unfold completeAnalysisWithError. repeat preserves_step.
Qed.

Lemma preserves_agentic_loop w a remaining i resp x :
  same_key a x → preserves a (agentic_loop w remaining i resp x).
Proof.
  revert i resp x. induction remaining as [|n IH]; intros i resp x Hx.
  - apply preserves_ret.
  - cbn [agentic_loop].
    destruct (first_content resp) as [content|].
    + destruct (find_function_call (Parts content)) as [fc|];
        [|apply preserves_ret].
      repeat first
        [ apply IH; by auto
        | apply preserves_completeAnalysisWithError; by auto
        | preserves_step ].
    + repeat first
        [ apply preserves_completeAnalysisWithError; by auto
        | preserves_step ].
Qed.

Lemma preserves_finalize w a resp x :
  same_key a x → preserves a (finalize w resp x).
Proof.
  intros Hx. unfold finalize. repeat preserves_step.
Qed.

Lemma preserves_converse w a x current previous :
  same_key a x → preserves a (converse w x current previous).
Proof.
  intros Hx. unfold converse.
  destruct (buildPrompt w current previous) as [err|prompt].
  { preserves_step; [apply preserves_logger|].
    by apply preserves_completeAnalysisWithError. }
  preserves_step; [apply preserves_updateProgress|].
  destruct (Chats_Create_err w) as [err|].
  { preserves_step; [apply preserves_logger|].
    by apply preserves_completeAnalysisWithError. }
  destruct (SendMessage w 0 (Prompt prompt)) as [err|resp].
  { preserves_step; [apply preserves_logger|].
    by apply preserves_completeAnalysisWithError. }
  intros st. unfold bind.
  pose proof (preserves_agentic_loop w a (Z.to_nat maxAgenticIterations) 0 resp x
                Hx st) as Hloop.
  destruct (AnalyzerFacts.agentic_loop_exit w (Z.to_nat maxAgenticIterations) 0
              resp x st) as (cs & _ & _ & Hexit).
  destruct (agentic_loop w (Z.to_nat maxAgenticIterations) 0 resp x st)
    as [[a1|resp' a1] st1]; cbn [fst snd] in Hloop, Hexit.
  - exact Hloop.
  - destruct Hexit as [-> _]. eapply rewrites_trans; [exact Hloop|].
    apply preserves_finalize. auto.
Qed.

(** [runAnalysis] as three stages: the record is set to Running, the
    dialogue takes place, the analyzer is released. *)
Lemma runAnalysis_stages w a current previous st :
  ∃ st0,
    rewrites a st st0
    ∧ runAnalysis w a current previous st
      = ((converse w (with_status AnalysisStatusRunning a) current previous st0).1,
         (release (converse w (with_status AnalysisStatusRunning a)
                     current previous st0).2).2).
Proof.
  set (pre := bind (logger Info "starting analysis")
                (λ _, bind (analysisRepo_Update w AtRunning
                              (with_status AnalysisStatusRunning a))
                        (λ u, match u with
                              | Some _ =>
                                  logger Error
                                    "failed to update analysis status to running"
                              | None => ret tt
                              end))).
  exists (pre st).2. split.
  - assert (preserves a pre) as H; [|apply H].
    unfold pre. repeat preserves_step.
  - unfold pre, runAnalysis, bind, logger, analysisRepo_Update, ret.
    destruct (analysisRepo_Update_err w AtRunning); cbn [fst snd];
      match goal with |- context [converse w ?x current previous ?s] =>
        by destruct (converse w x current previous s)
      end.
Qed.

(** X21: however it ends, [runAnalysis] leaves the analyzer released
    (not running, no pair, empty progress text), starts no job, does not
    touch the snapshots, and neither adds nor removes an analysis row: a
    row keeps its id, and a row of another analysis is left as it was. *)
Theorem runAnalysis_releases (w : world) (a : SnapshotAnalysis.t)
    (current previous : Snapshot.t) (st : state) :
  GetGlobalStatus (runAnalysis w a current previous st).2 = idle_status
  ∧ snapshots (runAnalysis w a current previous st).2 = snapshots st
  ∧ jobs (runAnalysis w a current previous st).2 = jobs st
  ∧ Forall2 (λ r r', SnapshotAnalysis.ID r' = SnapshotAnalysis.ID r
                     ∧ (SnapshotAnalysis.ID r ≠ SnapshotAnalysis.ID a → r' = r))
            (analyses st) (analyses (runAnalysis w a current previous st).2).
Proof.
  destruct (runAnalysis_stages w a current previous st) as (st0 & H0 & ->).
  pose proof (preserves_converse w a (with_status AnalysisStatusRunning a)
                current previous (same_key_with_status _ _ _ (same_key_refl a)) st0)
    as H1.
  destruct (rewrites_trans _ _ _ _ H0 H1) as (S1 & S2 & _ & _ & _ & S3).
  cbn [snd release].
  split; [done|]. split; [done|]. split; [done|].
  cbn [analyses set_status].
  eapply Forall2_impl; [exact S3|].
  intros r r' [->|[Hid (Hid' & _)]]; [done|]. split; [congruence|done].
Qed.

Lemma same_key_same_pair a x :
  same_key a x →
  same_pair (SnapshotAnalysis.CurrentSnapshotID a)
    (SnapshotAnalysis.PreviousSnapshotID a) x = true.
Proof.
  intros (_ & H1 & H2). unfold same_pair. by rewrite H1, H2, !Z.eqb_refl.
Qed.

Lemma rewrites_listed a st st' : rewrites a st st' → listed a st → listed a st'.
Proof.
  intros (_ & _ & _ & _ & _ & H). unfold listed, analysis_row.
  induction H as [|r0 r0' rows rows' Hr _ IH]; [done|].
  cbn [List.find]. intros (r & Hfind & Hid).
  destruct Hr as [->|[Hid0 Hkey]].
  - destruct (same_pair _ _ r0); [by exists r|]. apply IH. by exists r.
  - rewrite (same_key_same_pair _ _ Hkey). exists r0'. split; [done|]. apply Hkey.
Qed.

Lemma find_replaced a x rows :
  same_key a x →
  (∃ r, List.find (same_pair (SnapshotAnalysis.CurrentSnapshotID a)
                     (SnapshotAnalysis.PreviousSnapshotID a)) rows = Some r
        ∧ SnapshotAnalysis.ID r = SnapshotAnalysis.ID a) →
  List.find (same_pair (SnapshotAnalysis.CurrentSnapshotID a)
               (SnapshotAnalysis.PreviousSnapshotID a))
    ((λ r, if SnapshotAnalysis.ID r =? SnapshotAnalysis.ID x then x else r) <$> rows)
  = Some x.
Proof.
  intros Hx. pose proof (same_key_same_pair _ _ Hx) as Hpair.
  destruct Hx as (Hid & _).
  induction rows as [|r0 rows IH]; [by intros (r & [=] & _)|].
  cbn [List.find fmap list_fmap]. intros (r & Hfind & Hr).
  destruct (SnapshotAnalysis.ID r0 =? SnapshotAnalysis.ID x) eqn:E.
  - by rewrite Hpair.
  - destruct (same_pair _ _ r0).
    + injection Hfind as ->. lia.
    + apply IH. by exists r.
Qed.

Lemma finalize_listed w a resp x st :
  same_key a x →
  analysisRepo_Update_err w AtCompletion = None →
  listed a st →
  analysis_row (finalize w resp x st).2 (SnapshotAnalysis.CurrentSnapshotID a)
    (SnapshotAnalysis.PreviousSnapshotID a)
  = Some (finalize w resp x st).1.
Proof.
  intros Hx Hok Hlisted. rewrite AnalyzerFacts.finalize_result.
  unfold finalize, bind, analysisRepo_Update, ret, logger, updateProgress,
    analysis_row, text_or_default.
  rewrite Hok.
  destruct (String.eqb (final_text resp) "");
    cbn [fst snd analyses set_status set_analyses];
    by apply (find_replaced a); [apply same_key_finished|].
Qed.

(** A dialogue that ends Completed, with the final update accepted,
    leaves its record as the row a lookup of the pair finds. *)
Lemma converse_completed_listed w a x current previous st :
  same_key a x →
  analysisRepo_Update_err w AtCompletion = None →
  listed a st →
  SnapshotAnalysis.Status (converse w x current previous st).1
    = AnalysisStatusCompleted →
  analysis_row (converse w x current previous st).2
    (SnapshotAnalysis.CurrentSnapshotID a) (SnapshotAnalysis.PreviousSnapshotID a)
  = Some (converse w x current previous st).1.
Proof.
  intros Hx Hok Hlisted.
  unfold converse, bind, logger, updateProgress.
  destruct (buildPrompt w current previous) as [err|prompt].
  { cbn [fst snd]. by rewrite AnalyzerFacts.completeAnalysisWithError_result. }
  cbn [fst snd].
  destruct (Chats_Create_err w) as [err|].
  { by rewrite AnalyzerFacts.completeAnalysisWithError_result. }
  destruct (SendMessage w 0 (Prompt prompt)) as [err|resp].
  { by rewrite AnalyzerFacts.completeAnalysisWithError_result. }
  match goal with |- context [agentic_loop w ?n 0 resp x ?s] =>
    pose proof (preserves_agentic_loop w a n 0 resp x Hx s) as Hloop;
    assert (listed a s) as Hs by exact Hlisted;
    destruct (AnalyzerFacts.agentic_loop_exit w n 0 resp x s)
      as (cs & _ & _ & Hexit);
    destruct (agentic_loop w n 0 resp x s) as [[a1|resp' a1] st1]
  end; cbn [fst snd] in Hloop, Hexit.
  - destruct Hexit as [err ->]. by cbn.
  - destruct Hexit as [-> _]. intros _.
    apply finalize_listed; [auto|done|]. by eapply rewrites_listed.
Qed.

(** [StartAnalysis] when the pair has a completed analysis. *)
Lemma StartAnalysis_reuse w currentID previousID st cur prev ex :
  snapshots_GetByID_err w currentID = None →
  snapshots_GetByID_err w previousID = None →
  snapshot_row st currentID = Some cur →
  snapshot_row st previousID = Some prev →
  analysisRepo_GetByPair_err w = None →
  analysis_row st currentID previousID = Some ex →
  SnapshotAnalysis.Status ex = AnalysisStatusCompleted →
  StartAnalysis w currentID previousID st
  = (inr ex, (logger Info "returning existing completed analysis" st).2).
Proof.
  unfold StartAnalysis, bind, snapshots_GetByID, analysisRepo_GetByPair, ret,
    snapshot_row, analysis_row.
  intros -> -> -> -> -> -> Hst. by rewrite decide_True.
Qed.

(** The state [runAnalysis] leaves is the released state of the one the
    dialogue leaves, which differs from the initial one by rewritten rows
    of the analysis only. *)
Lemma runAnalysis_state w a current previous st :
  ∃ st0 st1,
    rewrites a st st0
    ∧ rewrites a st st1
    ∧ converse w (with_status AnalysisStatusRunning a) current previous st0
      = ((runAnalysis w a current previous st).1, st1)
    ∧ (runAnalysis w a current previous st).2 = (release st1).2.
Proof.
  destruct (runAnalysis_stages w a current previous st) as (st0 & H0 & ->).
  pose proof (preserves_converse w a (with_status AnalysisStatusRunning a)
                current previous (same_key_with_status _ _ _ (same_key_refl a)) st0)
    as H1.
  exists st0, (converse w (with_status AnalysisStatusRunning a) current previous st0).2.
  split; [done|]. split; [by eapply rewrites_trans|].
  split; [|done]. cbn [fst]. by destruct (converse _ _ _ _ _).
Qed.

(** X22: when a run of [runAnalysis] ends Completed and its final update
    was accepted, a later [StartAnalysis] for the same pair hands out the
    very record the run produced, and starts nothing: no job, no change
    to the table, the analyzer stays released. *)
Theorem completed_run_is_reused (w : world) (a : SnapshotAnalysis.t)
    (current previous : Snapshot.t) (st : state) :
  let currentID := SnapshotAnalysis.CurrentSnapshotID a in
  let previousID := SnapshotAnalysis.PreviousSnapshotID a in
  let run := runAnalysis w a current previous st in
  analysisRepo_Update_err w AtCompletion = None →
  listed a st →
  SnapshotAnalysis.Status run.1 = AnalysisStatusCompleted →
  snapshots_GetByID_err w currentID = None →
  snapshots_GetByID_err w previousID = None →
  is_Some (snapshot_row st currentID) →
  is_Some (snapshot_row st previousID) →
  analysisRepo_GetByPair_err w = None →
  (StartAnalysis w currentID previousID run.2).1 = inr run.1
  ∧ jobs (StartAnalysis w currentID previousID run.2).2 = jobs st
  ∧ analyses (StartAnalysis w currentID previousID run.2).2 = analyses run.2
  ∧ GetGlobalStatus (StartAnalysis w currentID previousID run.2).2 = idle_status.
Proof.
  cbv zeta. intros Hok Hlisted Hst Hc Hp [cur Hcur] [prev Hprev] Hpair.
  destruct (runAnalysis_state w a current previous st)
    as (st0 & st1 & H0 & H1 & Hconv & Hrel).
  pose proof (converse_completed_listed w a (with_status AnalysisStatusRunning a)
                current previous st0
                (same_key_with_status _ _ _ (same_key_refl a)) Hok
                (rewrites_listed _ _ _ H0 Hlisted)) as Hrow.
  rewrite Hconv in Hrow. cbn [fst snd] in Hrow. specialize (Hrow Hst).
  destruct H1 as (S1 & S2 & _).
  rewrite Hrel.
  rewrite (StartAnalysis_reuse w _ _ (release st1).2 cur prev
             (runAnalysis w a current previous st).1); try done.
  all: unfold snapshot_row, analysis_row in *;
    cbn [release snd snapshots analyses set_status]; congruence.
Qed.

(** X22 on scenario S6: the answer of the model is stored, and a second
    request for the pair (5, 3) hands it out. *)
Lemma completed_run_is_reused_witness :
  let run :=
    runAnalysis (quiet_world answer_at_once) pending_analysis
      (snapshot 5 160) (snapshot 3 150) busy_state in
  (StartAnalysis (quiet_world answer_at_once) 5 3 run.2).1 = inr run.1
  ∧ SnapshotAnalysis.Result run.1
    = "Service b lost 10 series. No cardinality issues."
  ∧ jobs (StartAnalysis (quiet_world answer_at_once) 5 3 run.2).2 = [].
Proof.
  cbv zeta.
  destruct (completed_run_is_reused (quiet_world answer_at_once) pending_analysis
              (snapshot 5 160) (snapshot 3 150) busy_state)
    as (H1 & H2 & _).
  - reflexivity.
  - exists pending_analysis. split; reflexivity.
  - vm_compute; reflexivity.
  - reflexivity.
  - reflexivity.
  - by eexists.
  - by eexists.
  - reflexivity.
  - split; [exact H1|]. split; [vm_compute; reflexivity|exact H2].
Defined.

(** After an accepted update at the failure site the row of the analysis
    is the failed record. *)
Lemma completeAnalysisWithError_stored w x err st row :
  analysisRepo_Update_err w AtFailure = None →
  row ∈ analyses (completeAnalysisWithError w x err st).2 →
  SnapshotAnalysis.ID row = SnapshotAnalysis.ID x →
  row = (completeAnalysisWithError w x err st).1.
Proof.
  intros Hok. rewrite AnalyzerFacts.completeAnalysisWithError_result.
  unfold completeAnalysisWithError, bind, analysisRepo_Update, ret. rewrite Hok.
  cbn [fst snd analyses set_analyses].
  intros (r & -> & Hr)%list_elem_of_fmap. cbn [finished SnapshotAnalysis.ID].
  destruct (SnapshotAnalysis.ID r =? SnapshotAnalysis.ID x) eqn:E; [done|lia].
Qed.

(** X23: when the prompt cannot be built, the chat session cannot be
    created, or the prompt cannot be sent, [runAnalysis] ends with the
    record Failed, carrying the message of that error and a completion
    time, with no tool call added; the same holds, with the message
    "received an empty response from Gemini", when the first response has
    no content.  If the update at the failure is accepted, the row of the
    analysis in the table is that record. *)
Theorem runAnalysis_records_early_failure (w : world) (a : SnapshotAnalysis.t)
    (current previous : Snapshot.t) (st : state) (err : error) :
  (setup_error w current previous = Some err
   ∨ (err = "received an empty response from Gemini"
      ∧ ∃ prompt resp,
          buildPrompt w current previous = inr prompt
          ∧ Chats_Create_err w = None
          ∧ SendMessage w 0 (Prompt prompt) = inr resp
          ∧ first_content resp = None)) →
  (runAnalysis w a current previous st).1
  = finished AnalysisStatusFailed (SnapshotAnalysis.Result a) err (now w)
      (with_status AnalysisStatusRunning a)
  ∧ (analysisRepo_Update_err w AtFailure = None →
     ∀ row, row ∈ analyses (runAnalysis w a current previous st).2 →
            SnapshotAnalysis.ID row = SnapshotAnalysis.ID a →
            row = (runAnalysis w a current previous st).1).
Proof.
  intros Hearly.
  destruct (runAnalysis_stages w a current previous st) as (st0 & _ & ->).
  cbn [fst snd release analyses set_status].
  assert (∃ st1,
            converse w (with_status AnalysisStatusRunning a) current previous st0
            = completeAnalysisWithError w (with_status AnalysisStatusRunning a)
                err st1) as [st1 ->].
  { unfold converse, setup_error in *.
    destruct Hearly as [Hsetup|(-> & prompt & resp & Hprompt & Hchat & Hsend & Hempty)].
    - destruct (buildPrompt w current previous) as [e|prompt].
      { injection Hsetup as ->. unfold bind, logger. eauto. }
      destruct (Chats_Create_err w) as [e|].
      { injection Hsetup as ->. unfold bind, logger, updateProgress. eauto. }
      destruct (SendMessage w 0 (Prompt prompt)) as [e|resp]; [|done].
      injection Hsetup as ->. unfold bind, logger, updateProgress. eauto.
    - rewrite Hprompt, Hchat, Hsend.
      change (Z.to_nat maxAgenticIterations) with 20%nat.
      cbn [agentic_loop]. rewrite Hempty.
      unfold bind, logger, updateProgress, ret. cbn [fst snd].
      match goal with |- context [completeAnalysisWithError w ?x ?e ?s] =>
        exists s; by destruct (completeAnalysisWithError w x e s)
      end. }
  split; [by rewrite AnalyzerFacts.completeAnalysisWithError_result|].
  intros Hok row Hrow Hid. by apply completeAnalysisWithError_stored.
Qed.

(** X23 on a model that cannot be reached. *)
Lemma runAnalysis_records_early_failure_witness :
  (runAnalysis unreachable_model pending_analysis (snapshot 5 160) (snapshot 3 150)
     busy_state).1
  = finished AnalysisStatusFailed "" "rpc error: deadline exceeded"
      1754000100000000000 (with_status AnalysisStatusRunning pending_analysis)
  ∧ analyses (runAnalysis unreachable_model pending_analysis (snapshot 5 160)
                (snapshot 3 150) busy_state).2
    = [finished AnalysisStatusFailed "" "rpc error: deadline exceeded"
         1754000100000000000 (with_status AnalysisStatusRunning pending_analysis)].
Proof.
  destruct (runAnalysis_records_early_failure unreachable_model pending_analysis
              (snapshot 5 160) (snapshot 3 150) busy_state
              "rpc error: deadline exceeded") as [H1 _].
  - left. reflexivity.
  - split; [exact H1|]. vm_compute; reflexivity.
Defined.

Lemma asks_for_tool_call resp :
  asks_for_tool resp = true →
  ∃ content fc, first_content resp = Some content
                ∧ find_function_call (Parts content) = Some fc.
Proof.
  unfold asks_for_tool. destruct (first_content resp) as [content|]; [|done].
  destruct (find_function_call (Parts content)) as [fc|] eqn:Hfc; [|done].
  intros _. by exists content, fc.
Qed.

(** One turn of the agentic loop that finds a function call, with the
    message that is sent written out. *)
Lemma agentic_loop_call w n i resp a st content fc :
  first_content resp = Some content →
  find_function_call (Parts content) = Some fc →
  match SendMessage w (S i) (tool_message w i fc) with
  | inl err =>
      (agentic_loop w (S n) i resp a st).1
      = Returned (finished AnalysisStatusFailed (SnapshotAnalysis.Result a) err
                    (now w) (append_tool_call (recorded_call w i fc) a))
  | inr resp1 =>
      ∃ st1,
        (agentic_loop w (S n) i resp a st).1
        = (agentic_loop w n (S i) resp1
             (append_tool_call (recorded_call w i fc) a) st1).1
  end.
Proof.
  intros Hcontent Hfc. cbn [agentic_loop]. rewrite Hcontent, Hfc.
  unfold tool_message, recorded_call, response_map, tool_result.
  cbn [ToolCall.Result].
  unfold bind, logger, updateProgress, analysisRepo_Update, ret.
  destruct (Execute w i (FunctionCall.Name fc) (FunctionCall.Args fc)) as [e|r];
    cbn [fst snd];
    match goal with |- context [analysisRepo_Update_err w ?site] =>
      destruct (analysisRepo_Update_err w site)
    end;
    match goal with |- context [toMap ?v] => destruct (toMap v) end;
    cbn [fst snd];
    match goal with |- context [SendMessage w (S i) ?m] =>
      destruct (SendMessage w (S i) m) as [err|resp1]
    end;
    first [ eexists; reflexivity
          | match goal with |- context [completeAnalysisWithError w ?x ?e ?s] =>
              pose proof (AnalyzerFacts.completeAnalysisWithError_result w x e s) as H;
              destruct (completeAnalysisWithError w x e s) as [a' st'];
              cbn [fst] in H; subst a'; reflexivity
            end ].
Qed.

Lemma answers_content resp :
  answers resp = true ↔
  ∃ content, first_content resp = Some content
             ∧ find_function_call (Parts content) = None.
Proof.
  unfold answers. destruct (first_content resp) as [content|].
  - destruct (find_function_call (Parts content)) as [fc|] eqn:Hfc.
    + split; [done|]. intros (content' & [= <-] & H). congruence.
    + split; [by exists content|done].
  - split; [done|]. by intros (content & [=] & _).
Qed.

(** The loop follows the dialogue: it is left with the last response of
    it in hand and its calls on the record. *)
Lemma leads_to_loop w i resp cs resp' :
  leads_to w i resp cs resp' →
  ∀ n a st,
    (length cs <= n)%nat →
    answers resp' = true ∨ length cs = n →
    (agentic_loop w n i resp a st).1 = Left resp' (with_tool_calls cs a).
Proof.
  induction 1 as [i resp|i resp content fc resp1 cs resp' Hcontent Hfc Hsend _ IH];
    intros n a st Hlen Hend.
  - destruct n as [|n]; [done|].
    destruct Hend as [Hans|Hlen']; [|done].
    apply answers_content in Hans as (content & Hcontent & Hfc).
    cbn [agentic_loop]. by rewrite Hcontent, Hfc.
  - destruct n as [|n]; [simpl in Hlen; lia|].
    pose proof (agentic_loop_call w n i resp a st content fc Hcontent Hfc) as Hstep.
    rewrite Hsend in Hstep. destruct Hstep as [st1 ->].
    rewrite AnalyzerFacts.with_tool_calls_cons. apply IH; [simpl in Hlen; lia|].
    destruct Hend as [Hans|Hlen']; [by left|right; simpl in Hlen'; lia].
Qed.

(** And only so is the loop left for the final stage. *)
Lemma loop_Left_leads w n i resp a st resp' a' :
  (agentic_loop w n i resp a st).1 = Left resp' a' →
  ∃ cs, leads_to w i resp cs resp'
        ∧ a' = with_tool_calls cs a
        ∧ (length cs <= n)%nat
        ∧ (answers resp' = true ∨ length cs = n).
Proof.
  revert i resp a st. induction n as [|n IH]; intros i resp a st.
  { intros [= <- <-]. exists []. split; [constructor|]. split; [done|].
    split; [done|by right]. }
  destruct (first_content resp) as [content|] eqn:Hcontent; cycle 1.
  { cbn [agentic_loop]. rewrite Hcontent. unfold bind, logger, ret. cbn [fst snd].
    by destruct (completeAnalysisWithError _ _ _ _). }
  destruct (find_function_call (Parts content)) as [fc|] eqn:Hfc; cycle 1.
  { cbn [agentic_loop]. rewrite Hcontent, Hfc. intros [= <- <-].
    exists []. split; [constructor|]. split; [done|]. split; [simpl; lia|].
    left. apply answers_content. by exists content. }
  pose proof (agentic_loop_call w n i resp a st content fc Hcontent Hfc) as Hstep.
  destruct (SendMessage w (S i) (tool_message w i fc)) as [err|resp1] eqn:Hsend.
  { by rewrite Hstep. }
  destruct Hstep as [st1 ->]. intros Hleft.
  destruct (IH _ _ _ _ Hleft) as (cs & Hleads & -> & Hlen & Hend).
  exists (recorded_call w i fc :: cs).
  split; [by econstructor|]. split; [done|]. split; [simpl; lia|].
  destruct Hend as [Hans|Hlen']; [by left|right; simpl; lia].
Qed.

Lemma leads_to_last w i resp cs resp' :
  leads_to w i resp cs resp' → cs ≠ [] →
  ∃ msg, SendMessage w (i + length cs) msg = inr resp'.
Proof.
  induction 1 as [i resp|i resp content fc resp1 cs resp' _ _ Hsend Hrest IH];
    [done|]. intros _. destruct cs as [|c cs].
  - inversion Hrest; subst. exists (tool_message w i fc).
    by replace (i + length [recorded_call w i fc])%nat with (S i) by (simpl; lia).
  - destruct IH as [msg Hmsg]; [done|]. exists msg. rewrite <- Hmsg. f_equal.
    simpl. lia.
Qed.

(** What the dialogue stage returns when the dialogue ends. *)
Lemma converse_final w x current previous st cs resp :
  dialogue_ends w current previous cs resp →
  (converse w x current previous st).1
  = finished AnalysisStatusCompleted (text_or_default resp)
      (SnapshotAnalysis.Error x) (now w) (with_tool_calls cs x).
Proof.
  intros (prompt & resp0 & Hprompt & Hchat & Hsend & Hleads & Hlen & Hend).
  unfold converse. rewrite Hprompt, Hchat, Hsend.
  unfold bind. cbn [updateProgress fst snd].
  match goal with |- context [agentic_loop w ?n 0 resp0 x ?s] =>
    pose proof (leads_to_loop w 0 resp0 cs resp Hleads n x s Hlen Hend) as Hloop;
    destruct (agentic_loop w n 0 resp0 x s) as [exit st1]
  end.
  cbn [fst] in Hloop. subst exit.
  by rewrite AnalyzerFacts.finalize_result, AnalyzerFacts.Error_with_tool_calls.
Qed.

(** A dialogue stage that returns a Completed record has ended so. *)
Lemma converse_completed w x current previous st :
  SnapshotAnalysis.Status (converse w x current previous st).1
    = AnalysisStatusCompleted →
  ∃ cs resp, dialogue_ends w current previous cs resp.
Proof.
  unfold converse, bind, logger, updateProgress.
  destruct (buildPrompt w current previous) as [err|prompt] eqn:Hprompt.
  { cbn [fst snd]. by rewrite AnalyzerFacts.completeAnalysisWithError_result. }
  cbn [fst snd].
  destruct (Chats_Create_err w) as [err|] eqn:Hchat.
  { by rewrite AnalyzerFacts.completeAnalysisWithError_result. }
  destruct (SendMessage w 0 (Prompt prompt)) as [err|resp0] eqn:Hsend.
  { by rewrite AnalyzerFacts.completeAnalysisWithError_result. }
  match goal with |- context [agentic_loop w ?n 0 resp0 x ?s] =>
    pose proof (loop_Left_leads w n 0 resp0 x s) as Hleft;
    destruct (AnalyzerFacts.agentic_loop_exit w n 0 resp0 x s)
      as (cs0 & _ & _ & Hexit);
    destruct (agentic_loop w n 0 resp0 x s) as [[a1|resp' a1] st1]
  end; cbn [fst snd] in Hleft, Hexit.
  - destruct Hexit as [err ->]. by cbn.
  - intros _. destruct (Hleft resp' a1 eq_refl) as (cs & Hleads & _ & Hlen & Hend).
    exists cs, resp', prompt, resp0.
    split; [done|]. split; [done|]. split; [done|]. split; [done|]. by split.
Qed.

(** C9: every run of [runAnalysis] ends with a completion time on the
    record, which is Completed or Failed.  Whenever the dialogue ends, at
    whatever iteration, with a final response in hand (one that has
    content and no function call, or the one in hand when the iterations
    are used up), the record is Completed, its result is the
    concatenation of the non-thinking text parts of that final response,
    or "No analysis generated." when that concatenation is empty, and it
    carries the calls made on the way.  Once the final update is accepted
    that record is the row of the analysis, and the row a lookup of the
    pair finds.  A record is Completed in no other way.  In particular a
    first response that has content and no function call ends the loop
    at once, with no tool call added. *)
Theorem final_text_becomes_result (w : world) (a : SnapshotAnalysis.t)
    (current previous : Snapshot.t) (st : state) :
  SnapshotAnalysis.CompletedAt (runAnalysis w a current previous st).1
    = Some (now w)
  ∧ (SnapshotAnalysis.Status (runAnalysis w a current previous st).1
       = AnalysisStatusCompleted
     ∨ SnapshotAnalysis.Status (runAnalysis w a current previous st).1
       = AnalysisStatusFailed)
  ∧ (∀ cs resp,
       dialogue_ends w current previous cs resp →
       (runAnalysis w a current previous st).1
       = finished AnalysisStatusCompleted (text_or_default resp)
           (SnapshotAnalysis.Error a) (now w)
           (with_tool_calls cs (with_status AnalysisStatusRunning a))
       ∧ SnapshotAnalysis.Status (runAnalysis w a current previous st).1
         = AnalysisStatusCompleted
       ∧ (final_text resp = "" →
          SnapshotAnalysis.Result (runAnalysis w a current previous st).1
          = "No analysis generated.")
       ∧ (final_text resp ≠ "" →
          SnapshotAnalysis.Result (runAnalysis w a current previous st).1
          = final_text resp)
       ∧ SnapshotAnalysis.ToolCalls (runAnalysis w a current previous st).1
         = SnapshotAnalysis.ToolCalls a ++ cs
       ∧ (analysisRepo_Update_err w AtCompletion = None →
          (∀ row, row ∈ analyses (runAnalysis w a current previous st).2 →
                  SnapshotAnalysis.ID row = SnapshotAnalysis.ID a →
                  row = (runAnalysis w a current previous st).1)
          ∧ (listed a st →
             analysis_row (runAnalysis w a current previous st).2
               (SnapshotAnalysis.CurrentSnapshotID a)
               (SnapshotAnalysis.PreviousSnapshotID a)
             = Some (runAnalysis w a current previous st).1)))
  ∧ (SnapshotAnalysis.Status (runAnalysis w a current previous st).1
       = AnalysisStatusCompleted →
     ∃ cs resp, dialogue_ends w current previous cs resp)
  ∧ (∀ prompt resp content,
       buildPrompt w current previous = inr prompt →
       Chats_Create_err w = None →
       SendMessage w 0 (Prompt prompt) = inr resp →
       first_content resp = Some content →
       find_function_call (Parts content) = None →
       (runAnalysis w a current previous st).1
       = finished AnalysisStatusCompleted (text_or_default resp)
           (SnapshotAnalysis.Error a) (now w)
           (with_status AnalysisStatusRunning a)).
Proof.
  destruct (runAnalysis_state w a current previous st)
    as (st0 & st1 & H0 & H1 & Hconv & Hrel).
  set (running_a := with_status AnalysisStatusRunning a) in *.
  assert (same_key a running_a) as Hkey by done.
  destruct (AnalyzerFacts.converse_outcome w running_a current previous st0)
    as (cs0 & _ & _ & Hout).
  rewrite Hconv in Hout. cbn [fst snd] in Hout.
  assert (∀ cs resp,
            dialogue_ends w current previous cs resp →
            (runAnalysis w a current previous st).1
            = finished AnalysisStatusCompleted (text_or_default resp)
                (SnapshotAnalysis.Error a) (now w) (with_tool_calls cs running_a))
    as Hfinal.
  { intros cs resp Hends.
    pose proof (converse_final w running_a current previous st0 cs resp Hends) as H.
    by rewrite Hconv in H. }
  split; [|split; [|split; [|split]]].
  - by destruct Hout as [[err ->]|(resp & msg & _ & -> & _)].
  - destruct Hout as [[err ->]|(resp & msg & _ & -> & _)]; [by right|by left].
  - intros cs resp Hends. pose proof (Hfinal cs resp Hends) as Heq.
    split; [done|]. rewrite Heq.
    cbn [finished SnapshotAnalysis.Status SnapshotAnalysis.Result
         SnapshotAnalysis.ToolCalls].
    split; [done|].
    split; [intros Hempty; by apply AnalyzerFacts.text_or_default_empty|].
    split.
    { intros Hne. unfold text_or_default.
      destruct (String.eqb (final_text resp) "") eqn:E; [|done].
      by apply String.eqb_eq in E. }
    split; [by rewrite AnalyzerFacts.ToolCalls_with_tool_calls|].
    intros Hok. rewrite <- Heq, Hrel. cbn [release snd analyses set_status].
    split.
    + destruct Hout as [[err Hfail]|(resp1 & msg & _ & _ & Hrow)].
      { rewrite Heq in Hfail. discriminate Hfail. }
      intros row Hrow' Hid. by apply Hrow.
    + intros Hlisted.
      pose proof (converse_completed_listed w a running_a current previous st0
                    Hkey Hok (rewrites_listed _ _ _ H0 Hlisted)) as Hlook.
      rewrite Hconv in Hlook. cbn [fst snd] in Hlook. apply Hlook.
      by rewrite Heq.
  - intros Hst.
    apply (converse_completed w running_a current previous st0).
    by rewrite Hconv.
  - intros prompt resp content Hprompt Hchat Hsend Hcontent Hfc.
    apply (Hfinal [] resp). exists prompt, resp.
    split; [done|]. split; [done|]. split; [done|]. split; [constructor|].
    split; [simpl; lia|]. left. apply answers_content. by exists content.
Qed.

(** C9 on three runs: the model answers after two tool calls, so the
    final response is the third; its only turn is a thought (the default
    text); scenario S6. *)
Lemma final_text_becomes_result_witness :
  (runAnalysis (quiet_world two_calls) pending_analysis
     (snapshot 5 160) (snapshot 3 150) busy_state).1
  = finished AnalysisStatusCompleted "Service b lost 10 series." ""
      1754000100000000000
      (with_tool_calls
         [recorded_call (quiet_world two_calls) 0
            {| FunctionCall.Name := "compare_services";
               FunctionCall.Args := JObject [("service_name", JString "b")] |};
          recorded_call (quiet_world two_calls) 1
            {| FunctionCall.Name := "get_service_metrics";
               FunctionCall.Args := JObject [("service_name", JString "b")] |}]
         (with_status AnalysisStatusRunning pending_analysis))
  ∧ analysis_row (runAnalysis (quiet_world two_calls) pending_analysis
                    (snapshot 5 160) (snapshot 3 150) busy_state).2 5 3
    = Some (runAnalysis (quiet_world two_calls) pending_analysis
              (snapshot 5 160) (snapshot 3 150) busy_state).1
  ∧ (runAnalysis (quiet_world thought_only) pending_analysis
       (snapshot 5 160) (snapshot 3 150) busy_state).1
    = finished AnalysisStatusCompleted "No analysis generated." ""
        1754000100000000000 (with_status AnalysisStatusRunning pending_analysis)
  ∧ (runAnalysis (quiet_world answer_at_once) pending_analysis
       (snapshot 5 160) (snapshot 3 150) busy_state).1
    = finished AnalysisStatusCompleted
        "Service b lost 10 series. No cardinality issues." ""
        1754000100000000000 (with_status AnalysisStatusRunning pending_analysis).
Proof.
  destruct (final_text_becomes_result (quiet_world two_calls) pending_analysis
              (snapshot 5 160) (snapshot 3 150) busy_state)
    as (_ & _ & Htwo & _ & _).
  destruct (Htwo
              [recorded_call (quiet_world two_calls) 0
                 {| FunctionCall.Name := "compare_services";
                    FunctionCall.Args := JObject [("service_name", JString "b")] |};
               recorded_call (quiet_world two_calls) 1
                 {| FunctionCall.Name := "get_service_metrics";
                    FunctionCall.Args := JObject [("service_name", JString "b")] |}]
              (two_calls 2))
    as (Hrec & _ & _ & _ & _ & Hstored).
  { exists "compare the two snapshots", (two_calls 0).
    split; [reflexivity|]. split; [reflexivity|]. split; [reflexivity|].
    split.
    - eapply (leads_on _ 0 (two_calls 0) _ _ (two_calls 1));
        [reflexivity..|].
      eapply (leads_on _ 1 (two_calls 1) _ _ (two_calls 2));
        [reflexivity..|].
      apply leads_here.
    - split; [|by left]. cbn [length].
      change (Z.to_nat maxAgenticIterations) with 20%nat. lia. }
  split; [exact Hrec|].
  split.
  { apply (proj2 (Hstored eq_refl)). exists pending_analysis. by split. }
  split.
  - exact (proj2 (proj2 (proj2 (proj2
             (final_text_becomes_result (quiet_world thought_only)
                pending_analysis (snapshot 5 160) (snapshot 3 150) busy_state))))
             "compare the two snapshots" (thought_only 0)
             {| Parts := [text_part "weighing the evidence" true] |}
             eq_refl eq_refl eq_refl eq_refl eq_refl).
  - exact (proj2 (proj2 (proj2 (proj2
             (final_text_becomes_result (quiet_world answer_at_once)
                pending_analysis (snapshot 5 160) (snapshot 3 150) busy_state))))
             "compare the two snapshots" (answer_at_once 0) _
             eq_refl eq_refl eq_refl eq_refl eq_refl).
Defined.

(** The dialogue with a model that asks for a tool on every turn. *)
Lemma always_asks_leads w n i resp :
  (∀ k msg, ∃ resp', SendMessage w k msg = inr resp' ∧ asks_for_tool resp' = true) →
  asks_for_tool resp = true →
  ∃ cs resp',
    leads_to w i resp cs resp' ∧ length cs = n ∧ asks_for_tool resp' = true.
Proof.
  intros Hall. revert i resp. induction n as [|n IH]; intros i resp Hasks.
  { exists [], resp. split; [constructor|done]. }
  destruct (asks_for_tool_call resp Hasks) as (content & fc & Hcontent & Hfc).
  destruct (Hall (S i) (tool_message w i fc)) as (resp1 & Hsend & Hasks1).
  destruct (IH (S i) resp1 Hasks1) as (cs & resp' & Hleads & Hlen & Hasks').
  exists (recorded_call w i fc :: cs), resp'.
  split; [by econstructor|]. split; [simpl; lia|done].
Qed.

(** X24: when every message to the model is answered by a request for a
    tool, [runAnalysis] stops at the iteration cap: the dialogue goes on
    for exactly 20 tool calls, which it records, and the record ends
    Completed, not Failed, with the text of the response to the twentieth
    tool result (or the default text when that response has none) as
    result, although this last response asks for a further tool, which is
    never run. *)
Theorem runAnalysis_stops_at_cap (w : world) (a : SnapshotAnalysis.t)
    (current previous : Snapshot.t) (st : state) (prompt : string) :
  buildPrompt w current previous = inr prompt →
  Chats_Create_err w = None →
  (∀ k msg, ∃ resp, SendMessage w k msg = inr resp ∧ asks_for_tool resp = true) →
  ∃ resp0 cs resp msg,
    SendMessage w 0 (Prompt prompt) = inr resp0
    ∧ leads_to w 0 resp0 cs resp
    ∧ Z.of_nat (length cs) = maxAgenticIterations
    ∧ SendMessage w 20 msg = inr resp
    ∧ asks_for_tool resp = true
    ∧ (runAnalysis w a current previous st).1
      = finished AnalysisStatusCompleted (text_or_default resp)
          (SnapshotAnalysis.Error a) (now w)
          (with_tool_calls cs (with_status AnalysisStatusRunning a))
    ∧ SnapshotAnalysis.ToolCalls (runAnalysis w a current previous st).1
      = SnapshotAnalysis.ToolCalls a ++ cs
    ∧ SnapshotAnalysis.Status (runAnalysis w a current previous st).1
      = AnalysisStatusCompleted
    ∧ SnapshotAnalysis.Result (runAnalysis w a current previous st).1
      = text_or_default resp.
Proof.
  intros Hprompt Hchat Hall.
  destruct (Hall 0%nat (Prompt prompt)) as (resp0 & Hsend & Hasks0).
  destruct (always_asks_leads w 20 0 resp0 Hall Hasks0)
    as (cs & resp & Hleads & Hlen & Hasks).
  destruct (leads_to_last w 0 resp0 cs resp Hleads) as [msg Hmsg].
  { intros ->. discriminate Hlen. }
  rewrite Hlen in Hmsg. cbn [Nat.add] in Hmsg.
  destruct (runAnalysis_state w a current previous st)
    as (st0 & st1 & _ & _ & Hconv & _).
  pose proof (converse_final w (with_status AnalysisStatusRunning a) current
                previous st0 cs resp) as Hfinal.
  rewrite Hconv in Hfinal. cbn [fst] in Hfinal.
  exists resp0, cs, resp, msg.
  split; [done|]. split; [done|]. split; [by rewrite Hlen|].
  split; [done|]. split; [done|].
  rewrite Hfinal.
  - split; [done|].
    cbn [finished SnapshotAnalysis.ToolCalls SnapshotAnalysis.Status
         SnapshotAnalysis.Result].
    by rewrite AnalyzerFacts.ToolCalls_with_tool_calls.
  - exists prompt, resp0. split; [done|]. split; [done|]. split; [done|].
    split; [done|]. split; [by rewrite Hlen|by right].
Qed.

(** X24 on a model that asks for a tool on every turn and says which
    turn it is: the result is the text of reply number 20. *)
Lemma runAnalysis_stops_at_cap_witness :
  SnapshotAnalysis.Result
    (runAnalysis (quiet_world counting_calls) pending_analysis
       (snapshot 5 160) (snapshot 3 150) busy_state).1
  = "reply 20"
  ∧ length (SnapshotAnalysis.ToolCalls
              (runAnalysis (quiet_world counting_calls) pending_analysis
                 (snapshot 5 160) (snapshot 3 150) busy_state).1) = 20%nat
  ∧ SnapshotAnalysis.Status
      (runAnalysis (quiet_world counting_calls) pending_analysis
         (snapshot 5 160) (snapshot 3 150) busy_state).1
    = AnalysisStatusCompleted.
Proof.
  destruct (runAnalysis_stops_at_cap (quiet_world counting_calls) pending_analysis
              (snapshot 5 160) (snapshot 3 150) busy_state
              "compare the two snapshots")
    as (resp0 & cs & resp & msg & _ & _ & Hlen & Hmsg & _ & _ & Hcalls & Hst & Hres).
  - reflexivity.
  - reflexivity.
  - intros k msg. exists (counting_calls k). split; reflexivity.
  - injection Hmsg as <-. split; [exact Hres|]. split; [|exact Hst].
    rewrite Hcalls. cbn [app pending_analysis SnapshotAnalysis.ToolCalls].
    apply Nat2Z.inj. exact Hlen.
Defined.

End AnalyzerMoreFacts.

(** ** The health handler *)

Module HandlerFacts.

Import Go models LegacyClient LegacyClientMore Handler.
Local Open Scope Z_scope.

(** X25: [Health] always answers with status code 200, whatever it
    found.  The body says "unhealthy" exactly when the database check
    fails, also when the metrics backend is down as well; "degraded"
    exactly when the database is fine and the health check of the metrics
    client fails; "healthy" otherwise.  The backend counts as connected
    when there is no metrics client; with the hand-written client it
    counts as connected exactly when the request to [/-/healthy] succeeds
    within its retries. *)
Theorem Health_status_table (w : world) :
  (Health w).1 = 200
  ∧ (HealthStatus.DatabaseOK (Health w).2 = true ↔ db_Stats_err w = None)
  ∧ (HealthStatus.PrometheusConnected (Health w).2 = false ↔
     ∃ e, promClient w = Some (Some e))
  ∧ (∀ backend, promClient w = legacy_client backend →
       (HealthStatus.PrometheusConnected (Health w).2 = true ↔
        ∃ body, (doRequest backend health_request).1 = inr body))
  ∧ HealthStatus.Status (Health w).2
    = (if negb (HealthStatus.DatabaseOK (Health w).2) then "unhealthy"
       else if negb (HealthStatus.PrometheusConnected (Health w).2) then "degraded"
       else "healthy")
  ∧ HealthStatus.LastScan (Health w).2
    = Snapshot.CollectedAt <$> snapshots_GetLatest w.
Proof.
  assert (∀ backend,
            (HealthCheck backend).1 = None
            ↔ ∃ body, (doRequest backend health_request).1 = inr body) as Hlegacy.
  { intros backend. unfold HealthCheck.
    destruct (doRequest backend health_request) as [[e|body] tr]; cbn [fst].
    - split; [done|]. by intros [body [=]].
    - split; [by eexists|done]. }
  unfold Health, legacy_client.
  destruct (db_Stats_err w) as [e|], (promClient w) as [[e'|]|],
    (snapshots_GetLatest w) as [latest|];
    cbn [fst snd HealthStatus.Status HealthStatus.DatabaseOK
         HealthStatus.PrometheusConnected HealthStatus.LastScan negb];
    (split; [done|]); (split; [done|]);
    (split; [split; [by eauto|by intros [e0 [=]]]|]);
    (split; [|done]);
    intros backend [= Hb]; rewrite <- Hlegacy, <- Hb; done.
Qed.

End HandlerFacts.
